(** * tidy-markdown: a shallow embedding of the DOM-to-Markdown rewrite engine

    The development follows the TypeScript sources:
    - [JS]          the fragment of the JavaScript runtime the sources rely on
                    (strings as sequences of UTF-16 code units, numbers with NaN,
                    exceptions as an error result);
    - [Dom]         the htmlparser2 node shape of [tree-adapter.ts] and [node.ts];
    - [Utils]       [utils.ts];
    - [Tables]      [tables.ts];
    - [Converters]  [converters.ts] (the ordered rule table);
    - [Index]       [index.ts] (heading repair, content assembly, rule lookup).

    All definitions come first; the properties follow in the second half. *)

From Stdlib Require Import ZArith NArith List Ascii Bool Lia.
From Stdlib Require String DecimalString.
Import String.StringSyntax.
Delimit Scope string_scope with string.
Import ListNotations.

#[local] Set Warnings "-register-all".

(* ================================================================== *)
(** * Part I: definitions                                              *)
(* ================================================================== *)

Module JS.

(** ** Strings

    A JavaScript string is a sequence of UTF-16 code units; [length] is the
    number of code units, and a code unit is kept as a natural number. *)
Definition char := N.
Definition jsstring := list char.

(** String literals of the sources. *)
Definition lit (s : String.string) : jsstring :=
  map N_of_ascii (String.list_ascii_of_string s).
Arguments lit s%_string.

(** [a === b] on strings. *)
Fixpoint streq (a b : jsstring) : bool :=
  match a, b with
  | [], [] => true
  | x :: a', y :: b' => N.eqb x y && streq a' b'
  | _, _ => false
  end.

(** [a == b] on values that are a string or [null]. *)
Definition nullable_eq (a b : option jsstring) : bool :=
  match a, b with
  | None, None => true
  | Some x, Some y => streq x y
  | _, _ => false
  end.

(** The characters matched by [\s] (and removed by [trim]): WhiteSpace and
    LineTerminator of ECMAScript. *)
Definition isWhiteSpace (c : char) : bool :=
  ((9 <=? c) && (c <=? 13) || (c =? 32) || (c =? 160) || (c =? 5760)
   || (8192 <=? c) && (c <=? 8202) || (c =? 8232) || (c =? 8233)
   || (c =? 8239) || (c =? 8287) || (c =? 12288) || (c =? 65279))%N.

(** The characters a regular expression [.] does not match. *)
Definition isLineTerminator (c : char) : bool :=
  ((c =? 10) || (c =? 13) || (c =? 8232) || (c =? 8233))%N.

Fixpoint trimLeft (s : jsstring) : jsstring :=
  match s with
  | [] => []
  | c :: t => if isWhiteSpace c then trimLeft t else s
  end.

Fixpoint trimRight (s : jsstring) : jsstring :=
  match s with
  | [] => []
  | c :: t =>
      match trimRight t with
      | [] => if isWhiteSpace c then [] else [c]
      | t' => c :: t'
      end
  end.

Definition trim (s : jsstring) : jsstring := trimLeft (trimRight s).

Fixpoint startsWith (prefix s : jsstring) : bool :=
  match prefix, s with
  | [], _ => true
  | p :: prefix', c :: s' => N.eqb p c && startsWith prefix' s'
  | _ :: _, [] => false
  end.

(** [s.indexOf(c) >= 0] for a one-character needle, and [s.includes(sub)]. *)
Definition hasChar (c : char) (s : jsstring) : bool := existsb (N.eqb c) s.

Fixpoint includes (sub s : jsstring) : bool :=
  startsWith sub s || match s with [] => false | _ :: t => includes sub t end.

(** [s.replace(/c/g, by)] for a one-character pattern. *)
Definition replaceAllChar (c : char) (by_ : jsstring) (s : jsstring) : jsstring :=
  flat_map (fun x => if N.eqb x c then by_ else [x]) s.

(** [s.charAt(i)]: the empty string when out of range. *)
Definition charAt (i : nat) (s : jsstring) : jsstring :=
  match nth_error s i with Some c => [c] | None => [] end.

(** [c.repeat(n)] for a non-negative count. *)
Definition repeatChar (c : char) (n : nat) : jsstring := repeat c n.

(** [parts.join(sep)]. *)
Fixpoint join (sep : jsstring) (parts : list jsstring) : jsstring :=
  match parts with
  | [] => []
  | [p] => p
  | p :: rest => p ++ sep ++ join sep rest
  end.

(** ** Numbers

    Only integers and NaN occur in the modelled code: [None] is NaN.
    Every comparison with NaN is false; arithmetic on NaN is NaN. *)
Definition number := option Z.
Definition NaN : number := None.

Definition le (a b : number) : bool :=
  match a, b with Some x, Some y => (x <=? y)%Z | _, _ => false end.
Definition ge (a b : number) : bool := le b a.
Definition sub (a b : number) : number :=
  match a, b with Some x, Some y => Some (x - y)%Z | _, _ => None end.
Definition add (a b : number) : number :=
  match a, b with Some x, Some y => Some (x + y)%Z | _, _ => None end.

(** [x || 0] on a number: 0 and NaN are falsy. *)
Definition orZero (x : number) : number :=
  match x with
  | Some 0%Z | None => Some 0%Z
  | _ => x
  end.

Definition digitVal (c : char) : option Z :=
  if ((48 <=? c) && (c <=? 57))%N then Some (Z.of_N (c - 48)) else None.

Fixpoint parseDigits (acc : Z) (s : jsstring) : Z :=
  match s with
  | [] => acc
  | c :: t =>
      match digitVal c with
      | Some d => parseDigits (10 * acc + d) t
      | None => acc
      end
  end.

Definition startsWithDigit (s : jsstring) : bool :=
  match s with
  | c :: _ => match digitVal c with Some _ => true | None => false end
  | [] => false
  end.

(** [parseInt(s, 10)]: leading white space, an optional sign, then the longest
    run of decimal digits; NaN when there is no digit. *)
Definition parseInt (s : jsstring) : number :=
  match trimLeft s with
  | [] => NaN
  | c :: t =>
      if (c =? 45)%N then
        if startsWithDigit t then Some (- parseDigits 0 t)%Z else NaN
      else if (c =? 43)%N then
        if startsWithDigit t then Some (parseDigits 0 t) else NaN
      else if startsWithDigit (c :: t) then Some (parseDigits 0 (c :: t))
      else NaN
  end.

(** Number to string, as in a template literal. *)
Definition toString (n : number) : jsstring :=
  match n with
  | Some z => lit (DecimalString.NilZero.string_of_int (Z.to_int z))
  | None => lit "NaN"
  end.

(** ** Exceptions

    A function that may throw returns [Err] with the message; nothing of the
    interrupted computation survives. *)
Inductive Result (A : Type) : Type :=
| Ok (a : A)
| Err (message : jsstring).
Arguments Ok {A} a.
Arguments Err {A} message.

Definition bind {A B : Type} (r : Result A) (k : A -> Result B) : Result B :=
  match r with
  | Ok a => k a
  | Err m => Err m
  end.

(** [xs.forEach(f)] threading a state through a callback that may throw. *)
Fixpoint forEach {A S : Type} (f : S -> A -> Result S) (xs : list A) (s : S)
  : Result S :=
  match xs with
  | [] => Ok s
  | x :: rest => bind (f s x) (forEach f rest)
  end.

Definition isOk {A : Type} (r : Result A) : bool :=
  match r with Ok _ => true | Err _ => false end.

End JS.

Import JS.
Notation "x <- r ;; k" := (bind r (fun x => k))
  (at level 61, r at next level, right associativity).

(* ------------------------------------------------------------------ *)
(** ** The node shape ([tree-adapter.ts], [node.ts], [converters.ts])  *)
(* ------------------------------------------------------------------ *)

Module Dom.

(** The filters of the rule table that are functions.  JavaScript compares
    them by identity ([filter === fallback]), so each one gets a name. *)
Inductive FilterFn : Type :=
| parentUsesFallback   (* entry 0: the parent resolved to the catch-all *)
| plainImage           (* img without custom attributes *)
| checkboxInListItem   (* type 'checkbox' below an li *)
| highlightDiv         (* div with a code-highlight class name *)
| fallback.            (* const fallback = () => true *)

(** [ConverterFilter]: a tag name, a list of tag names or a function.
    [FilterOther] is any other run-time value, which the type excludes but
    [canConvert] still tests for. *)
Inductive ConverterFilter : Type :=
| FilterString (tag : jsstring)
| FilterArray (tags : list jsstring)
| FilterFunction (f : FilterFn)
| FilterOther.

(** The text producers of the rule table, one per entry, in table order. *)
Inductive Producer : Type :=
| P_indented | P_p | P_cell | P_rowgroup | P_del | P_em | P_strong | P_br
| P_a | P_img | P_checkbox | P_table | P_pre | P_code | P_highlight
| P_heading | P_hr | P_blockquote | P_li | P_list | P_comment | P_fallback.

Record Converter : Type := {
  filter : ConverterFilter;
  surroundingBlankLines : bool;           (* absent counts as false *)
  trailingWhitespace : option jsstring;
  replacement : Producer
}.

Record Whitespace : Type := { leading : jsstring; trailing : jsstring }.

Record Link : Type := { url : jsstring; title : option jsstring; name : jsstring }.

(** An htmlparser2 node together with the conversion annotation of
    [ConverterNode].  [attribs] is present exactly on elements and
    [childNodes] exactly on parent nodes; [parentNode] is the view of the
    parent the node was reached from. *)
Inductive Node : Type := mkNode {
  type : jsstring;
  tagName : jsstring;
  attribs : option (list (jsstring * jsstring));
  childNodes : option (list Node);
  data : jsstring;
  checked : bool;                          (* truthiness of node['checked'] *)
  className : option jsstring;             (* node['className'] *)
  parentNode : option Node;
  _converter : option Converter;
  _replacement : jsstring;
  _whitespace : option Whitespace
}.

Definition isElementNode (node : Node) : bool :=
  match attribs node with Some _ => true | None => false end.
Definition isTextNode (node : Node) : bool := streq (type node) (lit "text").
Definition isCommentNode (node : Node) : bool := streq (type node) (lit "comment").
Definition getTextNodeContent (node : Node) : jsstring := data node.
Definition getAttrList (node : Node) : list (jsstring * jsstring) :=
  match attribs node with Some l => l | None => [] end.

(** [isConverterNode]: the node owns a [_converter] property. *)
Definition isConverterNode (val : option Node) : bool :=
  match val with
  | Some node => match _converter node with Some _ => true | None => false end
  | None => false
  end.

(** Plain nodes as the parser builds them: an element, a text node. *)
Definition element (tag : jsstring) (attrs : list (jsstring * jsstring))
    (children : list Node) : Node :=
  mkNode (lit "tag") tag (Some attrs) (Some children) [] false None None None [] None.

Definition textNode (content : jsstring) : Node :=
  mkNode (lit "text") [] None None content false None None None [] None.

(** The number of nodes of a subtree, children only. *)
Fixpoint size (node : Node) : nat :=
  S (match childNodes node with
     | Some children =>
         (fix sizes (l : list Node) : nat :=
            match l with
            | [] => O
            | c :: rest => (size c + sizes rest)%nat
            end) children
     | None => O
     end).

End Dom.

Import Dom.

(* ------------------------------------------------------------------ *)
(** ** [utils.ts]                                                      *)
(* ------------------------------------------------------------------ *)

Module Utils.

Definition isElement (val : option Node) : bool :=
  match val with Some node => isElementNode node | None => false end.

Definition isParentNode (val : option Node) : bool :=
  match val with
  | Some node => match childNodes node with Some _ => true | None => false end
  | None => false
  end.

(** [getAttribute]: the first attribute of that name; an empty value counts
    as absent ([|| null]). *)
Definition getAttribute (node : Node) (attribute : jsstring) : option jsstring :=
  match find (fun attr => streq (fst attr) attribute) (getAttrList node) with
  | Some (_, []) => None
  | Some (_, value) => Some value
  | None => None
  end.

Definition noExtraAttributes (node : Node) (attributes : list jsstring) : bool :=
  match find (fun attr => negb (existsb (streq (fst attr)) attributes))
             (getAttrList node) with
  | Some _ => false
  | None => true
  end.

(** [isElement(node) && node.tagName === tag]. *)
Definition isElementNamed (val : option Node) (tag : jsstring) : bool :=
  match val with
  | Some node => isElementNode node && streq (tagName node) tag
  | None => false
  end.

(** [text.replace(/\s+/g, ' ')]; [inRun] tells that the previous character
    was white space already. *)
Fixpoint collapseWhiteSpace (inRun : bool) (text : jsstring) : jsstring :=
  match text with
  | [] => []
  | c :: rest =>
      if isWhiteSpace c
      then if inRun then collapseWhiteSpace true rest
           else 32%N :: collapseWhiteSpace true rest
      else c :: collapseWhiteSpace false rest
  end.

Section CleanText.
(** The entity decoder of the html-entities package. *)
Variable decodeHtmlEntities : jsstring -> jsstring.

Definition cleanText (node : Node) : Result jsstring :=
  match parentNode node with
  | None => Err (lit "TypeError: Cannot read property 'parentNode' of undefined")
  | Some parent =>
      let text := decodeHtmlEntities (getTextNodeContent node) in
      let text :=
        if negb (isElementNamed (Some parent) (lit "pre")
                 || isElementNamed (parentNode parent) (lit "pre"))
        then collapseWhiteSpace false text
        else text in
      if isElementNode parent
         && existsb (streq (tagName parent)) [lit "code"; lit "pre"]
      then Ok text
      else
        Ok (replaceAllChar 8230%N (lit "...")
             (replaceAllChar 8221%N [34%N]
               (replaceAllChar 8220%N [34%N]
                 (replaceAllChar 8217%N [39%N]
                   (replaceAllChar 8216%N [39%N]
                     (replaceAllChar 8212%N (lit "--") text))))))
  end.
End CleanText.

End Utils.

Import Utils.

(* ------------------------------------------------------------------ *)
(** ** [tables.ts]                                                     *)
(* ------------------------------------------------------------------ *)

Module Tables.

(** ['left' | 'center' | 'right']; a column without alignment is [null],
    here [None]. *)
Inductive Alignment : Type := AlignLeft | AlignCenter | AlignRight.

Definition alignment_eq (a b : option Alignment) : bool :=
  match a, b with
  | None, None => true
  | Some AlignLeft, Some AlignLeft => true
  | Some AlignCenter, Some AlignCenter => true
  | Some AlignRight, Some AlignRight => true
  | _, _ => false
  end.

(** The values [pad] receives for [text] and [length]: a string, a number,
    or [undefined] (an index past the end of [columnWidths]). *)
Inductive Value : Type :=
| VString (s : jsstring)
| VNumber (n : number)
| VUndefined.

(** Conversion to a number, as done by the subtraction in [pad].  For a
    string only decimal integer literals are covered. *)
Definition toNumber (v : Value) : number :=
  match v with
  | VNumber n => n
  | VUndefined => NaN
  | VString s =>
      match trim s with
      | [] => Some 0%Z
      | t => if forallb (fun c => startsWithDigit [c]) t then parseInt t else NaN
      end
  end.

(** [char.repeat(count)]: NaN counts as 0, a negative count throws. *)
Definition repeatString (c : char) (count : number) : Result jsstring :=
  match count with
  | None => Ok []
  | Some z =>
      if (z <? 0)%Z then Err (lit "RangeError: Invalid count value")
      else Ok (repeatChar c (Z.to_nat z))
  end.

(** [columnWidths[i]]. *)
Definition widthAt (columnWidths : list Z) (i : nat) : Value :=
  match nth_error columnWidths i with
  | Some w => VNumber (Some w)
  | None => VUndefined
  end.

(** [alignments[i]], where [undefined] and [null] both select the default
    branch of the switch. *)
Definition alignmentAt (alignments : list (option Alignment)) (i : nat)
  : option Alignment :=
  match nth_error alignments i with
  | Some a => a
  | None => None
  end.

(** [columns.join(' | ')], with a leading pipe for a single column. *)
Definition joinColumns (columns : list jsstring) : jsstring :=
  if (1 <? length columns)%nat then join (lit " | ") columns
  else lit "| " ++ match columns with
                   | c :: _ => c
                   | [] => lit "undefined"
                   end.

(** [row.map((column, i) => ...)] with a callback that may throw. *)
Fixpoint mapIndexed {A B : Type} (f : A -> nat -> Result B) (i : nat) (l : list A)
  : Result (list B) :=
  match l with
  | [] => Ok []
  | x :: rest =>
      y <- f x i ;;
      ys <- mapIndexed f (S i) rest ;;
      Ok (y :: ys)
  end.

(** The first match of [/text-align:\s*(right|left|center)/]. *)
Definition alignmentKeyword (s : jsstring) : option Alignment :=
  if startsWith (lit "right") s then Some AlignRight
  else if startsWith (lit "left") s then Some AlignLeft
  else if startsWith (lit "center") s then Some AlignCenter
  else None.

Fixpoint matchTextAlign (style : jsstring) : option Alignment :=
  match (if startsWith (lit "text-align:") style
         then alignmentKeyword (trimLeft (skipn 11 style))
         else None) with
  | Some a => Some a
  | None =>
      match style with
      | [] => None
      | _ :: rest => matchTextAlign rest
      end
  end.

Definition getCellAlignment (node : Node) : option Alignment :=
  match getAttribute node (lit "style") with
  | Some style => matchTextAlign style
  | None => None
  end.

Definition extractColumns (row : Node)
  : Result (list jsstring * list (option Alignment)) :=
  match childNodes row with
  | None => Ok ([], [])
  | Some children =>
      forEach
        (fun '(columns, alignments) column =>
           if isElementNode column
              && existsb (streq (tagName column)) [lit "th"; lit "td"]
              && isConverterNode (Some column)
           then Ok (columns ++ [_replacement column],
                    alignments ++ [getCellAlignment column])
           else if isTextNode column
           then Err (lit "Cannot handle "
                     ++ (if isElementNode column then tagName column else lit "false")
                     ++ lit " in table row")
           else Ok (columns, alignments))
        children ([], [])
  end.

(** The alignment loop of [extractRows], from column [i] on. *)
Fixpoint mergeAlignments (i : nat) (rowAlignments : list (option Alignment))
    (alignments : list (option Alignment)) : Result (list (option Alignment)) :=
  match rowAlignments with
  | [] => Ok alignments
  | alignment :: rest =>
      let alignments :=
        if (length alignments <? i + 1)%nat then alignments ++ [alignment]
        else alignments in
      match nth_error alignments i with
      | Some known =>
          if alignment_eq alignment known
          then mergeAlignments (S i) rest alignments
          else Err (lit "Alignment in a table column "
                    ++ toString (Some (Z.of_nat i)) ++ lit " is not consistent")
      | None =>
          Err (lit "Alignment in a table column "
               ++ toString (Some (Z.of_nat i)) ++ lit " is not consistent")
      end
  end.

Definition TableState : Type := (list (option Alignment) * list (list jsstring))%type.

(** What [extractRows] does with a [tr] child. *)
Definition addRow (st : TableState) (child : Node) : Result TableState :=
  row <- extractColumns child ;;
  alignments <- mergeAlignments 0 (snd row) (fst st) ;;
  Ok (alignments, snd st ++ [fst row]).

(** The callback of [elem.childNodes.forEach] in [extractRows]. *)
Definition visitChild (acc : TableState * list Node) (child : Node)
  : Result (TableState * list Node) :=
  if isElementNode child && streq (tagName child) (lit "tr")
  then st <- addRow (fst acc) child ;; Ok (st, snd acc)
  else if isElementNode child then Ok (fst acc, snd acc ++ [child])
  else Ok acc.

(** The [while (inqueue.length > 0)] loop; [None] is "out of fuel". *)
Fixpoint extractRows_loop (fuel : nat) (inqueue : list Node) (st : TableState)
  : option (Result TableState) :=
  match inqueue with
  | [] => Some (Ok st)
  | elem :: queue =>
      match fuel with
      | O => None
      | S fuel' =>
          match (match childNodes elem with
                 | Some children => forEach visitChild children (st, queue)
                 | None => Ok (st, queue)
                 end) with
          | Err m => Some (Err m)
          | Ok (st', queue') => extractRows_loop fuel' queue' st'
          end
      end
  end.

(** The final [while] of [extractRows]: at most [n] trailing [null]s are
    popped, the list being given last element first. *)
Fixpoint popNulls (n : nat) (reversed : list (option Alignment))
  : list (option Alignment) :=
  match n, reversed with
  | S n', None :: rest => popNulls n' rest
  | _, _ => reversed
  end.

Definition dropTrailingNulls (alignments : list (option Alignment)) (header : nat)
  : list (option Alignment) :=
  rev (popNulls (length alignments - header) (rev alignments)).

(** [extractRows]; the queue loop visits every node below [node] at most
    once, so [size node] iterations are enough. *)
Definition extractRows (node : Node) : Result TableState :=
  match extractRows_loop (size node) [node] ([], []) with
  | None => Err (lit "unreachable: out of fuel")
  | Some (Err m) => Err m
  | Some (Ok (alignments, rows)) =>
      match rows with
      | [] => Err (lit "TypeError: Cannot read property 'length' of undefined")
      | header :: _ => Ok (dropTrailingNulls alignments (length header), rows)
      end
  end.

Section Layout.
(** The display width function of the wcwidth package. *)
Variable wcwidth : jsstring -> Z.

Definition pad (text length : Value) (c : char) : Result jsstring :=
  let invert := match text with VNumber _ => true | _ => false end in
  let '(length, text) := if invert then (text, length) else (length, text) in
  match (match text with
         | VString s => Some s
         | VNumber n => Some (toString n)
         | VUndefined => None
         end) with
  | None => Err (lit "TypeError: Cannot read property 'toString' of undefined")
  | Some text =>
      let padlength := sub (toNumber length) (Some (wcwidth text)) in
      res <- repeatString c padlength ;;
      Ok (if invert then res ++ text else text ++ res)
  end.

Definition floorHalf (n : number) : number :=
  match n with Some z => Some (z / 2)%Z | None => None end.
Definition ceilHalf (n : number) : number :=
  match n with Some z => Some (- ((- z) / 2))%Z | None => None end.

(** The callback of [row.map] in [formatRow]. *)
Definition formatCell (alignments : list (option Alignment))
    (columnWidths : list Z) (column : jsstring) (i : nat) : Result jsstring :=
  let len := Some (Z.of_nat (length column)) in
  match alignmentAt alignments i with
  | Some AlignRight => pad (widthAt columnWidths i) (VString column) 32%N
  | Some AlignCenter =>
      let whitespace := sub (toNumber (widthAt columnWidths i)) len in
      leftPadded <- pad (VNumber (add (floorHalf whitespace) len))
                        (VString column) 32%N ;;
      pad (VString leftPadded)
          (VNumber (add (ceilHalf whitespace)
                        (Some (Z.of_nat (length leftPadded))))) 32%N
  | _ => pad (VString column) (widthAt columnWidths i) 32%N
  end.

Definition formatRow (row : list jsstring) (alignments : list (option Alignment))
    (columnWidths : list Z) : Result jsstring :=
  cells <- mapIndexed (formatCell alignments columnWidths) 0 row ;;
  Ok (trimRight (joinColumns cells)).

Definition formatHeaderSeparator (alignments : list (option Alignment))
    (columnWidths : list Z) : Result jsstring :=
  columns <- mapIndexed
    (fun alignment i =>
       let w := toNumber (widthAt columnWidths i) in
       match alignment with
       | Some AlignCenter =>
           dashes <- pad (VString []) (VNumber (sub w (Some 2%Z))) 45%N ;;
           Ok (lit ":" ++ dashes ++ lit ":")
       | Some AlignLeft =>
           dashes <- pad (VString []) (VNumber (sub w (Some 1%Z))) 45%N ;;
           Ok (lit ":" ++ dashes)
       | Some AlignRight =>
           dashes <- pad (VString []) (VNumber (sub w (Some 1%Z))) 45%N ;;
           Ok (dashes ++ lit ":")
       | None => pad (VString []) (VNumber w) 45%N
       end) 0 alignments ;;
  Ok (joinColumns columns).

(** The inner [row.forEach] of [getColumnWidths]: only the columns that
    exist in both [columnWidths] and [row] are touched. *)
Fixpoint widen (columnWidths : list Z) (row : list jsstring) : list Z :=
  match columnWidths, row with
  | w :: ws, column :: rest => Z.max (wcwidth column) w :: widen ws rest
  | _, _ => columnWidths
  end.

Definition getColumnWidths (rows : list (list jsstring)) : Result (list Z) :=
  match rows with
  | [] => Err (lit "TypeError: Cannot read property 'map' of undefined")
  | header :: _ =>
      Ok (fold_left widen rows (map (fun cell => Z.of_nat (length cell)) header))
  end.

(** The producer of the [table] rule. *)
Definition tableReplacement (node : Node) : Result jsstring :=
  extracted <- extractRows node ;;
  let '(alignments, rows) := extracted in
  columnWidths <- getColumnWidths rows ;;
  head <- formatRow (hd [] rows) alignments columnWidths ;;
  separator <- formatHeaderSeparator alignments columnWidths ;;
  body <- mapIndexed (fun row _ => formatRow row alignments columnWidths) 0 (tl rows) ;;
  Ok (join [10%N] (head :: separator :: body)).
End Layout.

End Tables.

Import Tables.

(* ------------------------------------------------------------------ *)
(** ** [converters.ts]                                                 *)
(* ------------------------------------------------------------------ *)

Module Converters.

(** [prefix] followed by one [\S]. *)
Definition prefixThenNonSpace (prefix s : jsstring) : bool :=
  startsWith prefix s
  && match skipn (length prefix) s with
     | c :: _ => negb (isWhiteSpace c)
     | [] => false
     end.

(** [CODE_HIGHLIGHT_REGEX.test(s)] for
    [/(?:highlight highlight|lang(?:uage)?)-(\S+)/]. *)
Fixpoint CODE_HIGHLIGHT_REGEX_test (s : jsstring) : bool :=
  prefixThenNonSpace (lit "highlight highlight-") s
  || prefixThenNonSpace (lit "lang-") s
  || prefixThenNonSpace (lit "language-") s
  || match s with
     | [] => false
     | _ :: rest => CODE_HIGHLIGHT_REGEX_test rest
     end.

(** A regular expression [.]: any character but a line terminator. *)
Definition dot (c : char) : bool := negb (isLineTerminator c).

(** [(?:@|:\/).] at the start of [s]. *)
Definition separatorThenDot (s : jsstring) : bool :=
  match s with
  | c1 :: c2 :: rest =>
      ((c1 =? 64)%N && dot c2)
      || ((c1 =? 58)%N && (c2 =? 47)%N
          && match rest with c3 :: _ => dot c3 | [] => false end)
  | _ => false
  end.

(** [isValidLink]: [/.+(?:@|:\/).+/.test(link)]. *)
Fixpoint isValidLink (link : jsstring) : bool :=
  match link with
  | [] => false
  | c :: rest => (dot c && separatorThenDot rest) || isValidLink rest
  end.

(** [const fallback = () => true] and the anonymous filter functions. *)
Definition isFallback (f : ConverterFilter) : bool :=
  match f with
  | FilterFunction fallback => true
  | _ => false
  end.

Definition applyFilterFn (f : FilterFn) (node : Node) : bool :=
  match f with
  | parentUsesFallback =>
      isConverterNode (parentNode node)
      && match parentNode node with
         | Some parent =>
             match _converter parent with
             | Some converter => isFallback (filter converter)
             | None => false
             end
         | None => false
         end
  | plainImage =>
      isElement (Some node) && streq (tagName node) (lit "img")
      && noExtraAttributes node [lit "alt"; lit "src"; lit "title"]
  | checkboxInListItem =>
      streq (type node) (lit "checkbox")
      && isElement (parentNode node)
      && match parentNode node with
         | Some parent => streq (tagName parent) (lit "li")
         | None => false
         end
  | highlightDiv =>
      isElement (Some node) && streq (tagName node) (lit "div")
      && CODE_HIGHLIGHT_REGEX_test
           (match className node with Some c => c | None => lit "undefined" end)
  | fallback => true
  end.

(** The rule table, in declaration order. *)
Definition rule (f : ConverterFilter) (blank : bool) (trailing : option jsstring)
    (p : Producer) : Converter :=
  {| filter := f; surroundingBlankLines := blank;
     trailingWhitespace := trailing; replacement := p |}.

Definition Converters : list Converter :=
  [ rule (FilterFunction parentUsesFallback) false None P_indented;
    rule (FilterString (lit "p")) true None P_p;
    rule (FilterArray [lit "td"; lit "th"]) false None P_cell;
    rule (FilterArray [lit "tbody"; lit "thead"; lit "tr"]) false None P_rowgroup;
    rule (FilterArray [lit "del"; lit "s"; lit "strike"]) false None P_del;
    rule (FilterArray [lit "em"; lit "i"]) false None P_em;
    rule (FilterArray [lit "strong"; lit "b"]) false None P_strong;
    rule (FilterString (lit "br")) false (Some [10%N]) P_br;
    rule (FilterString (lit "a")) false None P_a;
    rule (FilterFunction plainImage) false None P_img;
    rule (FilterFunction checkboxInListItem) false None P_checkbox;
    rule (FilterString (lit "table")) true None P_table;
    rule (FilterString (lit "pre")) true None P_pre;
    rule (FilterString (lit "code")) false None P_code;
    rule (FilterFunction highlightDiv) true None P_highlight;
    rule (FilterArray [lit "h1"; lit "h2"; lit "h3"; lit "h4"; lit "h5"; lit "h6"])
         true None P_heading;
    rule (FilterString (lit "hr")) true None P_hr;
    rule (FilterString (lit "blockquote")) true None P_blockquote;
    rule (FilterString (lit "li")) false (Some [10%N]) P_li;
    rule (FilterArray [lit "ul"; lit "ol"]) true None P_list;
    rule (FilterString (lit "_comment")) false None P_comment;
    rule (FilterFunction fallback) true None P_fallback ].

(** *** The text producers *)

(** [em], [i]. *)
Definition replacement_em (content : jsstring) : jsstring :=
  if hasChar 95%N content
  then lit "*" ++ replaceAllChar 42%N (lit "\*") content ++ lit "*"
  else lit "_" ++ replaceAllChar 95%N (lit "\_") content ++ lit "_".

(** [strong], [b]. *)
Definition replacement_strong (content : jsstring) : jsstring :=
  lit "**" ++ replaceAllChar 42%N (lit "\*") content ++ lit "**".

(** [refUrl.replace(/^mailto:/, '')]. *)
Definition stripMailto (refUrl : jsstring) : jsstring :=
  if startsWith (lit "mailto:") refUrl then skipn 7 refUrl else refUrl.

(** The reference a link or image resolves to:
    [links.find(({ url, title }) => url == refUrl && title == refTitle)]. *)
Definition findReference (refUrl : jsstring) (refTitle : option jsstring)
    (links : list Link) : option Link :=
  find (fun l => streq (url l) refUrl && nullable_eq (title l) refTitle) links.

(** [checkbox]. *)
Definition replacement_checkbox (node : Node) : jsstring :=
  (if checked node then lit "[x]" else lit "[ ]") ++ lit " ".

(** [h1] .. [h6]. *)
Definition replacement_heading (content : jsstring) (node : Node) : Result jsstring :=
  if isElement (Some node)
  then
    hashes <- repeatString 35%N (parseInt (charAt 1 (tagName node))) ;;
    Ok (hashes ++ lit " " ++ content)
  else Err (lit "Expected Element").

Section Producers.
(** [String.prototype.toLowerCase]. *)
Variable toLowerCase : jsstring -> jsstring.
(** The display width function of the wcwidth package. *)
Variable wcwidth : jsstring -> Z.
(** [indent(text, prefix)] of the indent package. *)
Variable indent : jsstring -> jsstring -> jsstring.
(** The producers of [pre], [code], [li] and of the catch-all rule rest on
    [delimitCode], on the position of a node among its siblings and on the
    parse5 serializer; no property below depends on them. *)
Variable replacement_pre : jsstring -> Node -> Result jsstring.
Variable replacement_code : jsstring -> Node -> Result jsstring.
Variable replacement_li : jsstring -> Node -> Result jsstring.
Variable replacement_fallback : Node -> Result jsstring.

(** [a]. *)
Definition replacement_a (content : jsstring) (node : Node) (links : list Link)
  : jsstring :=
  let refUrl := match getAttribute node (lit "href") with
                | Some u => u
                | None => []
                end in
  let refTitle := getAttribute node (lit "title") in
  match findReference refUrl refTitle links with
  | Some referenceLink =>
      if streq (toLowerCase content) (name referenceLink)
      then lit "[" ++ content ++ lit "]"
      else lit "[" ++ content ++ lit "][" ++ name referenceLink ++ lit "]"
  | None =>
      match refTitle with
      | Some t =>
          lit "[" ++ content ++ lit "](" ++ refUrl ++ lit " " ++ [34%N] ++ t
              ++ [34%N] ++ lit ")"
      | None =>
          if isValidLink refUrl
             && (streq content refUrl || streq content (stripMailto refUrl))
          then lit "<" ++ content ++ lit ">"
          else lit "[" ++ content ++ lit "](" ++ refUrl ++ lit ")"
      end
  end.

(** [img] without custom attributes. *)
Definition replacement_img (node : Node) (links : list Link) : jsstring :=
  let alt := match getAttribute node (lit "alt") with
             | Some a => a
             | None => []
             end in
  let refUrl := match getAttribute node (lit "src") with
                | Some u => u
                | None => []
                end in
  let refTitle := getAttribute node (lit "title") in
  match findReference refUrl refTitle links with
  | Some referenceLink =>
      if streq (toLowerCase alt) (name referenceLink)
      then lit "![" ++ alt ++ lit "]"
      else lit "![" ++ alt ++ lit "][" ++ name referenceLink ++ lit "]"
  | None =>
      match refTitle with
      | Some t =>
          lit "![" ++ alt ++ lit "](" ++ refUrl ++ lit " " ++ [34%N] ++ t
               ++ [34%N] ++ lit ")"
      | None => lit "![" ++ alt ++ lit "](" ++ refUrl ++ lit ")"
      end
  end.

(** [converter.replacement(content, node, links)].  The first entry also
    re-indents the children of [node] in place; only the returned text is
    kept here. *)
Definition produce (p : Producer) (content : jsstring) (node : Node)
    (links : list Link) : Result jsstring :=
  match p with
  | P_indented => Ok []
  | P_p => Ok content
  | P_cell => Ok content
  | P_rowgroup => Ok []
  | P_del => Ok (lit "~~" ++ content ++ lit "~~")
  | P_em => Ok (replacement_em content)
  | P_strong => Ok (replacement_strong content)
  | P_br => Ok (lit "<br>")
  | P_a => Ok (replacement_a content node links)
  | P_img => Ok (replacement_img node links)
  | P_checkbox => Ok (replacement_checkbox node)
  | P_table => tableReplacement wcwidth node
  | P_pre => replacement_pre content node
  | P_code => replacement_code content node
  | P_highlight => Ok content
  | P_heading => replacement_heading content node
  | P_hr => Ok (repeatChar 45%N 80)
  | P_blockquote => Ok (indent content (lit "> "))
  | P_li => replacement_li content node
  | P_list => Ok content
  | P_comment => Ok (lit "<!-- " ++ content ++ lit " -->")
  | P_fallback => replacement_fallback node
  end.
End Producers.

End Converters.

Import Converters.

(* ------------------------------------------------------------------ *)
(** ** [index.ts]                                                      *)
(* ------------------------------------------------------------------ *)

Module Index.

(** *** [fixHeaders] *)

(** [/h[0-6]/.test(tagName)]: the pattern is not anchored. *)
Fixpoint isHeaderTag (tag : jsstring) : bool :=
  match tag with
  | [] => false
  | c :: rest =>
      ((c =? 104)%N
       && match rest with
          | d :: _ => ((48 <=? d) && (d <=? 54))%N
          | [] => false
          end)
      || isHeaderTag rest
  end.

(** [parseInt(tagName.charAt(1), 10)]. *)
Definition headerDepthOf (tag : jsstring) : number := parseInt (charAt 1 tag).

(** The inner [for (let e = i; ...)] loop over the headers from [i] on:
    every header at least as deep as the offending one is moved by [gap],
    up to the first one that is not. *)
Fixpoint shiftRun (headerDepth gap : number) (headers : list jsstring)
  : list jsstring :=
  match headers with
  | [] => []
  | tag :: rest =>
      let childHeaderDepth := headerDepthOf tag in
      if ge childHeaderDepth headerDepth
      then (lit "h" ++ toString (sub childHeaderDepth gap))
             :: shiftRun headerDepth gap rest
      else headers
  end.

(** The [while (i < topLevelHeaders.length)] loop on the tag names of the
    collected headers; [None] is "out of fuel". *)
Fixpoint fixHeaders_loop (fuel : nat) (rootDepth : number) (i : nat)
    (lastHeaderDepth : number) (headers : list jsstring)
  : option (list jsstring) :=
  match nth_error headers i with
  | None => Some headers
  | Some tag =>
      match fuel with
      | O => None
      | S fuel' =>
          let headerDepth := headerDepthOf tag in
          if le rootDepth headerDepth
             && le headerDepth (add lastHeaderDepth (Some 1%Z))
          then fixHeaders_loop fuel' rootDepth (S i) headerDepth headers
          else
            let gap :=
              if le headerDepth rootDepth
              then sub headerDepth rootDepth
              else sub headerDepth (add lastHeaderDepth (Some 1%Z)) in
            fixHeaders_loop fuel' rootDepth i lastHeaderDepth
              (firstn i headers ++ shiftRun headerDepth gap (skipn i headers))
      end
  end.

(** The depth the scan starts from. *)
Definition initialDepth (ensureFirstHeaderIsH1 : bool) (headers : list jsstring)
  : number :=
  if ensureFirstHeaderIsH1 then Some 0%Z
  else match headers with
       | first :: _ => orZero (sub (headerDepthOf first) (Some 1%Z))
       | [] => Some 0%Z
       end.

(** [fixHeaders] on the tag names of [topLevelHeaders]. *)
Definition fixHeaderTags (fuel : nat) (headers : list jsstring)
    (ensureFirstHeaderIsH1 : bool) : option (list jsstring) :=
  match headers with
  | [] => Some []
  | _ :: _ =>
      let lastHeaderDepth := initialDepth ensureFirstHeaderIsH1 headers in
      let rootDepth := add lastHeaderDepth (Some 1%Z) in
      fixHeaders_loop fuel rootDepth 0 lastHeaderDepth headers
  end.

Definition isTopLevelHeader (child : Node) : bool :=
  isElement (Some child) && isHeaderTag (tagName child).

Definition topLevelHeaders (dom : Node) : list Node :=
  match childNodes dom with
  | Some children => List.filter isTopLevelHeader children
  | None => []
  end.

Definition withTagName (node : Node) (tag : jsstring) : Node :=
  mkNode (type node) tag (attribs node) (childNodes node) (data node)
         (checked node) (className node) (parentNode node) (_converter node)
         (_replacement node) (_whitespace node).

Definition withChildNodes (node : Node) (children : list Node) : Node :=
  mkNode (type node) (tagName node) (attribs node) (Some children) (data node)
         (checked node) (className node) (parentNode node) (_converter node)
         (_replacement node) (_whitespace node).

(** The assignments to [tagName] reach the children of [dom]: the collected
    headers are those very objects. *)
Fixpoint renameHeaders (children : list Node) (tags : list jsstring) : list Node :=
  match children with
  | [] => []
  | child :: rest =>
      if isTopLevelHeader child
      then match tags with
           | tag :: tags' => withTagName child tag :: renameHeaders rest tags'
           | [] => children
           end
      else child :: renameHeaders rest tags
  end.

Definition fixHeaders (fuel : nat) (dom : Node) (ensureFirstHeaderIsH1 : bool)
  : option Node :=
  match fixHeaderTags fuel (map tagName (topLevelHeaders dom)) ensureFirstHeaderIsH1 with
  | None => None
  | Some tags =>
      match childNodes dom with
      | Some children => Some (withChildNodes dom (renameHeaders children tags))
      | None => Some dom
      end
  end.

(** *** [getContent] *)

(** The length of the run of newlines at the start of [s]. *)
Fixpoint newlineRun (s : jsstring) : nat :=
  match s with
  | [] => O
  | c :: rest => if (c =? 10)%N then S (newlineRun rest) else O
  end.

(** [s.replace(/\n{3,}/, '\n\n')]: the pattern has no [g] flag, so only the
    first run of three or more newlines is replaced. *)
Fixpoint collapseNewlines (s : jsstring) : jsstring :=
  match s with
  | [] => []
  | c :: rest =>
      if (3 <=? newlineRun s)%nat
      then 10%N :: 10%N :: skipn (newlineRun s) s
      else c :: collapseNewlines rest
  end.

(** [isConverterNode(n) && n._whitespace?.leading || ''], and the same for
    [trailing]. *)
Definition leadingOf (node : Node) : jsstring :=
  if isConverterNode (Some node)
  then match _whitespace node with Some w => leading w | None => [] end
  else [].
Definition trailingOf (node : Node) : jsstring :=
  if isConverterNode (Some node)
  then match _whitespace node with Some w => trailing w | None => [] end
  else [].

(** The text inserted between [previousSibling] and [child]. *)
Definition whitespaceBetween (previousSibling child : Node) : jsstring :=
  collapseNewlines (leadingOf child ++ trailingOf previousSibling).

Section Content.
Variable decodeHtmlEntities : jsstring -> jsstring.

Definition getChildText (child : Node) : Result jsstring :=
  if isConverterNode (Some child) then Ok (_replacement child)
  else if isTextNode child then cleanText decodeHtmlEntities child
  else Err (lit "Unsupported node type: " ++ type child).

(** The callback of [node.childNodes.forEach] in [getContent]; the state is
    [content] and [previousSibling]. *)
Definition appendChild (acc : jsstring * option Node) (child : Node)
  : Result (jsstring * option Node) :=
  let '(content, previousSibling) := acc in
  childText <- getChildText child ;;
  let content :=
    if isElementNamed (Some child) (lit "br") then trimRight content
    else content in
  let childText :=
    if isElementNamed previousSibling (lit "br") then trimLeft childText
    else childText in
  let content :=
    match previousSibling with
    | Some previous => content ++ whitespaceBetween previous child
    | None => content
    end in
  Ok (content ++ childText, Some child).

Definition getContent (node : Node) : Result jsstring :=
  if isTextNode node then Ok (getTextNodeContent node)
  else
    match childNodes node with
    | Some children =>
        acc <- forEach appendChild children ([], None) ;;
        Ok (fst acc)
    | None => Ok []
    end.
End Content.

(** *** [canConvert], [findConverter] *)

Definition canConvert (node : Node) (f : ConverterFilter) : Result bool :=
  match f with
  | FilterString tag => Ok (isElement (Some node) && streq tag (tagName node))
  | FilterArray tags =>
      Ok (isElement (Some node) && existsb (fun t => streq t (tagName node)) tags)
  | FilterFunction fn => Ok (applyFilterFn fn node)
  | FilterOther => Err (lit "`filter` needs to be a string, array, or function")
  end.

(** [converters.find(converter => canConvert(node, converter.filter))]. *)
Fixpoint findIn (converters : list Converter) (node : Node)
  : Result (option Converter) :=
  match converters with
  | [] => Ok None
  | converter :: rest =>
      matches <- canConvert node (filter converter) ;;
      if matches then Ok (Some converter) else findIn rest node
  end.

Definition findConverter (node : Node) : Result (option Converter) :=
  findIn Converters node.

End Index.

Import Index.

(* ------------------------------------------------------------------ *)
(** ** Vocabulary of the properties                                    *)
(* ------------------------------------------------------------------ *)

Module Spec.

(** The heading constraint: every depth lies between [rootDepth] and one
    more than the depth accepted before it. *)
Fixpoint wellNested (rootDepth lastDepth : Z) (depths : list Z) : Prop :=
  match depths with
  | [] => True
  | d :: rest =>
      (rootDepth <= d <= lastDepth + 1)%Z /\ wellNested rootDepth d rest
  end.

(** A tag name whose second character is a decimal digit, as [h1] .. [h6]. *)
Definition numericTag (tag : jsstring) : Prop :=
  exists d, headerDepthOf tag = Some d /\ (0 <= d <= 9)%Z.

(** The tag name the repair writes for depth [d]: [`h${d}`]. *)
Definition writtenTag (d : Z) : jsstring := lit "h" ++ toString (Some d).

(** The depth [parseInt(tagName.charAt(1), 10)] reads from [writtenTag v]
    for [v] up to 18: only the first digit counts. *)
Definition readDepth (v : Z) : Z := if (v <=? 9)%Z then v else 1%Z.

(** The numbers that can stand in the tag names of the headers still to be
    scanned, when the scan started from headings h0 .. h6 with root depth
    [rootDepth]: a number of two digits is read as 1, and it only comes up
    when that is below the root depth. *)
Definition pendingDepths (rootDepth : Z) (values : list Z) : Prop :=
  Forall (fun v => 0 <= v <= 18)%Z values
  /\ ((rootDepth <= 1)%Z ->
      Forall (fun v => v <= 6)%Z values
      \/ Forall (fun v => rootDepth <= v <= 7)%Z values).

(** [s] with every [c] preceded by a backslash: [s.replace(/c/g, '\\c')]. *)
Definition escape (c : char) (s : jsstring) : jsstring :=
  replaceAllChar c [92%N; c] s.

(** Every occurrence of [c] in [s] comes right after a backslash; [prev] is
    the character before [s]. *)
Fixpoint everyEscaped (c : char) (prev : option char) (s : jsstring) : Prop :=
  match s with
  | [] => True
  | x :: rest => (x = c -> prev = Some 92%N) /\ everyEscaped c (Some x) rest
  end.

(** The choose-and-escape discipline of a producer: the [preferred]
    delimiter unless the content contains its character [p], in which case
    the [alternate] one; occurrences of the delimiter in use are escaped. *)
Definition choosesDelimiter (producer : jsstring -> jsstring)
    (preferred : jsstring) (p : char) (alternate : jsstring) (a : char) : Prop :=
  forall content,
    producer content
    = if hasChar p content
      then alternate ++ escape a content ++ alternate
      else preferred ++ escape p content ++ preferred.

(** The validity test of the autolink form as the specification words it:
    the URL contains an [@] or [://]. *)
Definition containsAtOrSchemeSeparator (link : jsstring) : bool :=
  includes (lit "@") link || includes (lit "://") link.

(** [s.replace(/\n{3,}/g, '\n\n')]: every run of three or more newlines
    becomes two; [run] counts the newlines right before [s]. *)
Fixpoint collapseEveryRun (run : nat) (s : jsstring) : jsstring :=
  match s with
  | [] => []
  | c :: rest =>
      if (c =? 10)%N
      then if (run <? 2)%nat then c :: collapseEveryRun (S run) rest
           else collapseEveryRun (S run) rest
      else c :: collapseEveryRun O rest
  end.

(** The separator as the specification words it: the previous sibling's
    trailing white space, then the child's leading white space. *)
Definition separatorAsSpecified (previousSibling child : Node) : jsstring :=
  collapseEveryRun O (trailingOf previousSibling ++ leadingOf child).

(** *** Stand-ins for the collaborators

    The engine is parametric in the library functions it calls.  To run it
    on concrete inputs they are instantiated as follows. *)

(** [toLowerCase] on the letters A-Z; other code units are kept. *)
Definition asciiLowerCase (s : jsstring) : jsstring :=
  map (fun c => if ((65 <=? c) && (c <=? 90))%N then (c + 32)%N else c) s.

(** Display width by code unit: control characters 0, the East Asian wide
    and full-width blocks 2, anything else 1. *)
Definition unitWidth (c : char) : Z :=
  if ((c <? 32) || (127 <=? c) && (c <? 160))%N then 0%Z
  else if ((4352 <=? c) && (c <=? 4447)
           || (11904 <=? c) && (c <=? 42191)
           || (44032 <=? c) && (c <=? 55203)
           || (63744 <=? c) && (c <=? 64255)
           || (65072 <=? c) && (c <=? 65135)
           || (65280 <=? c) && (c <=? 65376)
           || (65504 <=? c) && (c <=? 65510))%N then 2%Z
  else 1%Z.

Definition displayWidth (s : jsstring) : Z :=
  fold_right (fun c w => (unitWidth c + w)%Z) 0%Z s.

(** The producers left open by the rule table. *)
Definition notModelled (content : jsstring) (node : Node) : Result jsstring :=
  Err (lit "not modelled").

(** [produce] with the stand-ins. *)
Definition sampleProduce : Producer -> jsstring -> Node -> list Link -> Result jsstring :=
  produce asciiLowerCase displayWidth (fun text _ => text)
          notModelled notModelled notModelled (notModelled []).

(** An element node that already carries its rule. *)
Definition converted (tag : jsstring) (converter : Converter)
    (text : jsstring) (before after : jsstring) : Node :=
  mkNode (lit "tag") tag (Some []) (Some []) [] false None None (Some converter)
         text (Some {| leading := before; trailing := after |}).

Definition withParentNode (node parent : Node) : Node :=
  mkNode (type node) (tagName node) (attribs node) (childNodes node) (data node)
         (checked node) (className node) (Some parent) (_converter node)
         (_replacement node) (_whitespace node).

(** The [tr] elements below a table node, in the order in which the queue of
    [extractRows] reaches them. *)
Definition isRow (child : Node) : bool :=
  isElementNode child && streq (tagName child) (lit "tr").

Definition isContainer (child : Node) : bool :=
  negb (isRow child) && isElementNode child.

Definition childrenOf (node : Node) : list Node :=
  match childNodes node with Some children => children | None => [] end.

Fixpoint rowsInOrder (fuel : nat) (inqueue : list Node) : list Node :=
  match inqueue with
  | [] => []
  | elem :: queue =>
      match fuel with
      | O => []
      | S fuel' =>
          List.filter isRow (childrenOf elem)
            ++ rowsInOrder fuel' (queue ++ List.filter isContainer (childrenOf elem))
      end
  end.

Definition tableRows (table : Node) : list Node :=
  rowsInOrder (size table) [table].

(** The alignments of the cells of a row, when the row can be read. *)
Definition rowAlignments (row : Node) : option (list (option Alignment)) :=
  match extractColumns row with
  | Ok (_, alignments) => Some alignments
  | Err _ => None
  end.

Definition totalSize (nodes : list Node) : nat :=
  fold_right (fun node n => (size node + n)%nat) O nodes.

(** A table cell that has been converted already, with its style attribute. *)
Definition tableCell (style text : jsstring) : Node :=
  mkNode (lit "tag") (lit "td") (Some [(lit "style", style)]) (Some []) [] false None
         None (Some (rule (FilterArray [lit "td"; lit "th"]) false None P_cell))
         text (Some {| leading := []; trailing := [] |}).

End Spec.

Import Spec.

(* ------------------------------------------------------------------ *)
(** ** More of [utils.ts], [converters.ts] and [index.ts]               *)
(* ------------------------------------------------------------------ *)

Module Blocks.

Section BlockTags.
(** The tag names of [block-tags.json] and [void-tags.json]. *)
Variable blocks : list jsstring.
Variable voids : list jsstring.

(** [isBlock]: a [code] directly inside a [pre] counts as a block. *)
Definition isBlock (node : Node) : bool :=
  if isElement (Some node)
  then if streq (tagName node) (lit "code")
          && isElementNamed (parentNode node) (lit "pre")
       then true
       else existsb (streq (tagName node)) blocks
  else false.

Definition isVoid (node : Node) : bool :=
  isElement (Some node) && existsb (streq (tagName node)) voids.

(** [isBlock(sibling)] for a sibling that may be missing. *)
Definition isBlockSibling (sibling : option Node) : bool :=
  match sibling with
  | Some node => isBlock node
  | None => false
  end.

(** The callback of [filter] in [removeEmptyNodes]: a text node of white
    space only goes when it has no sibling on one side or a block next to
    it. *)
Definition isEmptyNode (previousSibling : option Node) (child : Node)
    (nextSibling : option Node) : bool :=
  isTextNode child
  && streq (trim (getTextNodeContent child)) []
  && (match previousSibling with None => true | Some _ => false end
      || match nextSibling with None => true | Some _ => false end
      || isBlockSibling previousSibling
      || isBlockSibling nextSibling).

(** The children that remain once the selected ones are detached.  The
    selection is complete before the first node is detached, so the siblings
    are those of the original list. *)
Fixpoint removeEmpty (previousSibling : option Node) (children : list Node)
  : list Node :=
  match children with
  | [] => []
  | child :: rest =>
      if isEmptyNode previousSibling child (hd_error rest)
      then removeEmpty (Some child) rest
      else child :: removeEmpty (Some child) rest
  end.

Definition removeEmptyNodes (node : Node) : Node :=
  match childNodes node with
  | Some children => withChildNodes node (removeEmpty None children)
  | None => node
  end.
End BlockTags.

End Blocks.

Import Blocks.

Module CodeSpans.

(** [delimiter] followed by a character that is not a backtick, or by the
    end of the string; the delimiter is a run of [ticks] backticks. *)
Definition ticksThenOther (ticks : nat) (s : jsstring) : bool :=
  startsWith (repeat 96%N ticks) s
  && match skipn ticks s with
     | c :: _ => negb (c =? 96)%N
     | [] => true
     end.

(** A character that is not a backtick, then the delimiter as above. *)
Fixpoint delimiterAfterOther (ticks : nat) (s : jsstring) : bool :=
  match s with
  | [] => false
  | c :: rest =>
      (negb (c =? 96)%N && ticksThenOther ticks rest)
      || delimiterAfterOther ticks rest
  end.

(** [new RegExp(`([^\`]|^)${delimiter}([^\`]|$)`).test(code)]. *)
Definition delimiterOccurs (ticks : nat) (code : jsstring) : bool :=
  ticksThenOther ticks code || delimiterAfterOther ticks code.

(** The [while] loop of [delimitCode]; [None] is "out of fuel". *)
Fixpoint growDelimiter (fuel : nat) (ticks : nat) (code : jsstring) : option nat :=
  if delimiterOccurs ticks code
  then match fuel with
       | O => None
       | S fuel' => growDelimiter fuel' (S ticks) code
       end
  else Some ticks.

(** The two [if]s of [delimitCode]: a space keeps a backtick of the code away
    from the delimiter. *)
Definition spaceOut (code : jsstring) : jsstring :=
  let code := match code with
              | c :: _ => if (c =? 96)%N then 32%N :: code else code
              | [] => code
              end in
  if (last code 0 =? 96)%N then code ++ [32%N] else code.

(** [delimitCode(code, delimiter)] for a delimiter of [ticks] backticks: both
    callers pass backticks only and the loop appends backticks. *)
Definition delimitCode (fuel : nat) (code : jsstring) (ticks : nat)
  : option jsstring :=
  match growDelimiter fuel ticks code with
  | Some n => Some (repeat 96%N n ++ spaceOut code ++ repeat 96%N n)
  | None => None
  end.

(** The longest run of characters other than white space at the start. *)
Fixpoint nonSpaceRun (s : jsstring) : jsstring :=
  match s with
  | [] => []
  | c :: rest => if isWhiteSpace c then [] else c :: nonSpaceRun rest
  end.

(** [prefix] followed by [(\S+)]: the captured group. *)
Definition captureAfter (prefix s : jsstring) : option jsstring :=
  if startsWith prefix s
  then match nonSpaceRun (skipn (length prefix) s) with
       | [] => None
       | group => Some group
       end
  else None.

(** [s.match(CODE_HIGHLIGHT_REGEX)?.[1]]: the group of the leftmost match. *)
Fixpoint CODE_HIGHLIGHT_REGEX_match (s : jsstring) : option jsstring :=
  match captureAfter (lit "highlight highlight-") s with
  | Some group => Some group
  | None =>
      match captureAfter (lit "language-") s with
      | Some group => Some group
      | None =>
          match captureAfter (lit "lang-") s with
          | Some group => Some group
          | None =>
              match s with
              | [] => None
              | _ :: rest => CODE_HIGHLIGHT_REGEX_match rest
              end
          end
      end
  end.

Definition classLanguage (node : option Node) : option jsstring :=
  match node with
  | Some n =>
      match getAttribute n (lit "class") with
      | Some class => CODE_HIGHLIGHT_REGEX_match class
      | None => None
      end
  | None => None
  end.

Section CodeProducers.
Variable toLowerCase : jsstring -> jsstring.
(** [languageCodeRewrite[language]] on the table of
    [language-code-rewrites.json]. *)
Variable languageCodeRewrite : jsstring -> option jsstring.

(** The language tag of a [pre]: from the class of a leading [code] child,
    else from the class of a [div] parent. *)
Definition detectLanguage (node : Node) : option jsstring :=
  let language :=
    match childNodes node with
    | Some (first :: _) =>
        if isElementNamed (Some first) (lit "code")
        then classLanguage (Some first)
        else None
    | _ => None
    end in
  match language with
  | Some l => Some l
  | None =>
      if isElementNamed (parentNode node) (lit "div")
      then classLanguage (parentNode node)
      else None
  end.

(** [language.toLowerCase()], then the rewrite when the table has one. *)
Definition canonicalLanguage (language : jsstring) : jsstring :=
  let language := toLowerCase language in
  match languageCodeRewrite language with
  | Some rewritten => rewritten
  | None => language
  end.

(** The producer of [pre]. *)
Definition replacement_pre (fuel : nat) (content : jsstring) (node : Node)
  : option jsstring :=
  let language := match detectLanguage node with
                  | Some l => canonicalLanguage l
                  | None => []
                  end in
  delimitCode fuel (language ++ [10%N] ++ content ++ [10%N]) 3.

(** The producer of [code]: inline code unless the parent is a [pre]. *)
Definition replacement_code (fuel : nat) (content : jsstring) (node : Node)
  : option jsstring :=
  if negb (isElementNamed (parentNode node) (lit "pre"))
  then delimitCode fuel content 1
  else Some content.
End CodeProducers.

End CodeSpans.

Import CodeSpans.

Module References.

(** One line of the reference block: [[name]: url "title"], the title only
    when there is one. *)
Definition linkDefinition (l : Link) : jsstring :=
  lit "[" ++ name l ++ lit "]: " ++ url l
    ++ match title l with
       | Some (c :: t) => lit " " ++ [34%N] ++ c :: t ++ [34%N]
       | _ => []
       end
    ++ [10%N].

(** What the conversion appends after the body: a blank line and the
    definitions, when there are links. *)
Definition referenceBlock (links : list Link) : jsstring :=
  (if (0 <? length links)%nat then [10%N] else [])
    ++ concat (map linkDefinition links).

End References.

Import References.

Module Vocabulary.

(** Text in which white space occurs only as single spaces; [afterSpace]
    tells that the character before [s] was white space. *)
Fixpoint singleSpaced (afterSpace : bool) (s : jsstring) : Prop :=
  match s with
  | [] => True
  | c :: rest =>
      if isWhiteSpace c
      then c = 32%N /\ afterSpace = false /\ singleSpaced true rest
      else singleSpaced false rest
  end.

(** The typographic characters [cleanText] replaces: em dash, single and
    double curly quotes, ellipsis. *)
Definition smartPunctuation : list char :=
  [8212%N; 8216%N; 8217%N; 8220%N; 8221%N; 8230%N].

(** [xs] is [ys] with some elements left out, the order kept. *)
Inductive keptFrom {A : Type} : list A -> list A -> Prop :=
| kept_nil : keptFrom [] []
| kept_keep x xs ys : keptFrom xs ys -> keptFrom (x :: xs) (x :: ys)
| kept_drop y xs ys : keptFrom xs ys -> keptFrom xs (y :: ys).

(** A text node made of white space only. *)
Definition blankText (node : Node) : bool :=
  isTextNode node && streq (trim (getTextNodeContent node)) [].

(** A child of a parent, with the view of that parent. *)
Definition textUnder (parent : Node) (content : jsstring) : Node :=
  withParentNode (textNode content) parent.

End Vocabulary.

Import Vocabulary.

(* ================================================================== *)
(** * Part II: properties                                              *)
(* ================================================================== *)

(** ** Strings *)

Lemma streq_refl (s : jsstring) : streq s s = true.
Proof.
  induction s as [|c s IH]; simpl; [reflexivity|].
  now rewrite N.eqb_refl, IH.
Qed.

Lemma streq_eq (a b : jsstring) : streq a b = true <-> a = b.
Proof.
  split.
  - revert b; induction a as [|x a IH]; intros [|y b] H; simpl in H;
      try discriminate; [reflexivity|].
    apply andb_true_iff in H as [Hxy Hab].
    apply N.eqb_eq in Hxy. now rewrite Hxy, (IH b Hab).
  - intros ->. apply streq_refl.
Qed.

Lemma streq_neq (a b : jsstring) : streq a b = false <-> a <> b.
Proof.
  rewrite <- streq_eq. destruct (streq a b); split; congruence.
Qed.

(** ** Heading repair ([fixHeaders]) *)

Section HeadingRepair.


(** The same repair seen on a fragment: only the top-level headers are
    renamed, the other children stay in place. *)
Lemma fixHeaders_on_fragment :
  option_map (fun dom => map tagName (childrenOf dom))
    (fixHeaders 4
       (element (lit "root") []
          [element (lit "h1") [] []; element (lit "p") [] [element (lit "h5") [] []];
           element (lit "h3") [] []; textNode (lit "x"); element (lit "h3") [] []])
       true)
  = Some [lit "h1"; lit "p"; lit "h2"; []; lit "h2"].
Proof. reflexivity. Qed.

Lemma headerDepthOf_written (v : Z) :
  (0 <= v <= 18)%Z ->
  headerDepthOf (lit "h" ++ toString (Some v)) = Some (if (v <=? 9)%Z then v else 1%Z).
Proof.
  intros H. destruct v as [|p|p]; [reflexivity| |lia].
  repeat match goal with
         | q : positive |- _ => destruct q; try lia; try reflexivity
         end.
Qed.

Lemma numericTag_intro (tag : jsstring) :
  headerDepthOf tag <> NaN -> numericTag tag.
Proof.
  unfold numericTag, headerDepthOf, charAt, NaN.
  destruct (nth_error tag 1) as [c|]; [|intros H; now elim H].
  unfold parseInt; simpl.
  destruct (isWhiteSpace c); [intros H; now elim H|].
  destruct (c =? 45)%N; [simpl; intros H; now elim H|].
  destruct (c =? 43)%N; [simpl; intros H; now elim H|].
  unfold startsWithDigit, parseDigits, digitVal.
  destruct ((48 <=? c) && (c <=? 57))%N eqn:Hd; [|intros H; now elim H].
  intros _. exists (Z.of_N (c - 48)). split; [reflexivity|].
  apply andb_true_iff in Hd as [H1 H2].
  apply N.leb_le in H1, H2. lia.
Qed.

Lemma shiftRun_head (h g : Z) (tag : jsstring) (rest : list jsstring) :
  headerDepthOf tag = Some h ->
  shiftRun (Some h) (Some g) (tag :: rest)
  = (lit "h" ++ toString (Some (h - g)%Z)) :: shiftRun (Some h) (Some g) rest.
Proof.
  intros Hd. cbn [shiftRun]. rewrite Hd. unfold ge, le.
  now rewrite Z.leb_refl.
Qed.

Lemma shiftRun_numeric (h g : Z) (headers : list jsstring) :
  Forall numericTag headers -> (0 <= h)%Z -> (-9 <= g <= h)%Z ->
  Forall numericTag (shiftRun (Some h) (Some g) headers)
  /\ length (shiftRun (Some h) (Some g) headers) = length headers.
Proof.
  intros Hall Hh Hg. induction Hall as [|tag rest [c [Hc Hr]] Hrest [IH1 IH2]].
  - split; [constructor|reflexivity].
  - cbn [shiftRun]. rewrite Hc. unfold ge, le.
    destruct (h <=? c)%Z eqn:Hle.
    + apply Z.leb_le in Hle. split.
      * constructor; [|exact IH1].
        exists (if (c - g <=? 9)%Z then (c - g)%Z else 1%Z). split.
        -- apply headerDepthOf_written. lia.
        -- destruct (c - g <=? 9)%Z eqn:E; [apply Z.leb_le in E|]; lia.
      * simpl. now rewrite IH2.
    + split; [|reflexivity].
      constructor; [now exists c|exact Hrest].
Qed.

Lemma nth_error_middle {A : Type} (pre : list A) (x : A) (rest : list A) :
  nth_error (pre ++ x :: rest) (length pre) = Some x.
Proof.
  rewrite nth_error_app2 by lia. now rewrite Nat.sub_diag.
Qed.

Lemma firstn_prefix {A : Type} (pre rest : list A) :
  firstn (length pre) (pre ++ rest) = pre.
Proof.
  rewrite firstn_app, Nat.sub_diag, firstn_all. simpl. apply app_nil_r.
Qed.

Lemma skipn_prefix {A : Type} (pre rest : list A) :
  skipn (length pre) (pre ++ rest) = rest.
Proof.
  rewrite skipn_app, Nat.sub_diag, skipn_all. reflexivity.
Qed.

Lemma loop_exit (fuel : nat) (r l : number) (headers : list jsstring) :
  fixHeaders_loop fuel r (length headers) l headers = Some headers.
Proof.
  assert (H : nth_error headers (length headers) = None)
    by (apply nth_error_None; lia).
  destruct fuel; simpl; now rewrite H.
Qed.

Lemma step_accept (fuel : nat) (r l h : Z) (pre : list jsstring) (tag : jsstring)
    (rest : list jsstring) :
  headerDepthOf tag = Some h -> (r <= h <= l + 1)%Z ->
  fixHeaders_loop (S fuel) (Some r) (length pre) (Some l) (pre ++ tag :: rest)
  = fixHeaders_loop fuel (Some r) (length (pre ++ [tag])) (Some h)
      ((pre ++ [tag]) ++ rest).
Proof.
  intros Hd [H1 H2]. cbn [fixHeaders_loop].
  rewrite nth_error_middle, Hd. unfold le, add.
  apply Z.leb_le in H1, H2. rewrite H1, H2. cbn [andb].
  rewrite length_app, <- app_assoc. simpl.
  now rewrite Nat.add_1_r.
Qed.

Lemma step_correct (fuel : nat) (r l h : Z) (pre : list jsstring) (tag : jsstring)
    (rest : list jsstring) :
  headerDepthOf tag = Some h -> ~ (r <= h <= l + 1)%Z ->
  fixHeaders_loop (S fuel) (Some r) (length pre) (Some l) (pre ++ tag :: rest)
  = let gap := if (h <=? r)%Z then (h - r)%Z else (h - (l + 1))%Z in
    fixHeaders_loop fuel (Some r) (length pre) (Some l)
      (pre ++ (lit "h" ++ toString (Some (h - gap)%Z))
           :: shiftRun (Some h) (Some gap) rest).
Proof.
  intros Hd Hout. cbn [fixHeaders_loop].
  rewrite nth_error_middle, Hd. unfold le, add, sub.
  destruct ((r <=? h)%Z && (h <=? l + 1)%Z) eqn:E.
  - apply andb_true_iff in E as [E1 E2]. apply Z.leb_le in E1, E2. lia.
  - rewrite firstn_prefix, skipn_prefix.
    destruct (h <=? r)%Z; cbn zeta; now rewrite (shiftRun_head _ _ _ _ Hd).
Qed.

Lemma loop_settles (r : Z) :
  (0 <= r <= 9)%Z ->
  forall (n : nat) (pre rest : list jsstring) (l : Z),
    length rest = n -> Forall numericTag rest -> (r - 1 <= l <= 9)%Z ->
    exists (fixed : list jsstring) (depths : list Z),
      (forall extra,
          fixHeaders_loop (2 * n + extra) (Some r) (length pre) (Some l) (pre ++ rest)
          = Some (pre ++ fixed))
      /\ map headerDepthOf fixed = map Some depths
      /\ length fixed = n
      /\ wellNested r l depths.
Proof.
  intros Hr. induction n as [|n IH]; intros pre rest l Hlen Hnum Hl.
  - destruct rest; [|discriminate]. exists [], []. repeat split.
    intros extra. rewrite app_nil_r. apply loop_exit.
  - destruct rest as [|tag rest]; [discriminate|].
    injection Hlen as Hlen. apply Forall_cons_iff in Hnum as [[h [Hd Hh]] Hrest].
    destruct (Z_le_dec r h) as [Hrh|Hrh]; [destruct (Z_le_dec h (l + 1)) as [Hhl|Hhl]|].
    + (* the header follows the rules *)
      destruct (IH (pre ++ [tag]) rest h Hlen Hrest)
        as (fixed & depths & Hrun & Hmap & Hlf & Hwn); [lia|].
      exists (tag :: fixed), (h :: depths). split; [|split; [|split]].
      * intros extra.
        replace (2 * S n + extra)%nat with (S (2 * n + (1 + extra)))%nat by lia.
        rewrite (step_accept _ r l h) by (trivial; lia).
        rewrite Hrun, <- app_assoc. reflexivity.
      * simpl. now rewrite Hd, Hmap.
      * simpl. now rewrite Hlf.
      * simpl. split; [lia|exact Hwn].
    + (* too deep: the run is raised to one below the last accepted depth *)
      destruct (shiftRun_numeric h (h - (l + 1)) rest Hrest) as [Hnum' Hlen']; [lia|lia|].
      destruct (IH (pre ++ [lit "h" ++ toString (Some (l + 1)%Z)])
                   (shiftRun (Some h) (Some (h - (l + 1))%Z) rest) (l + 1)%Z
                   (eq_trans Hlen' Hlen) Hnum')
        as (fixed & depths & Hrun & Hmap & Hlf & Hwn); [lia|].
      assert (Hnew : headerDepthOf (lit "h" ++ toString (Some (l + 1)%Z)) = Some (l + 1)%Z).
      { rewrite headerDepthOf_written by lia.
        destruct (l + 1 <=? 9)%Z eqn:E; [reflexivity|]. apply Z.leb_gt in E. lia. }
      exists ((lit "h" ++ toString (Some (l + 1)%Z)) :: fixed), ((l + 1)%Z :: depths).
      split; [|split; [|split]].
      * intros extra.
        replace (2 * S n + extra)%nat with (S (S (2 * n + extra)))%nat by lia.
        rewrite (step_correct _ r l h) by (trivial; lia). cbn zeta.
        assert (E : (h <=? r)%Z = false) by (apply Z.leb_gt; lia). rewrite E.
        replace (h - (h - (l + 1)))%Z with (l + 1)%Z by lia.
        rewrite (step_accept _ r l (l + 1)) by (trivial; lia).
        rewrite Hrun, <- app_assoc. reflexivity.
      * cbn [map]. now rewrite Hnew, Hmap.
      * simpl. now rewrite Hlf.
      * simpl. split; [lia|exact Hwn].
    + (* above the root: the run is lowered to the root depth *)
      destruct (shiftRun_numeric h (h - r) rest Hrest) as [Hnum' Hlen']; [lia|lia|].
      destruct (IH (pre ++ [lit "h" ++ toString (Some r)])
                   (shiftRun (Some h) (Some (h - r)%Z) rest) r
                   (eq_trans Hlen' Hlen) Hnum')
        as (fixed & depths & Hrun & Hmap & Hlf & Hwn); [lia|].
      assert (Hnew : headerDepthOf (lit "h" ++ toString (Some r)) = Some r).
      { rewrite headerDepthOf_written by lia.
        destruct (r <=? 9)%Z eqn:E; [reflexivity|]. apply Z.leb_gt in E. lia. }
      exists ((lit "h" ++ toString (Some r)) :: fixed), (r :: depths).
      split; [|split; [|split]].
      * intros extra.
        replace (2 * S n + extra)%nat with (S (S (2 * n + extra)))%nat by lia.
        rewrite (step_correct _ r l h) by (trivial; lia). cbn zeta.
        assert (E : (h <=? r)%Z = true) by (apply Z.leb_le; lia). rewrite E.
        replace (h - (h - r))%Z with r by lia.
        rewrite (step_accept _ r l r) by (trivial; lia).
        rewrite Hrun, <- app_assoc. reflexivity.
      * cbn [map]. now rewrite Hnew, Hmap.
      * simpl. now rewrite Hlf.
      * simpl. split; [lia|exact Hwn].
Qed.

(** A header whose depth reads as NaN is never accepted and never changed:
    once the scan reaches it, the loop makes no progress. *)
Lemma fixHeaders_loop_stuck (fuel : nat) (r l : number) (pre : list jsstring)
    (tag : jsstring) (rest : list jsstring) :
  headerDepthOf tag = NaN ->
  fixHeaders_loop fuel r (length pre) l (pre ++ tag :: rest) = None.
Proof.
  intros Hd. induction fuel as [|fuel IH]; cbn [fixHeaders_loop];
    rewrite nth_error_middle; [reflexivity|].
  rewrite Hd. unfold NaN.
  replace (le r None) with false by (now destruct r).
  cbn [andb le sub].
  rewrite firstn_prefix, skipn_prefix. cbn [shiftRun]. rewrite Hd.
  cbn [ge le]. exact IH.
Qed.

(** The pattern that collects the headers is not anchored: it also accepts
    the tag name [xh1], whose depth reads as NaN, and the loop then runs
    forever whatever the number of iterations allowed. *)
Lemma fixHeaders_hangs_on_xh1 (fuel : nat) (ensureFirstHeaderIsH1 : bool) :
  isHeaderTag (lit "xh1") = true
  /\ fixHeaderTags fuel [lit "xh1"] ensureFirstHeaderIsH1 = None.
Proof.
  split; [reflexivity|].
  unfold fixHeaderTags.
  exact (fixHeaders_loop_stuck fuel _ _ [] (lit "xh1") [] eq_refl).
Qed.

(** The inner loop leaves a header whose depth reads as NaN as it is. *)
Lemma shiftRun_keeps_NaN (h g : number) (headers : list jsstring) :
  forall (k : nat) (tag : jsstring),
    nth_error headers k = Some tag -> headerDepthOf tag = NaN ->
    nth_error (shiftRun h g headers) k = Some tag.
Proof.
  induction headers as [|t rest IH]; intros k tag Hk Hd; [now destruct k|].
  cbn [shiftRun]. destruct (ge (headerDepthOf t) h) eqn:E; [|exact Hk].
  destruct k as [|k].
  - cbn in Hk. injection Hk as ->. rewrite Hd in E. unfold ge, le, NaN in E.
    destruct h; discriminate.
  - cbn [nth_error] in *. now apply IH.
Qed.

(** Once a header that reads as NaN lies ahead, the loop cannot end: the
    header is never accepted and never rewritten. *)
Lemma fixHeaders_loop_never_ends (tag : jsstring) :
  headerDepthOf tag = NaN ->
  forall (fuel : nat) (r : number) (j i : nat) (l : number) (headers : list jsstring),
    (i <= j)%nat -> nth_error headers j = Some tag ->
    fixHeaders_loop fuel r i l headers = None.
Proof.
  intros Hnan. induction fuel as [|f IH]; intros r j i l hs Hi Hj;
    cbn [fixHeaders_loop].
  - destruct (nth_error hs i) eqn:E; [reflexivity|].
    apply nth_error_None in E. assert (j < length hs)%nat
      by (apply nth_error_Some; congruence). lia.
  - destruct (nth_error hs i) as [t|] eqn:E.
    2:{ apply nth_error_None in E. assert (j < length hs)%nat
          by (apply nth_error_Some; congruence). lia. }
    destruct (le r (headerDepthOf t) && le (headerDepthOf t) (add l (Some 1%Z))) eqn:Ec.
    + apply (IH _ j); [|exact Hj]. destruct (Nat.eq_dec i j) as [->|]; [|lia].
      rewrite Hj in E. injection E as <-. rewrite Hnan in Ec.
      unfold le, NaN in Ec. destruct r; discriminate.
    + apply (IH _ j); [exact Hi|].
      assert (Hlen : length (firstn i hs) = i).
      { apply firstn_length_le. assert (i < length hs)%nat
          by (apply nth_error_Some; congruence). lia. }
      rewrite nth_error_app2 by lia. rewrite Hlen.
      apply shiftRun_keeps_NaN; [|exact Hnan].
      rewrite nth_error_skipn. now replace (i + (j - i))%nat with j by lia.
Qed.

(** Whenever the second character of every tag name is a digit, the loop
    ends within two iterations per header, and the depths the loop reads
    from the resulting tag names satisfy the constraint. *)
Lemma fixHeaderTags_settles_numeric (headers : list jsstring)
    (ensureFirstHeaderIsH1 : bool) :
  Forall (fun tag => headerDepthOf tag <> NaN) headers ->
  exists (fixed : list jsstring) (depths : list Z) (rootDepth : Z),
    (forall extra,
        fixHeaderTags (2 * length headers + extra) headers ensureFirstHeaderIsH1
        = Some fixed)
    /\ length fixed = length headers
    /\ map headerDepthOf fixed = map Some depths
    /\ (ensureFirstHeaderIsH1 = true -> rootDepth = 1%Z)
    /\ (ensureFirstHeaderIsH1 = false ->
        forall first rest, headers = first :: rest ->
                           headerDepthOf first = Some rootDepth)
    /\ wellNested rootDepth (rootDepth - 1) depths.
Proof.
  intros Hall.
  assert (Hnum : Forall numericTag headers).
  { eapply Forall_impl; [|exact Hall]. intros tag. apply numericTag_intro. }
  destruct headers as [|first rest].
  - exists [], [], 1%Z. repeat split; try reflexivity. intros _ ? ? H. discriminate.
  - pose proof Hnum as Hfirst.
    apply Forall_cons_iff in Hfirst as [[d [Hd Hdr]] _].
    set (r := if ensureFirstHeaderIsH1 then 1%Z else d).
    assert (Hinit : initialDepth ensureFirstHeaderIsH1 (first :: rest) = Some (r - 1)%Z).
    { unfold initialDepth, r. destruct ensureFirstHeaderIsH1; [reflexivity|].
      rewrite Hd. cbn [sub orZero].
      destruct (d - 1)%Z eqn:E; [|reflexivity|reflexivity]. reflexivity. }
    assert (Hr : (0 <= r <= 9)%Z) by (unfold r; destruct ensureFirstHeaderIsH1; lia).
    destruct (loop_settles r Hr (length (first :: rest)) [] (first :: rest) (r - 1)%Z
                eq_refl Hnum)
      as (fixed & depths & Hrun & Hmap & Hlf & Hwn); [lia|].
    exists fixed, depths, r. split; [|split; [|split; [|split; [|split]]]]; trivial.
    + intros extra. unfold fixHeaderTags. rewrite Hinit. cbn [add].
      replace (r - 1 + 1)%Z with r by lia. exact (Hrun extra).
    + intros ->. reflexivity.
    + intros -> ? ? Heq. injection Heq as <- _. exact Hd.
Qed.

Lemma headerDepthOf_writtenTag (v : Z) :
  (0 <= v <= 18)%Z -> headerDepthOf (writtenTag v) = Some (readDepth v).
Proof. exact (headerDepthOf_written v). Qed.

Lemma readDepth_range (v : Z) : (0 <= v <= 18)%Z -> (0 <= readDepth v <= 9)%Z.
Proof. unfold readDepth. destruct (Z.leb_spec v 9); lia. Qed.

(** The inner loop on written tag names: each header is either left as it
    is, or rewritten from the depth read from it. *)
Lemma shiftRun_written (h g : Z) (values : list Z) :
  Forall (fun v => 0 <= v <= 18)%Z values ->
  exists shifted,
    shiftRun (Some h) (Some g) (map writtenTag values) = map writtenTag shifted
    /\ Forall2 (fun v v' => v' = v \/ ((h <= readDepth v)%Z /\ v' = (readDepth v - g)%Z))
               values shifted.
Proof.
  intros Hall. induction Hall as [|v values Hv _ (shifted & Hrun & Hrel)].
  - exists []. split; [reflexivity|constructor].
  - cbn [map shiftRun]. rewrite (headerDepthOf_writtenTag v Hv). unfold ge, le.
    destruct (Z.leb_spec h (readDepth v)) as [Hle|Hlt].
    + exists ((readDepth v - g)%Z :: shifted). split.
      * cbn [map sub]. now rewrite Hrun.
      * constructor; [right; now split|exact Hrel].
    + exists (v :: values). split; [reflexivity|].
      constructor; [now left|]. clear. induction values; constructor; auto.
Qed.

(** When no header reads below [h], the inner loop reaches the end. *)
Lemma shiftRun_written_all (h g : Z) (values : list Z) :
  Forall (fun v => 0 <= v <= 18 /\ h <= readDepth v)%Z values ->
  shiftRun (Some h) (Some g) (map writtenTag values)
  = map writtenTag (map (fun v => readDepth v - g)%Z values).
Proof.
  intros Hall. induction Hall as [|v values [Hv Hh] _ IH]; [reflexivity|].
  cbn [map shiftRun]. rewrite (headerDepthOf_writtenTag v Hv). unfold ge, le.
  apply Z.leb_le in Hh. rewrite Hh. cbn [sub]. now rewrite IH.
Qed.

Lemma pendingDepths_tail (r v : Z) (values : list Z) :
  pendingDepths r (v :: values) -> pendingDepths r values.
Proof.
  intros [Hall Hlow]. split; [now apply Forall_cons_iff in Hall|].
  intros Hr. destruct (Hlow Hr) as [H|H]; [left|right];
    now apply Forall_cons_iff in H.
Qed.

Lemma pendingDepths_head (r v : Z) (values : list Z) :
  (0 <= r)%Z -> pendingDepths r (v :: values) ->
  (0 <= v <= 18)%Z /\ ((r <= readDepth v)%Z -> readDepth v = v).
Proof.
  intros Hr [Hall Hlow]. apply Forall_cons_iff in Hall as [Hv _]. split; [exact Hv|].
  unfold readDepth. destruct (Z.leb_spec v 9); [reflexivity|]. intros Hone.
  destruct (Hlow Hone) as [Hs|Hs]; apply Forall_cons_iff in Hs as [Hs _]; lia.
Qed.

(** Lowering a run that is too deep keeps the pending numbers in range. *)
Lemma pendingDepths_lowered (r h g : Z) (values shifted : list Z) :
  (0 <= r)%Z -> (0 < g)%Z -> (r <= h - g)%Z ->
  pendingDepths r values ->
  Forall2 (fun v v' => v' = v \/ ((h <= readDepth v)%Z /\ v' = (readDepth v - g)%Z))
          values shifted ->
  pendingDepths r shifted.
Proof.
  intros Hr Hg Hfloor [Hall Hlow] Hrel. split.
  - clear Hlow. induction Hrel as [|v v' values shifted Hv Hrel IH]; [constructor|].
    apply Forall_cons_iff in Hall as [Hb Hall]. constructor; [|now apply IH].
    pose proof (readDepth_range v Hb). destruct Hv as [->|[Hh ->]]; lia.
  - intros Hone. destruct (Hlow Hone) as [Hsix|Hseven]; [left|right].
    + clear Hlow. induction Hrel as [|v v' values shifted Hv Hrel IH]; [constructor|].
      apply Forall_cons_iff in Hall as [Hb Hall].
      apply Forall_cons_iff in Hsix as [Hs Hsix]. constructor; [|now apply IH].
      destruct Hv as [->|[Hh ->]]; [exact Hs|]. unfold readDepth.
      destruct (Z.leb_spec v 9); lia.
    + clear Hlow. induction Hrel as [|v v' values shifted Hv Hrel IH]; [constructor|].
      apply Forall_cons_iff in Hall as [Hb Hall].
      apply Forall_cons_iff in Hseven as [Hs Hseven]. constructor; [|now apply IH].
      destruct Hv as [->|[Hh ->]]; [exact Hs|]. unfold readDepth in *.
      destruct (Z.leb_spec v 9); lia.
Qed.

(** Raising a run that lies below the root depth. *)
Lemma pendingDepths_raised (r h : Z) (values : list Z) :
  (0 <= r <= 6)%Z -> (0 <= h < r)%Z ->
  pendingDepths r values ->
  (r <= 1 -> Forall (fun v => v <= 6)%Z values)%Z ->
  exists shifted,
    shiftRun (Some h) (Some (h - r)%Z) (map writtenTag values) = map writtenTag shifted
    /\ length shifted = length values
    /\ pendingDepths r shifted.
Proof.
  intros Hr Hh [Hall Hlow] Hsix.
  destruct (Z_le_dec r 1) as [Hone|Hmore].
  - (* the root depth is 1 and the offending header reads 0: every header is raised *)
    assert (h = 0%Z) by lia. subst h. assert (r = 1%Z) by lia. subst r.
    specialize (Hsix Hone).
    exists (map (fun v => readDepth v - (0 - 1))%Z values). split; [|split].
    + apply shiftRun_written_all. rewrite Forall_forall in *.
      intros v Hin. split; [now apply Hall|]. apply readDepth_range. now apply Hall.
    + apply length_map.
    + split.
      * rewrite Forall_forall in *. intros v' Hin. apply in_map_iff in Hin as (v & <- & Hin).
        pose proof (readDepth_range v (Hall v Hin)). lia.
      * intros _. right. rewrite Forall_forall in *. intros v' Hin.
        apply in_map_iff in Hin as (v & <- & Hin).
        specialize (Hall v Hin). specialize (Hsix v Hin). unfold readDepth.
        destruct (Z.leb_spec v 9); lia.
  - destruct (shiftRun_written h (h - r) values Hall) as (shifted & Hrun & Hrel).
    exists shifted. split; [exact Hrun|]. split.
    + symmetry. exact (Forall2_length Hrel).
    + split; [|intros; lia]. clear Hlow Hsix Hrun.
      induction Hrel as [|v v' values shifted Hv Hrel IH]; [constructor|].
      apply Forall_cons_iff in Hall as [Hb Hall]. constructor; [|now apply IH].
      pose proof (readDepth_range v Hb). destruct Hv as [->|[_ ->]]; lia.
Qed.

(** On tag names written from pending numbers the loop ends within two
    iterations per header, and what it leaves are the tag names [h<d>] of a
    sequence of depths that satisfies the constraint. *)
Lemma loop_settles_written (r : Z) :
  (0 <= r <= 6)%Z ->
  forall (n : nat) (pre : list jsstring) (values : list Z) (l : Z),
    length values = n -> pendingDepths r values -> (r - 1 <= l <= 9)%Z ->
    exists depths : list Z,
      (forall extra,
          fixHeaders_loop (2 * n + extra) (Some r) (length pre) (Some l)
                          (pre ++ map writtenTag values)
          = Some (pre ++ map writtenTag depths))
      /\ length depths = n
      /\ Forall (fun d => 0 <= d <= 9)%Z depths
      /\ wellNested r l depths.
Proof.
  intros Hr. induction n as [|n IH]; intros pre values l Hlen Hpending Hl.
  - destruct values; [|discriminate]. exists []. repeat split; [|constructor].
    intros extra. cbn [map]. rewrite app_nil_r. apply loop_exit.
  - destruct values as [|v values]; [discriminate|]. injection Hlen as Hlen.
    destruct (pendingDepths_head r v values (proj1 Hr) Hpending) as [Hv Hread].
    pose proof (pendingDepths_tail r v values Hpending) as Htail.
    pose proof (headerDepthOf_writtenTag v Hv) as Hd.
    pose proof (readDepth_range v Hv) as Hh.
    set (h := readDepth v) in *.
    destruct (Z_le_dec r h) as [Hrh|Hrh]; [destruct (Z_le_dec h (l + 1)) as [Hhl|Hhl]|].
    + (* the header follows the rules *)
      specialize (Hread Hrh).
      destruct (IH (pre ++ [writtenTag v]) values h Hlen Htail)
        as (depths & Hrun & Hld & Hrange & Hwn); [lia|].
      exists (h :: depths). split; [|split; [|split]].
      * intros extra. cbn [map].
        replace (2 * S n + extra)%nat with (S (2 * n + (1 + extra)))%nat by lia.
        rewrite (step_accept _ r l h) by (trivial; lia).
        rewrite Hrun, <- app_assoc. cbn [app map]. now rewrite Hread.
      * cbn. now rewrite Hld.
      * constructor; [lia|exact Hrange].
      * cbn. split; [lia|exact Hwn].
    + (* too deep: the run is raised to one below the last accepted depth *)
      destruct (shiftRun_written h (h - (l + 1)) values (proj1 Htail))
        as (shifted & Hshift & Hrel).
      assert (Hpending' : pendingDepths r shifted)
        by (apply (pendingDepths_lowered r h (h - (l + 1)) values); trivial; lia).
      assert (Hlen' : length shifted = n)
        by (rewrite <- Hlen; symmetry; exact (Forall2_length Hrel)).
      destruct (IH (pre ++ [writtenTag (l + 1)]) shifted (l + 1)%Z Hlen' Hpending')
        as (depths & Hrun & Hld & Hrange & Hwn); [lia|].
      assert (Hnew : headerDepthOf (writtenTag (l + 1)) = Some (l + 1)%Z).
      { rewrite headerDepthOf_writtenTag by lia. unfold readDepth.
        destruct (Z.leb_spec (l + 1) 9); [reflexivity|lia]. }
      exists ((l + 1)%Z :: depths). split; [|split; [|split]].
      * intros extra. cbn [map].
        replace (2 * S n + extra)%nat with (S (S (2 * n + extra)))%nat by lia.
        rewrite (step_correct _ r l h) by (trivial; lia). cbn zeta.
        assert (E : (h <=? r)%Z = false) by (apply Z.leb_gt; lia). rewrite E.
        replace (h - (h - (l + 1)))%Z with (l + 1)%Z by lia.
        rewrite Hshift. fold (writtenTag (l + 1)).
        rewrite (step_accept _ r l (l + 1)) by (trivial; lia).
        rewrite Hrun, <- app_assoc. reflexivity.
      * cbn. now rewrite Hld.
      * constructor; [lia|exact Hrange].
      * cbn. split; [lia|exact Hwn].
    + (* below the root: the run is lowered to the root depth *)
      destruct (pendingDepths_raised r h values Hr ltac:(lia) Htail)
        as (shifted & Hshift & Hlen' & Hpending').
      { intros Hone. destruct Hpending as [_ Hlow].
        destruct (Hlow Hone) as [Hsix|Hseven]; [now apply Forall_cons_iff in Hsix|].
        apply Forall_cons_iff in Hseven as [Hs _]. exfalso. unfold h, readDepth in Hrh.
        destruct (Z.leb_spec v 9); lia. }
      destruct (IH (pre ++ [writtenTag r]) shifted r (eq_trans Hlen' Hlen) Hpending')
        as (depths & Hrun & Hld & Hrange & Hwn); [lia|].
      assert (Hnew : headerDepthOf (writtenTag r) = Some r).
      { rewrite headerDepthOf_writtenTag by lia. unfold readDepth.
        destruct (Z.leb_spec r 9); [reflexivity|lia]. }
      exists (r :: depths). split; [|split; [|split]].
      * intros extra. cbn [map].
        replace (2 * S n + extra)%nat with (S (S (2 * n + extra)))%nat by lia.
        rewrite (step_correct _ r l h) by (trivial; lia). cbn zeta.
        assert (E : (h <=? r)%Z = true) by (apply Z.leb_le; lia). rewrite E.
        replace (h - (h - r))%Z with r by lia.
        rewrite Hshift. fold (writtenTag r).
        rewrite (step_accept _ r l r) by (trivial; lia).
        rewrite Hrun, <- app_assoc. reflexivity.
      * cbn. now rewrite Hld.
      * constructor; [lia|exact Hrange].
      * cbn. split; [lia|exact Hwn].
Qed.


(** C3, where the code departs from it.  The headers are collected with the
    pattern [/h[0-6]/], which is not anchored, while the rule table names the
    headings [h1] .. [h6] one by one: an element such as [<xh1>] is collected
    as a top-level heading, its depth reads as NaN, and the correction loop
    then never ends, whatever the number of iterations.  The loop ends
    exactly when the second character of every collected tag name is a
    digit; a collected name such as [h9h1] is then rewritten to [h10], which
    is no heading.  On the names the pattern is written for, [h0] .. [h6],
    the loop does what the claim says: it ends within two iterations per
    heading, and it leaves the tag names [h<d>] of depths [d] that each lie
    between the root depth and one more than the depth before: 1 when the
    first heading is forced to h1, the depth of the first heading
    otherwise. *)
Theorem fixHeaders_termination :
  (topLevelHeaders (element (lit "root") [] [element (lit "xh1") [] [textNode (lit "foo")]])
   = [element (lit "xh1") [] [textNode (lit "foo")]]
   /\ forall fuel ensureFirstHeaderIsH1,
       fixHeaders fuel
         (element (lit "root") [] [element (lit "xh1") [] [textNode (lit "foo")]])
         ensureFirstHeaderIsH1
       = None)
  /\ (forall dom child fuel ensureFirstHeaderIsH1,
         In child (topLevelHeaders dom) ->
         headerDepthOf (tagName child) = NaN ->
         fixHeaders fuel dom ensureFirstHeaderIsH1 = None)
  /\ (forall headers ensureFirstHeaderIsH1,
         (exists fuel fixed,
             fixHeaderTags fuel headers ensureFirstHeaderIsH1 = Some fixed)
         <-> Forall (fun tag => headerDepthOf tag <> NaN) headers)
  /\ (forall extra,
         fixHeaderTags (4 + extra) [lit "h1"; lit "h0"; lit "h9h1"] true
         = Some [lit "h1"; lit "h1"; lit "h10"])
  /\ (forall (levels : list Z) (ensureFirstHeaderIsH1 : bool),
         Forall (fun d => 0 <= d <= 6)%Z levels ->
         exists (depths : list Z) (rootDepth : Z),
           (forall extra,
               fixHeaderTags (2 * length levels + extra) (map writtenTag levels)
                             ensureFirstHeaderIsH1
               = Some (map writtenTag depths))
           /\ length depths = length levels
           /\ Forall (fun d => 0 <= d <= 9)%Z depths
           /\ (ensureFirstHeaderIsH1 = true -> rootDepth = 1%Z)
           /\ (ensureFirstHeaderIsH1 = false ->
               forall first rest, levels = first :: rest -> rootDepth = first)
           /\ wellNested rootDepth (rootDepth - 1) depths).
Proof.
  assert (Hhang : forall dom child fuel ensureFirstHeaderIsH1,
             In child (topLevelHeaders dom) ->
             headerDepthOf (tagName child) = NaN ->
             fixHeaders fuel dom ensureFirstHeaderIsH1 = None).
  { intros dom child fuel ensure Hin Hnan. unfold fixHeaders.
    apply (in_map tagName) in Hin. apply In_nth_error in Hin as [j Hj].
    destruct (map tagName (topLevelHeaders dom)) as [|first rest] eqn:E;
      [now destruct j|].
    unfold fixHeaderTags.
    now rewrite (fixHeaders_loop_never_ends _ Hnan _ _ _ O _ _ (Nat.le_0_l _) Hj). }
  split; [|split; [|split; [|split]]].
  - split; [reflexivity|]. intros fuel ensure.
    apply (Hhang _ (element (lit "xh1") [] [textNode (lit "foo")]));
      [left|]; reflexivity.
  - exact Hhang.
  - intros headers ensure. split.
    + intros (fuel & fixed & Hrun). apply Forall_forall. intros tag Hin Hnan.
      apply In_nth_error in Hin as [j Hj].
      destruct headers as [|first rest]; [now destruct j|].
      unfold fixHeaderTags in Hrun.
      rewrite (fixHeaders_loop_never_ends _ Hnan _ _ _ O _ _ (Nat.le_0_l _) Hj) in Hrun.
      discriminate.
    + intros Hall.
      destruct (fixHeaderTags_settles_numeric headers ensure Hall)
        as (fixed & _ & _ & Hrun & _).
      exists (2 * length headers + 0)%nat, fixed. exact (Hrun O).
  - intros extra. destruct extra; reflexivity.
  - intros levels ensure Hlevels. destruct levels as [|first rest].
    + exists [], 1%Z. repeat split; try reflexivity; try constructor.
      intros _ ? ? H. discriminate.
    + pose proof Hlevels as Hall. apply Forall_cons_iff in Hlevels as [Hfirst _].
      set (r := if ensure then 1%Z else first).
      assert (Hr : (0 <= r <= 6)%Z) by (unfold r; destruct ensure; lia).
      assert (Hinit : initialDepth ensure (map writtenTag (first :: rest))
                      = Some (r - 1)%Z).
      { unfold initialDepth, r. destruct ensure; [reflexivity|]. cbn [map].
        rewrite headerDepthOf_writtenTag by lia. unfold readDepth.
        destruct (Z.leb_spec first 9); [|lia]. cbn [sub orZero].
        destruct (first - 1)%Z; reflexivity. }
      assert (Hpending : pendingDepths r (first :: rest)).
      { split; [|intros _; left].
        - eapply Forall_impl; [|exact Hall]. cbn. intros; lia.
        - eapply Forall_impl; [|exact Hall]. cbn. intros; lia. }
      destruct (loop_settles_written r Hr (length (first :: rest)) [] (first :: rest)
                  (r - 1)%Z eq_refl Hpending)
        as (depths & Hrun & Hlen & Hrange & Hwn); [lia|].
      exists depths, r. split; [|split; [|split; [|split; [|split]]]]; trivial.
      * intros extra. unfold fixHeaderTags. cbn [map]. cbn [map] in Hinit.
        rewrite Hinit. cbn [add]. replace (r - 1 + 1)%Z with r by lia.
        exact (Hrun extra).
      * intros ->. reflexivity.
      * intros -> ? ? Heq. injection Heq as <- _. reflexivity.
Qed.

Lemma fixHeaders_termination_witness :
  (forall fuel,
      fixHeaders fuel
        (element (lit "root") []
           [element (lit "h1") [] []; element (lit "xh2") [] []])
        true
      = None)
  /\ exists (depths : list Z) (rootDepth : Z),
      (forall extra,
          fixHeaderTags (2 * 3 + extra) [lit "h6"; lit "h0"; lit "h6"] false
          = Some (map writtenTag depths))
      /\ length depths = 3%nat
      /\ Forall (fun d => 0 <= d <= 9)%Z depths
      /\ (false = true -> rootDepth = 1%Z)
      /\ (false = false ->
          forall first rest, [6; 0; 6]%Z = first :: rest -> rootDepth = first)
      /\ wellNested rootDepth (rootDepth - 1) depths.
Proof.
  split.
  - intros fuel.
    apply (proj1 (proj2 fixHeaders_termination) _ (element (lit "xh2") [] []));
      [right; left|]; reflexivity.
  - apply (proj2 (proj2 (proj2 (proj2 fixHeaders_termination))) [6; 0; 6]%Z false).
    repeat constructor; lia.
Defined.

End HeadingRepair.

(** ** Rule resolution ([canConvert], [findConverter]) *)

Section RuleResolution.

Lemma canConvert_string (node : Node) (tag : jsstring) :
  canConvert node (FilterString tag) = Ok true
  <-> isElement (Some node) = true /\ tagName node = tag.
Proof.
  cbn [canConvert]. split.
  - intros H. injection H as H. apply andb_true_iff in H as [H1 H2].
    apply streq_eq in H2. now split.
  - intros [H1 <-]. now rewrite H1, streq_refl.
Qed.

Lemma canConvert_array (node : Node) (tags : list jsstring) :
  canConvert node (FilterArray tags) = Ok true
  <-> isElement (Some node) = true /\ In (tagName node) tags.
Proof.
  cbn [canConvert]. split.
  - intros H. injection H as H. apply andb_true_iff in H as [H1 H2].
    apply existsb_exists in H2 as [t [Hin Ht]]. apply streq_eq in Ht.
    split; [exact H1|now subst].
  - intros [H1 Hin]. rewrite H1. cbn [andb]. f_equal.
    apply existsb_exists. exists (tagName node). split; [exact Hin|apply streq_refl].
Qed.

(** [find] stops at the first entry whose filter matches. *)
Lemma findIn_first_match (converters : list Converter) (node : Node)
    (converter : Converter) :
  findIn converters node = Ok (Some converter) ->
  exists before after,
    converters = before ++ converter :: after
    /\ canConvert node (filter converter) = Ok true
    /\ Forall (fun earlier => canConvert node (filter earlier) = Ok false) before.
Proof.
  induction converters as [|c rest IH]; cbn [findIn]; [discriminate|].
  destruct (canConvert node (filter c)) as [[|]|m] eqn:E; cbn [bind]; intros H.
  - injection H as <-. exists [], rest. repeat split; trivial.
  - destruct (IH H) as (before & after & -> & Hm & Hb).
    exists (c :: before), after. repeat split; trivial. now constructor.
  - discriminate.
Qed.

(** A filter that is neither a string, an array nor a function aborts the
    lookup as soon as it is reached. *)
Lemma findIn_invalid_filter (before : list Converter) (bad : Converter)
    (after : list Converter) (node : Node) :
  Forall (fun earlier => canConvert node (filter earlier) = Ok false) before ->
  filter bad = FilterOther ->
  exists message, findIn (before ++ bad :: after) node = Err message.
Proof.
  intros Hb Hbad. induction Hb as [|c before Hc _ IH]; cbn [app findIn].
  - rewrite Hbad. cbn. eauto.
  - rewrite Hc. cbn [bind]. exact IH.
Qed.

Lemma findConverter_total (node : Node) :
  exists converter, findConverter node = Ok (Some converter).
Proof.
  unfold findConverter, Converters. cbn [findIn rule filter canConvert bind].
  change (applyFilterFn fallback node) with true.
  repeat match goal with
         | |- context [if ?b then _ else _] => destruct b; [eauto|]
         end.
  eauto.
Qed.

(** C4. Rule resolution tries the converters in declaration order and
    returns the first one whose filter matches: a string filter matches an
    element of that tag name, an array filter an element whose tag name is a
    member, a function filter a node on which the predicate holds, and any
    other filter is a fatal error.  The last entry of the table is a
    catch-all whose predicate is always true, so every node resolves to a
    rule. *)
Theorem findConverter_first_match (node : Node) :
  (exists converter before after,
      findConverter node = Ok (Some converter)
      /\ Converters = before ++ converter :: after
      /\ canConvert node (filter converter) = Ok true
      /\ Forall (fun earlier => canConvert node (filter earlier) = Ok false) before)
  /\ (forall tag,
         canConvert node (FilterString tag) = Ok true
         <-> isElement (Some node) = true /\ tagName node = tag)
  /\ (forall tags,
         canConvert node (FilterArray tags) = Ok true
         <-> isElement (Some node) = true /\ In (tagName node) tags)
  /\ (forall fn, canConvert node (FilterFunction fn) = Ok (applyFilterFn fn node))
  /\ (exists message, canConvert node FilterOther = Err message)
  /\ (forall before bad after,
         Forall (fun earlier => canConvert node (filter earlier) = Ok false) before ->
         filter bad = FilterOther ->
         exists message, findIn (before ++ bad :: after) node = Err message)
  /\ (exists init final,
         Converters = init ++ [final]
         /\ filter final = FilterFunction fallback
         /\ forall any, canConvert any (filter final) = Ok true).
Proof.
  split; [|split; [|split; [|split; [|split; [|split]]]]].
  - destruct (findConverter_total node) as [converter H].
    destruct (findIn_first_match _ _ _ H) as (before & after & H1 & H2 & H3).
    exists converter, before, after. now repeat split.
  - intros tag. apply canConvert_string.
  - intros tags. apply canConvert_array.
  - reflexivity.
  - cbn. eauto.
  - intros before bad after. apply findIn_invalid_filter.
  - exists (removelast Converters), (last Converters (rule FilterOther false None P_p)).
    split; [reflexivity|split; [reflexivity|intros any; reflexivity]].
Qed.

Lemma findConverter_first_match_witness :
  exists converter before after,
    findConverter (element (lit "em") [] []) = Ok (Some converter)
    /\ Converters = before ++ converter :: after
    /\ canConvert (element (lit "em") [] []) (filter converter) = Ok true
    /\ Forall (fun earlier =>
                 canConvert (element (lit "em") [] []) (filter earlier) = Ok false)
              before.
Proof.
  exact (proj1 (findConverter_first_match (element (lit "em") [] []))).
Defined.

End RuleResolution.
(** ** Emphasis and strong *)

Section Emphasis.

Lemma hasChar_In (c : char) (s : jsstring) : hasChar c s = true <-> In c s.
Proof.
  unfold hasChar. rewrite existsb_exists. split.
  - intros [x [Hin Hx]]. apply N.eqb_eq in Hx. now subst.
  - intros Hin. exists c. split; [exact Hin|apply N.eqb_refl].
Qed.

Lemma escape_absent (c : char) (s : jsstring) : ~ In c s -> escape c s = s.
Proof.
  unfold escape, replaceAllChar. induction s as [|x s IH]; intros Hnot; [reflexivity|].
  cbn [flat_map]. destruct (N.eqb_spec x c) as [->|Hne].
  - elim Hnot. now left.
  - cbn [app]. rewrite IH; [reflexivity|]. intros Hin. apply Hnot. now right.
Qed.

Lemma escape_everyEscaped (c : char) (s : jsstring) (prev : option char) :
  c <> 92%N -> everyEscaped c prev (escape c s).
Proof.
  intros Hc. unfold escape, replaceAllChar. revert prev.
  induction s as [|x s IH]; intros prev; [exact I|].
  cbn [flat_map]. destruct (N.eqb_spec x c) as [->|Hne]; cbn [app everyEscaped].
  - split; [intros E; now elim Hc|]. split; [reflexivity|apply IH].
  - split; [intros E; now elim Hne|apply IH].
Qed.

(** C5 (as amended). The producer of em/i wraps content that contains [_]
    in [*] with every inner [*] escaped, and content without [_] in [_]
    (where nothing is left to escape); the producer of strong/b makes no
    choice: it always wraps the content in [**] with every inner [*]
    escaped. *)
Theorem emphasis_chooses_strong_does_not (content : jsstring) :
  choosesDelimiter replacement_em (lit "_") 95%N (lit "*") 42%N
  /\ (In 95%N content ->
      replacement_em content = lit "*" ++ escape 42%N content ++ lit "*")
  /\ (~ In 95%N content ->
      replacement_em content = lit "_" ++ content ++ lit "_")
  /\ replacement_strong content = lit "**" ++ escape 42%N content ++ lit "**"
  /\ everyEscaped 42%N (Some 42%N) (escape 42%N content)
  /\ everyEscaped 95%N (Some 95%N) (escape 95%N content).
Proof.
  split; [|split; [|split; [|split; [|split]]]].
  - intros c. reflexivity.
  - intros Hin. apply hasChar_In in Hin. unfold replacement_em. now rewrite Hin.
  - intros Hnot. unfold replacement_em.
    destruct (hasChar 95%N content) eqn:E.
    + apply hasChar_In in E. contradiction.
    + change (replaceAllChar 95%N (lit "\_") content) with (escape 95%N content).
      now rewrite escape_absent.
  - reflexivity.
  - apply escape_everyEscaped. discriminate.
  - apply escape_everyEscaped. discriminate.
Qed.

Lemma emphasis_chooses_strong_does_not_witness :
  replacement_em (lit "snake_case*") = lit "*snake_case\**"
  /\ replacement_em (lit "plain") = lit "_plain_".
Proof.
  split.
  - apply (proj1 (proj2 (emphasis_chooses_strong_does_not (lit "snake_case*")))).
    vm_compute. tauto.
  - apply (proj1 (proj2 (proj2 (emphasis_chooses_strong_does_not (lit "plain"))))).
    vm_compute. intuition discriminate.
Defined.

(** C5 as stated fails for strong/b: whichever of [**] and [__] is taken as
    the preferred delimiter, the producer does not follow the
    choose-and-escape discipline, since its delimiter never changes. *)
Lemma strong_makes_no_choice :
  ~ choosesDelimiter replacement_strong (lit "__") 95%N (lit "**") 42%N
  /\ ~ choosesDelimiter replacement_strong (lit "**") 42%N (lit "__") 95%N
  /\ replacement_strong (lit "a") = lit "**a**"
  /\ replacement_strong (lit "a_b") = lit "**a_b**"
  /\ replacement_strong (lit "a*b") = lit "**a\*b**".
Proof.
  split; [|split; [|repeat split]].
  - intros H. specialize (H (lit "a")). discriminate H.
  - intros H. specialize (H (lit "a*b")). discriminate H.
Qed.

End Emphasis.

(** ** Links *)

Section Links.

Variable toLowerCase : jsstring -> jsstring.

Lemma nullable_eq_eq (a b : option jsstring) : nullable_eq a b = true <-> a = b.
Proof.
  destruct a as [x|], b as [y|]; cbn; try (split; congruence).
  rewrite streq_eq. split; congruence.
Qed.

(** The reference is the first link with exactly that URL and title. *)
Lemma findReference_first (refUrl : jsstring) (refTitle : option jsstring)
    (links : list Link) (ref : Link) :
  findReference refUrl refTitle links = Some ref ->
  url ref = refUrl /\ title ref = refTitle
  /\ exists before after,
      links = before ++ ref :: after
      /\ Forall (fun l => ~ (url l = refUrl /\ title l = refTitle)) before.
Proof.
  unfold findReference. induction links as [|l links IH]; cbn [find]; [discriminate|].
  destruct (streq (url l) refUrl && nullable_eq (title l) refTitle) eqn:E.
  - intros H. injection H as <-. apply andb_true_iff in E as [E1 E2].
    apply streq_eq in E1. apply nullable_eq_eq in E2.
    repeat split; trivial. exists [], links. split; [reflexivity|constructor].
  - intros H. destruct (IH H) as (Hu & Ht & before & after & -> & Hb).
    repeat split; trivial. exists (l :: before), after. split; [reflexivity|].
    constructor; [|exact Hb]. intros [H1 H2].
    apply streq_eq in H1. apply nullable_eq_eq in H2. rewrite H1, H2 in E. discriminate.
Qed.

Lemma findReference_none (refUrl : jsstring) (refTitle : option jsstring)
    (links : list Link) :
  findReference refUrl refTitle links = None
  <-> Forall (fun l => ~ (url l = refUrl /\ title l = refTitle)) links.
Proof.
  unfold findReference. induction links as [|l links IH]; cbn [find].
  - split; [constructor|reflexivity].
  - destruct (streq (url l) refUrl && nullable_eq (title l) refTitle) eqn:E.
    + split; [discriminate|]. intros H. apply Forall_cons_iff in H as [H _].
      apply andb_true_iff in E as [E1 E2].
      apply streq_eq in E1. apply nullable_eq_eq in E2. elim H. now split.
    + rewrite IH. split.
      * intros H. constructor; [|exact H]. intros [H1 H2].
        apply streq_eq in H1. apply nullable_eq_eq in H2. rewrite H1, H2 in E. discriminate.
      * intros H. now apply Forall_cons_iff in H as [_ H].
Qed.

(** What [isValidLink] accepts: an [@] or a [:/] with a character other than
    a line terminator on either side. *)
Lemma isValidLink_spec (link : jsstring) :
  isValidLink link = true
  <-> exists before p sep n after,
      link = before ++ p :: sep ++ n :: after
      /\ (sep = lit "@" \/ sep = lit ":/")
      /\ dot p = true /\ dot n = true.
Proof.
  split.
  - induction link as [|c rest IH]; cbn [isValidLink]; [discriminate|].
    intros H. apply orb_true_iff in H as [H|H].
    + apply andb_true_iff in H as [Hc Hs]. unfold separatorThenDot in Hs.
      destruct rest as [|c1 [|c2 rest]]; try discriminate.
      apply orb_true_iff in Hs as [Hs|Hs].
      * apply andb_true_iff in Hs as [H1 H2]. apply N.eqb_eq in H1. subst c1.
        exists [], c, (lit "@"), c2, rest. repeat split; trivial. now left.
      * apply andb_true_iff in Hs as [H12 H3]. apply andb_true_iff in H12 as [H1 H2].
        apply N.eqb_eq in H1, H2. subst c1 c2.
        destruct rest as [|c3 rest]; [discriminate|].
        exists [], c, (lit ":/"), c3, rest. repeat split; trivial. now right.
    + destruct (IH H) as (before & p & sep & n & after & -> & Hsep & Hp & Hn).
      exists (c :: before), p, sep, n, after. repeat split; trivial.
  - intros (before & p & sep & n & after & -> & Hsep & Hp & Hn).
    induction before as [|b before IH]; cbn [app isValidLink].
    + rewrite Hp. destruct Hsep as [->| ->]; cbn; rewrite Hn; reflexivity.
    + rewrite IH. apply orb_true_r.
Qed.

(** C6 (as amended). The link producer prefers the first reference whose
    URL and title are exactly those of the anchor, emitting [[content]] when
    the lower-cased visible text is the reference name and
    [[content][name]] otherwise; with no such reference and a title it emits
    the inline form with the quoted title; the autolink form is used exactly
    when there is neither reference nor title, the visible text is the URL
    (possibly without a leading [mailto:]) and the URL contains an [@] or a
    [:/] with a character other than a line terminator on each side; in
    every other case it emits [[content](url)]. *)
Theorem link_replacement (content : jsstring) (node : Node) (links : list Link) :
  let refUrl := match getAttribute node (lit "href") with
                | Some u => u
                | None => []
                end in
  let refTitle := getAttribute node (lit "title") in
  let out := replacement_a toLowerCase content node links in
  (forall ref,
      findReference refUrl refTitle links = Some ref ->
      url ref = refUrl /\ title ref = refTitle
      /\ (toLowerCase content = name ref -> out = lit "[" ++ content ++ lit "]")
      /\ (toLowerCase content <> name ref ->
          out = lit "[" ++ content ++ lit "][" ++ name ref ++ lit "]"))
  /\ (forall t,
         findReference refUrl refTitle links = None -> refTitle = Some t ->
         out = lit "[" ++ content ++ lit "](" ++ refUrl ++ lit " " ++ [34%N] ++ t
                   ++ [34%N] ++ lit ")")
  /\ (out = lit "<" ++ content ++ lit ">"
      <-> findReference refUrl refTitle links = None /\ refTitle = None
          /\ (content = refUrl \/ content = stripMailto refUrl)
          /\ exists before p sep n after,
              refUrl = before ++ p :: sep ++ n :: after
              /\ (sep = lit "@" \/ sep = lit ":/")
              /\ dot p = true /\ dot n = true)
  /\ (findReference refUrl refTitle links = None -> refTitle = None ->
      out <> lit "<" ++ content ++ lit ">" ->
      out = lit "[" ++ content ++ lit "](" ++ refUrl ++ lit ")").
Proof.
  intros refUrl refTitle out.
  assert (Hout : out = replacement_a toLowerCase content node links) by reflexivity.
  unfold replacement_a in Hout. fold refUrl refTitle in Hout.
  split; [|split; [|split]].
  - intros ref Href. rewrite Href in Hout.
    destruct (findReference_first _ _ _ _ Href) as (Hu & Ht & _).
    repeat split; trivial.
    + intros E. apply streq_eq in E. now rewrite E in Hout.
    + intros E. apply streq_neq in E. now rewrite E in Hout.
  - intros t Hnone Ht. now rewrite Hnone, Ht in Hout.
  - rewrite <- isValidLink_spec. split.
    + intros E. rewrite Hout in E. clear Hout.
      destruct (findReference refUrl refTitle links) as [ref|].
      { destruct (streq (toLowerCase content) (name ref)); discriminate E. }
      destruct refTitle as [t|]; [discriminate E|].
      destruct (isValidLink refUrl) eqn:Hv; [|discriminate E].
      cbn [andb] in E.
      destruct (streq content refUrl) eqn:E1.
      { apply streq_eq in E1. repeat split; trivial. now left. }
      destruct (streq content (stripMailto refUrl)) eqn:E2; [|discriminate E].
      apply streq_eq in E2. repeat split; trivial. now right.
    + intros (Hnone & Ht & Heq & Hv). rewrite Hnone, Ht, Hv in Hout.
      assert (E : streq content refUrl || streq content (stripMailto refUrl) = true).
      { apply orb_true_iff. destruct Heq as [Heq|Heq]; [left|right]; now apply streq_eq. }
      now rewrite E in Hout.
  - intros Hnone Ht Hnot. rewrite Hnone, Ht in Hout.
    destruct (isValidLink refUrl
              && (streq content refUrl || streq content (stripMailto refUrl)));
      [contradiction|exact Hout].
Qed.

End Links.

Lemma link_replacement_witness :
  replacement_a asciiLowerCase (lit "Rocq")
    (element (lit "a") [(lit "href", lit "http://x"); (lit "title", lit "T")] [])
    [ {| url := lit "http://x"; title := Some (lit "T"); name := lit "rocq" |} ]
  = lit "[Rocq]".
Proof.
  pose proof (link_replacement asciiLowerCase (lit "Rocq")
    (element (lit "a") [(lit "href", lit "http://x"); (lit "title", lit "T")] [])
    [ {| url := lit "http://x"; title := Some (lit "T"); name := lit "rocq" |} ]) as H.
  cbv zeta in H. destruct H as [H _].
  destruct (H {| url := lit "http://x"; title := Some (lit "T"); name := lit "rocq" |}
              eq_refl) as (_ & _ & Hsame & _).
  exact (Hsame eq_refl).
Defined.

(** C6 as stated fails: the anchor [<a href="a:/b">a:/b</a>] is rendered as
    the autolink [<a:/b>] although its URL contains neither [@] nor [://]. *)
Lemma autolink_without_scheme_separator :
  replacement_a asciiLowerCase (lit "a:/b")
    (element (lit "a") [(lit "href", lit "a:/b")] []) []
  = lit "<a:/b>"
  /\ containsAtOrSchemeSeparator (lit "a:/b") = false.
Proof. split; reflexivity. Qed.

(** ** Task-list check boxes *)

Section Checkbox.

Variable toLowerCase : jsstring -> jsstring.
Variable wcwidth : jsstring -> Z.
Variable indent : jsstring -> jsstring -> jsstring.
Variables replacement_pre replacement_code replacement_li
  : jsstring -> Node -> Result jsstring.
Variable replacement_fallback : Node -> Result jsstring.

(** The entries of the rule table that precede the check-box entry. *)
Lemma checkbox_entry_position :
  exists later,
    Converters
    = firstn 10 Converters
        ++ rule (FilterFunction checkboxInListItem) false None P_checkbox :: later.
Proof. eexists. reflexivity. Qed.

Lemma findIn_skip (before after : list Converter) (node : Node) :
  Forall (fun earlier => canConvert node (filter earlier) = Ok false) before ->
  findIn (before ++ after) node = findIn after node.
Proof.
  induction 1 as [|c before Hc _ IH]; [reflexivity|].
  cbn [app findIn]. now rewrite Hc.
Qed.

(** Once the entries before it are passed, the check-box entry matches a
    node whose type tag is [checkbox] below an li element, and its producer
    looks at the checked flag only. *)
Lemma checkbox_after_earlier_rules (content : jsstring) (node : Node)
    (links : list Link) :
  type node = lit "checkbox" ->
  isElementNamed (parentNode node) (lit "li") = true ->
  Forall (fun earlier => canConvert node (filter earlier) = Ok false)
         (firstn 10 Converters) ->
  findConverter node
  = Ok (Some (rule (FilterFunction checkboxInListItem) false None P_checkbox))
  /\ produce toLowerCase wcwidth indent replacement_pre replacement_code
       replacement_li replacement_fallback P_checkbox content node links
     = Ok (if checked node then lit "[x] " else lit "[ ] ").
Proof.
  intros Htype Hparent Hearlier. split.
  - unfold findConverter. destruct checkbox_entry_position as [later ->].
    rewrite (findIn_skip _ _ _ Hearlier). cbn [findIn rule filter canConvert applyFilterFn].
    rewrite Htype, streq_refl. cbn [andb].
    unfold isElementNamed in Hparent.
    destruct (parentNode node) as [parent|]; [|discriminate].
    apply andb_true_iff in Hparent as [H1 H2].
    cbn [isElement]. rewrite H1, H2. reflexivity.
  - cbn. unfold replacement_checkbox. now destruct (checked node).
Qed.

(** For a node that is not an element, no tag-name rule applies: only the
    rule of its parent matters. *)
Lemma no_earlier_rule_for_non_elements (node : Node) :
  isElementNode node = false ->
  applyFilterFn parentUsesFallback node = false ->
  Forall (fun earlier => canConvert node (filter earlier) = Ok false)
         (firstn 10 Converters).
Proof.
  intros Hne Hp.
  unfold Converters. cbn [firstn].
  repeat constructor; cbn [rule filter canConvert]; rewrite ?Hp;
    cbn [applyFilterFn isElement]; rewrite ?Hne; reflexivity.
Qed.

(** No entry before the check-box one is about the tag name [input]. *)
Lemma no_earlier_rule_for_input (node : Node) :
  tagName node = lit "input" ->
  applyFilterFn parentUsesFallback node = false ->
  Forall (fun earlier => canConvert node (filter earlier) = Ok false)
         (firstn 10 Converters).
Proof.
  intros Htag Hp.
  unfold Converters. cbn [firstn].
  repeat constructor; cbn [rule filter canConvert]; rewrite ?Hp;
    cbn [applyFilterFn]; rewrite ?Htag;
    destruct (isElement (Some node)); reflexivity.
Qed.

(** An li element never resolves to the catch-all rule: its own entry comes
    first. *)
Lemma li_does_not_fall_back (parent : Node) (converter : Converter) :
  isElementNode parent = true -> tagName parent = lit "li" ->
  findConverter parent = Ok (Some converter) ->
  isFallback (filter converter) = false.
Proof.
  intros He Htag.
  assert (Himg : applyFilterFn plainImage parent = false)
    by (cbn [applyFilterFn isElement]; rewrite He, Htag; reflexivity).
  assert (Hdiv : applyFilterFn highlightDiv parent = false)
    by (cbn [applyFilterFn isElement]; rewrite He, Htag; reflexivity).
  unfold findConverter, Converters.
  cbn [findIn rule filter canConvert bind isElement].
  rewrite He, Htag, Himg, Hdiv.
  destruct (applyFilterFn parentUsesFallback parent);
    [intros H; inversion H; reflexivity|].
  destruct (applyFilterFn checkboxInListItem parent);
    intros H; cbn in H; inversion H; reflexivity.
Qed.

(** C10. A node whose type tag is [checkbox] and whose parent is an li
    element resolves to the check-box rule, which renders [[x] ] when the
    checked flag is set and [[ ] ] otherwise, whatever the assembled content.
    The node is one the tree can hold: elements have the type tag [tag],
    [script] or [style], so a check box is not an element, or else it is the
    element named [input]; and the rule its parent carries, if any, is the
    one [findConverter] gave it, the only place where rules are attached. *)
Theorem checkbox_rendering (content : jsstring) (node parent : Node)
    (links : list Link) :
  type node = lit "checkbox" ->
  isElementNode node = false \/ tagName node = lit "input" ->
  parentNode node = Some parent ->
  isElementNode parent = true ->
  tagName parent = lit "li" ->
  (forall converter, _converter parent = Some converter ->
                     findConverter parent = Ok (Some converter)) ->
  exists converter,
    findConverter node = Ok (Some converter)
    /\ converter = rule (FilterFunction checkboxInListItem) false None P_checkbox
    /\ produce toLowerCase wcwidth indent replacement_pre replacement_code
         replacement_li replacement_fallback (replacement converter) content node links
       = Ok (if checked node then lit "[x] " else lit "[ ] ").
Proof.
  intros Htype Hshape Hp He Htag Hresolved.
  assert (Hnot : applyFilterFn parentUsesFallback node = false).
  { cbn [applyFilterFn]. rewrite Hp. unfold isConverterNode.
    destruct (_converter parent) as [c|]; [|reflexivity].
    cbn [andb]. exact (li_does_not_fall_back parent c He Htag (Hresolved c eq_refl)). }
  assert (Hli : isElementNamed (parentNode node) (lit "li") = true).
  { unfold isElementNamed. rewrite Hp, He, Htag. reflexivity. }
  assert (Hearlier : Forall (fun earlier => canConvert node (filter earlier) = Ok false)
                            (firstn 10 Converters)).
  { destruct Hshape as [Hne|Hinput].
    - now apply no_earlier_rule_for_non_elements.
    - now apply no_earlier_rule_for_input. }
  destruct (checkbox_after_earlier_rules content node links Htype Hli Hearlier)
    as [Hfind Hproduce].
  exists (rule (FilterFunction checkboxInListItem) false None P_checkbox).
  split; [exact Hfind|]. split; [reflexivity|exact Hproduce].
Qed.

End Checkbox.

Lemma checkbox_rendering_witness :
  exists converter,
    findConverter
      (withParentNode
         (mkNode (lit "checkbox") (lit "input") None None [] true None None None [] None)
         (converted (lit "li") (rule (FilterString (lit "li")) false (Some [10%N]) P_li)
                    [] [] [10%N]))
    = Ok (Some converter)
    /\ converter = rule (FilterFunction checkboxInListItem) false None P_checkbox
    /\ sampleProduce (replacement converter) (lit "ignored")
         (withParentNode
            (mkNode (lit "checkbox") (lit "input") None None [] true None None None [] None)
            (converted (lit "li") (rule (FilterString (lit "li")) false (Some [10%N]) P_li)
                       [] [] [10%N]))
         []
       = Ok (lit "[x] ").
Proof.
  apply (checkbox_rendering asciiLowerCase displayWidth (fun text _ => text)
           notModelled notModelled notModelled (notModelled [])
           (lit "ignored")
           (withParentNode
              (mkNode (lit "checkbox") (lit "input") None None [] true None None None [] None)
              (converted (lit "li") (rule (FilterString (lit "li")) false (Some [10%N]) P_li)
                         [] [] [10%N]))
           (converted (lit "li") (rule (FilterString (lit "li")) false (Some [10%N]) P_li)
                      [] [] [10%N])
           []).
  - reflexivity.
  - left. reflexivity.
  - reflexivity.
  - reflexivity.
  - reflexivity.
  - intros converter H. injection H as <-. reflexivity.
Defined.

(** ** Content assembly ([getContent]) *)

Section ContentAssembly.

Variable decodeHtmlEntities : jsstring -> jsstring.

Lemma forEach_app {A S : Type} (f : S -> A -> Result S) (xs ys : list A) (s : S) :
  forEach f (xs ++ ys) s = bind (forEach f xs s) (forEach f ys).
Proof.
  revert s. induction xs as [|x xs IH]; intros s; cbn [app forEach bind]; [reflexivity|].
  destruct (f s x) as [s'|m]; cbn [bind]; [apply IH|reflexivity].
Qed.

Lemma newlineRun_repeat (k : nat) (rest : jsstring) :
  match rest with c :: _ => c <> 10%N | [] => True end ->
  newlineRun (repeat 10%N k ++ rest) = k.
Proof.
  intros Hrest. induction k as [|k IH]; cbn [repeat app newlineRun].
  - destruct rest as [|c rest]; [reflexivity|]. cbn [newlineRun].
    destruct (N.eqb_spec c 10); [contradiction|reflexivity].
  - now rewrite IH.
Qed.

Lemma skipn_repeat_app {A : Type} (x : A) (k : nat) (rest : list A) :
  skipn k (repeat x k ++ rest) = rest.
Proof. induction k as [|k IH]; [reflexivity|exact IH]. Qed.

Lemma newlineRun_3 (s : jsstring) :
  (3 <= newlineRun s)%nat -> startsWith [10%N; 10%N; 10%N] s = true.
Proof.
  destruct s as [|a [|b [|c s]]]; cbn [newlineRun startsWith];
    repeat match goal with
           | |- context [(?x =? 10)%N] => destruct (N.eqb_spec x 10); subst
           end; cbn; lia || reflexivity.
Qed.

(** [collapseNewlines] rewrites the first run of three or more newlines, and
    nothing else: what precedes the run holds no such run, and what follows
    it is kept as it is, later runs included. *)
Lemma collapseNewlines_first_run (before : jsstring) (k : nat) (after : jsstring) :
  includes [10%N; 10%N; 10%N] before = false ->
  last before 0%N <> 10%N ->
  (3 <= k)%nat ->
  match after with c :: _ => c <> 10%N | [] => True end ->
  collapseNewlines (before ++ repeat 10%N k ++ after)
  = before ++ [10%N; 10%N] ++ after.
Proof.
  intros Hfree Hlast Hk Hafter. induction before as [|c before IH].
  - cbn [app]. destruct k as [|k]; [lia|].
    change (repeat 10%N (S k) ++ after) with (10%N :: (repeat 10%N k ++ after)).
    cbn [collapseNewlines].
    change (10%N :: (repeat 10%N k ++ after)) with (repeat 10%N (S k) ++ after).
    rewrite newlineRun_repeat by exact Hafter.
    destruct (Nat.leb_spec 3 (S k)); [|lia].
    now rewrite skipn_repeat_app.
  - cbn [app collapseNewlines].
    destruct (Nat.leb_spec 3 (newlineRun (c :: before ++ repeat 10%N k ++ after)))
      as [Hrun|Hrun].
    + exfalso. apply newlineRun_3 in Hrun.
      cbn [includes] in Hfree. apply orb_false_iff in Hfree as [Hstart _].
      destruct before as [|b [|d before]]; cbn [app startsWith] in Hrun, Hstart.
      * apply andb_true_iff in Hrun as [Hc _]. apply N.eqb_eq in Hc.
        cbn in Hlast. congruence.
      * apply andb_true_iff in Hrun as [_ Hrun].
        apply andb_true_iff in Hrun as [Hb _]. apply N.eqb_eq in Hb.
        cbn in Hlast. congruence.
      * cbn [app startsWith] in *. congruence.
    + f_equal. apply IH.
      * cbn [includes] in Hfree. now apply orb_false_iff in Hfree as [_ Hfree].
      * destruct before as [|b before]; [cbn; discriminate|exact Hlast].
Qed.

Lemma collapseNewlines_no_run (s : jsstring) :
  includes [10%N; 10%N; 10%N] s = false -> collapseNewlines s = s.
Proof.
  induction s as [|c s IH]; [reflexivity|]. intros Hfree.
  cbn [collapseNewlines].
  destruct (Nat.leb_spec 3 (newlineRun (c :: s))) as [Hrun|Hrun].
  - apply newlineRun_3 in Hrun. cbn [includes] in Hfree.
    apply orb_false_iff in Hfree as [Hstart _]. congruence.
  - f_equal. apply IH. cbn [includes] in Hfree.
    now apply orb_false_iff in Hfree as [_ Hfree].
Qed.

(** C9 (as amended). While the content of a parent is assembled, the text
    inserted between two adjacent siblings is the leading white space of the
    current child followed by the trailing white space of the previous
    sibling, in which the first run of three or more newlines is replaced by
    two newlines. *)
Theorem getContent_separator (before : list Node) (previous child : Node)
    (content childText : jsstring) :
  forEach (appendChild decodeHtmlEntities) (before ++ [previous]) ([], None)
  = Ok (content, Some previous) ->
  getChildText decodeHtmlEntities child = Ok childText ->
  forEach (appendChild decodeHtmlEntities) (before ++ [previous; child]) ([], None)
  = Ok ((if isElementNamed (Some child) (lit "br") then trimRight content else content)
          ++ whitespaceBetween previous child
          ++ (if isElementNamed (Some previous) (lit "br")
              then trimLeft childText else childText),
        Some child)
  /\ whitespaceBetween previous child
     = collapseNewlines (leadingOf child ++ trailingOf previous)
  /\ (includes [10%N; 10%N; 10%N] (leadingOf child ++ trailingOf previous) = false ->
      whitespaceBetween previous child = leadingOf child ++ trailingOf previous)
  /\ (forall spaces k rest,
         leadingOf child ++ trailingOf previous = spaces ++ repeat 10%N k ++ rest ->
         includes [10%N; 10%N; 10%N] spaces = false ->
         last spaces 0%N <> 10%N ->
         (3 <= k)%nat ->
         match rest with c :: _ => c <> 10%N | [] => True end ->
         whitespaceBetween previous child = spaces ++ [10%N; 10%N] ++ rest).
Proof.
  intros Hbefore Htext. split; [|split; [|split]].
  - change (before ++ [previous; child]) with (before ++ [previous] ++ [child]).
    rewrite app_assoc, forEach_app, Hbefore. cbn [bind forEach appendChild].
    rewrite Htext. cbn [bind]. now rewrite <- app_assoc.
  - reflexivity.
  - apply collapseNewlines_no_run.
  - intros spaces k rest Heq Hfree Hlast Hk Hrest.
    unfold whitespaceBetween. rewrite Heq.
    now apply collapseNewlines_first_run.
Qed.

End ContentAssembly.

(** C9 as stated fails: in [<li><em>a </em><ul>..</ul></li>] the em leaves a
    trailing space and the list asks for a blank line before it; the
    separator is the blank line followed by the space, not the space
    followed by the blank line. *)
Lemma separator_puts_leading_first :
  let em := converted (lit "em") (rule (FilterArray [lit "em"; lit "i"]) false None P_em)
                      (lit "_a_") [] (lit " ") in
  let ul := converted (lit "ul") (rule (FilterArray [lit "ul"; lit "ol"]) true None P_list)
                      (lit "- b") [10%N; 10%N] [10%N; 10%N] in
  let li := element (lit "li") [] [em; ul] in
  getContent (fun text => text) li = Ok (lit "_a_" ++ [10%N; 10%N; 32%N] ++ lit "- b")
  /\ separatorAsSpecified em ul = [32%N; 10%N; 10%N]
  /\ whitespaceBetween em ul <> separatorAsSpecified em ul.
Proof. cbv zeta. repeat split. discriminate. Qed.

Lemma getContent_separator_witness :
  let em := converted (lit "em") (rule (FilterArray [lit "em"; lit "i"]) false None P_em)
                      (lit "_a_") [] (lit " ") in
  let p := converted (lit "p") (rule (FilterString (lit "p")) true None P_p)
                     (lit "b") [10%N; 10%N] [10%N; 10%N] in
  forEach (appendChild (fun text => text)) ([p] ++ [em; p]) ([], None)
  = Ok (lit "b" ++ [10%N; 10%N] ++ lit "_a_" ++ [10%N; 10%N; 32%N] ++ lit "b", Some p).
Proof.
  cbv zeta.
  apply (proj1 (getContent_separator (fun text => text)
    [converted (lit "p") (rule (FilterString (lit "p")) true None P_p)
               (lit "b") [10%N; 10%N] [10%N; 10%N]]
    (converted (lit "em") (rule (FilterArray [lit "em"; lit "i"]) false None P_em)
               (lit "_a_") [] (lit " "))
    (converted (lit "p") (rule (FilterString (lit "p")) true None P_p)
               (lit "b") [10%N; 10%N] [10%N; 10%N])
    (lit "b" ++ [10%N; 10%N] ++ lit "_a_") (lit "b") eq_refl eq_refl)).
Defined.

(** ** Tables: rows and alignments ([extractRows]) *)

Section TableRows.

Lemma size_children (node : Node) : size node = S (totalSize (childrenOf node)).
Proof.
  destruct node as [? ? ? children ? ? ? ? ? ? ?]. unfold childrenOf. cbn.
  destruct children as [children|]; reflexivity.
Qed.

Lemma totalSize_app (xs ys : list Node) :
  totalSize (xs ++ ys) = (totalSize xs + totalSize ys)%nat.
Proof.
  induction xs as [|x xs IH]; [reflexivity|].
  cbn [app totalSize fold_right]. fold (totalSize (xs ++ ys)). fold (totalSize xs). lia.
Qed.

Lemma totalSize_filter (f : Node -> bool) (xs : list Node) :
  (totalSize (List.filter f xs) <= totalSize xs)%nat.
Proof.
  induction xs as [|x xs IH]; [reflexivity|].
  cbn [List.filter]. destruct (f x); cbn [totalSize fold_right];
    fold (totalSize xs); fold (totalSize (List.filter f xs)); lia.
Qed.

(** One pass over the children of a queued element: the rows among them are
    read in order, the other elements are queued. *)
Lemma forEach_visitChild (children : list Node) (st : TableState) (queue : list Node) :
  forEach visitChild children (st, queue)
  = bind (forEach addRow (List.filter isRow children) st)
         (fun st' => Ok (st', queue ++ List.filter isContainer children)).
Proof.
  revert st queue. induction children as [|c children IH]; intros st queue.
  - cbn. now rewrite app_nil_r.
  - cbn [forEach List.filter].
    assert (Hv : visitChild (st, queue) c
                 = if isRow c then st' <- addRow st c ;; Ok (st', queue)
                   else if isElementNode c then Ok (st, queue ++ [c])
                   else Ok (st, queue)) by reflexivity.
    assert (Hc : isContainer c = negb (isRow c) && isElementNode c) by reflexivity.
    rewrite Hv, Hc. destruct (isRow c); cbn [negb andb].
    + cbn [forEach]. destruct (addRow st c) as [st'|m]; cbn [bind]; [apply IH|reflexivity].
    + destruct (isElementNode c); cbn [bind].
      * rewrite IH, <- app_assoc. reflexivity.
      * apply IH.
Qed.

(** With one unit of fuel per node the queue loop never runs dry, and it
    reads the rows in queue order. *)
Lemma extractRows_loop_rows (fuel : nat) (inqueue : list Node) (st : TableState) :
  (totalSize inqueue <= fuel)%nat ->
  extractRows_loop fuel inqueue st
  = Some (forEach addRow (rowsInOrder fuel inqueue) st).
Proof.
  revert inqueue st. induction fuel as [|fuel IH]; intros inqueue st Hfuel.
  - destruct inqueue as [|elem queue]; [reflexivity|].
    cbn [totalSize fold_right] in Hfuel. rewrite size_children in Hfuel. lia.
  - destruct inqueue as [|elem queue]; [reflexivity|].
    cbn [extractRows_loop rowsInOrder].
    assert (Hpass : match childNodes elem with
                    | Some children => forEach visitChild children (st, queue)
                    | None => Ok (st, queue)
                    end
                    = bind (forEach addRow (List.filter isRow (childrenOf elem)) st)
                        (fun st' => Ok (st', queue ++ List.filter isContainer (childrenOf elem)))).
    { unfold childrenOf. destruct (childNodes elem) as [children|].
      - apply forEach_visitChild.
      - cbn. now rewrite app_nil_r. }
    rewrite Hpass, forEach_app.
    destruct (forEach addRow (List.filter isRow (childrenOf elem)) st) as [st'|m];
      cbn [bind]; [|reflexivity].
    apply IH. cbn [totalSize fold_right] in Hfuel. fold (totalSize queue) in Hfuel.
    rewrite size_children in Hfuel. rewrite totalSize_app.
    pose proof (totalSize_filter isContainer (childrenOf elem)). lia.
Qed.

Lemma extractRows_loop_table (table : Node) :
  extractRows_loop (size table) [table] ([], [])
  = Some (forEach addRow (tableRows table) ([], [])).
Proof.
  apply extractRows_loop_rows. cbn. lia.
Qed.

Lemma nth_error_app_Some {A : Type} (xs ys : list A) (i : nat) (x : A) :
  nth_error xs i = Some x -> nth_error (xs ++ ys) i = Some x.
Proof.
  intros H. rewrite nth_error_app1; [exact H|].
  apply nth_error_Some. congruence.
Qed.

Lemma alignment_eq_eq (a b : option Alignment) : alignment_eq a b = true <-> a = b.
Proof.
  destruct a as [[| |]|], b as [[| |]|]; cbn; split; congruence.
Qed.

(** The alignment loop over one row succeeds exactly by extending the known
    alignments with the columns that are new, the others being equal. *)
Lemma mergeAlignments_ok (rowAlignments : list (option Alignment)) :
  forall (i : nat) (alignments merged : list (option Alignment)),
    (i <= length alignments)%nat ->
    mergeAlignments i rowAlignments alignments = Ok merged ->
    (exists new, merged = alignments ++ new)
    /\ (forall j a, nth_error rowAlignments j = Some a ->
                    nth_error merged (i + j) = Some a)
    /\ (forall j a, nth_error merged j = Some a -> nth_error alignments j = None ->
                    (i <= j)%nat /\ nth_error rowAlignments (j - i) = Some a).
Proof.
  induction rowAlignments as [|alignment rest IH]; intros i alignments merged Hi Hm.
  - cbn in Hm. injection Hm as <-. split; [exists []; now rewrite app_nil_r|].
    split; [intros [|j] a H; discriminate|].
    intros j a H1 H2. congruence.
  - cbn [mergeAlignments] in Hm.
    set (known := if (length alignments <? i + 1)%nat
                  then alignments ++ [alignment] else alignments) in Hm.
    assert (Hknown : (exists new, known = alignments ++ new)
                     /\ (S i <= length known)%nat
                     /\ (nth_error alignments i = None ->
                         known = alignments ++ [alignment] /\ length alignments = i)).
    { unfold known. destruct (Nat.ltb_spec (length alignments) (i + 1)).
      - split; [now exists [alignment]|]. split; [rewrite length_app; cbn; lia|].
        intros _. split; [reflexivity|lia].
      - split; [exists []; now rewrite app_nil_r|]. split; [lia|].
        intros H0. apply nth_error_None in H0. lia. }
    destruct Hknown as ([new Hnew] & Hlen & Hfresh).
    destruct (nth_error known i) as [k|] eqn:Ek; [|discriminate].
    destruct (alignment_eq alignment k) eqn:Eeq; [|discriminate].
    apply alignment_eq_eq in Eeq. subst k.
    destruct (IH (S i) known merged Hlen Hm) as ([new' Hprefix] & Hrow & Horigin).
    assert (Hat : nth_error merged i = Some alignment).
    { rewrite Hprefix, nth_error_app1 by lia. exact Ek. }
    split; [|split].
    + exists (new ++ new'). now rewrite Hprefix, Hnew, app_assoc.
    + intros [|j] a Hj.
      * cbn in Hj. injection Hj as <-. now rewrite Nat.add_0_r.
      * cbn in Hj. rewrite Nat.add_succ_r. exact (Hrow j a Hj).
    + intros j a Hj Hnone.
      destruct (Nat.eq_dec j i) as [->|Hne].
      * rewrite Hat in Hj. injection Hj as <-.
        rewrite Nat.sub_diag. split; [lia|reflexivity].
      * assert (Hj' : nth_error known j = None).
        { destruct (nth_error alignments i) eqn:Ei.
          - apply nth_error_None in Hnone. apply nth_error_None.
            assert (length alignments > i)%nat
              by (apply nth_error_Some; congruence).
            unfold known.
            destruct (Nat.ltb_spec (length alignments) (i + 1)); [lia|exact Hnone].
          - destruct (Hfresh eq_refl) as [-> Hl]. apply nth_error_None.
            apply nth_error_None in Hnone. rewrite length_app. cbn. lia. }
        destruct (Horigin j a Hj Hj') as [Hle Hin]. split; [lia|].
        replace (j - i)%nat with (S (j - S i))%nat by lia. exact Hin.
Qed.

(** After the rows have been read without error, the alignment of every
    cell of every row is the one recorded for its column. *)
Lemma forEach_addRow_agree (rows : list Node) :
  forall (st st' : TableState),
    forEach addRow rows st = Ok st' ->
    (exists new, fst st' = fst st ++ new)
    /\ (forall row, In row rows ->
          exists alignments,
            rowAlignments row = Some alignments
            /\ forall j a, nth_error alignments j = Some a ->
                           nth_error (fst st') j = Some a).
Proof.
  induction rows as [|row rows IH]; intros st st' H.
  - cbn in H. injection H as <-. split; [exists []; now rewrite app_nil_r|].
    intros row [].
  - cbn [forEach] in H. unfold addRow at 1 in H.
    destruct (extractColumns row) as [[columns alignments]|m] eqn:Erow;
      cbn [bind fst snd] in H; [|discriminate].
    destruct (mergeAlignments 0 alignments (fst st)) as [merged|m] eqn:Em;
      cbn [bind] in H; [|discriminate].
    destruct (mergeAlignments_ok _ _ _ _ (Nat.le_0_l _) Em) as ([new Hnew] & Hrow & _).
    destruct (IH _ _ H) as ([new' Hnew'] & Hrest). cbn [fst] in Hnew'.
    split.
    + exists (new ++ new'). now rewrite Hnew', Hnew, app_assoc.
    + intros r [<-|Hin]; [|exact (Hrest r Hin)].
      exists alignments. unfold rowAlignments. rewrite Erow. split; [reflexivity|].
      intros j a Hj. rewrite Hnew'. apply nth_error_app_Some.
      exact (Hrow j a Hj).
Qed.

(** Each recorded alignment comes from the first row that has a cell in
    that column. *)
Lemma forEach_addRow_first (rows : list Node) :
  forall (st st' : TableState) (j : nat) (a : option Alignment),
    forEach addRow rows st = Ok st' ->
    nth_error (fst st') j = Some a ->
    nth_error (fst st) j = None ->
    exists k row alignments,
      nth_error rows k = Some row
      /\ rowAlignments row = Some alignments
      /\ nth_error alignments j = Some a
      /\ forall k' row', (k' < k)%nat -> nth_error rows k' = Some row' ->
           exists alignments',
             rowAlignments row' = Some alignments' /\ (length alignments' <= j)%nat.
Proof.
  induction rows as [|row rows IH]; intros st st' j a H Hj Hnone.
  - cbn in H. injection H as <-. congruence.
  - cbn [forEach] in H. unfold addRow at 1 in H.
    destruct (extractColumns row) as [[columns alignments]|m] eqn:Erow;
      cbn [bind fst snd] in H; [|discriminate].
    destruct (mergeAlignments 0 alignments (fst st)) as [merged|m] eqn:Em;
      cbn [bind] in H; [|discriminate].
    destruct (mergeAlignments_ok _ _ _ _ (Nat.le_0_l _) Em) as (_ & Hrow & Horigin).
    destruct (forEach_addRow_agree _ _ _ H) as ([new' Hnew'] & _). cbn [fst] in Hnew'.
    assert (Hra : rowAlignments row = Some alignments)
      by (unfold rowAlignments; now rewrite Erow).
    destruct (nth_error merged j) as [b|] eqn:Eb.
    + assert (b = a).
      { rewrite Hnew' in Hj. rewrite (nth_error_app_Some _ _ _ _ Eb) in Hj. congruence. }
      subst b. destruct (Horigin j a Eb Hnone) as [_ Hin]. rewrite Nat.sub_0_r in Hin.
      exists O, row, alignments. repeat split; trivial. intros k' row' Hk. lia.
    + destruct (IH _ _ j a H Hj Eb) as (k & r & als & Hk & Hr & Ha & Hearlier).
      exists (S k), r, als. repeat split; trivial.
      intros [|k'] row' Hlt Hrow'.
      * cbn in Hrow'. injection Hrow' as <-. exists alignments. split; [exact Hra|].
        destruct (nth_error alignments j) as [c|] eqn:Ec.
        -- specialize (Hrow j c Ec). cbn in Hrow. congruence.
        -- now apply nth_error_None.
      * cbn in Hrow'. apply (Hearlier k' row'); [lia|exact Hrow'].
Qed.

Lemma popNulls_suffix (n : nat) (reversed : list (option Alignment)) :
  exists dropped, reversed = dropped ++ popNulls n reversed.
Proof.
  revert reversed. induction n as [|n IH]; intros reversed; [now exists []|].
  destruct reversed as [|[a|] rest]; cbn [popNulls]; try (now exists []).
  destruct (IH rest) as [dropped Hd]. exists (None :: dropped). cbn. now rewrite <- Hd.
Qed.

Lemma dropTrailingNulls_prefix (alignments : list (option Alignment)) (header : nat)
    (i : nat) (a : option Alignment) :
  nth_error (dropTrailingNulls alignments header) i = Some a ->
  nth_error alignments i = Some a.
Proof.
  unfold dropTrailingNulls.
  destruct (popNulls_suffix (length alignments - header) (rev alignments)) as [dropped Hd].
  intros H. rewrite <- (rev_involutive alignments), Hd, rev_app_distr.
  now apply nth_error_app_Some.
Qed.

Lemma trimLeft_spaces (spaces rest : jsstring) :
  Forall (fun c => isWhiteSpace c = true) spaces ->
  match rest with c :: _ => isWhiteSpace c = false | [] => True end ->
  trimLeft (spaces ++ rest) = rest.
Proof.
  intros Hs Hr. induction Hs as [|c spaces Hc _ IH]; cbn [app trimLeft].
  - destruct rest as [|c rest]; [reflexivity|]. cbn [trimLeft]. now rewrite Hr.
  - now rewrite Hc.
Qed.

(** The alignment of a cell is the keyword of its [text-align] declaration,
    white space after the colon being allowed. *)
Lemma getCellAlignment_declared (node : Node) (spaces rest : jsstring)
    (keyword : jsstring) (alignment : Alignment) :
  In (keyword, alignment)
     [(lit "right", AlignRight); (lit "left", AlignLeft); (lit "center", AlignCenter)] ->
  Forall (fun c => isWhiteSpace c = true) spaces ->
  getAttribute node (lit "style") = Some (lit "text-align:" ++ spaces ++ keyword ++ rest) ->
  getCellAlignment node = Some alignment.
Proof.
  intros Hk Hs Hstyle. unfold getCellAlignment. rewrite Hstyle.
  assert (Htrim : trimLeft (spaces ++ keyword ++ rest) = keyword ++ rest).
  { apply trimLeft_spaces; [exact Hs|].
    destruct Hk as [E|[E|[E|[]]]]; injection E as <- _; reflexivity. }
  change (lit "text-align:" ++ spaces ++ keyword ++ rest)
    with (lit "text-align:" ++ (spaces ++ keyword ++ rest)).
  assert (Hmatch : forall tail,
             matchTextAlign (lit "text-align:" ++ tail) 
             = match alignmentKeyword (trimLeft tail) with
               | Some a => Some a
               | None => matchTextAlign (skipn 1 (lit "text-align:" ++ tail))
               end) by reflexivity.
  rewrite Hmatch, Htrim.
  destruct Hk as [E|[E|[E|[]]]]; injection E as <- <-; reflexivity.
Qed.

(** A row made of converted cells only is read cell by cell. *)
Lemma extractColumns_cells (row : Node) (cells : list Node) :
  childNodes row = Some cells ->
  Forall (fun cell => isElementNode cell = true
                      /\ In (tagName cell) [lit "th"; lit "td"]
                      /\ isConverterNode (Some cell) = true) cells ->
  extractColumns row = Ok (map _replacement cells, map getCellAlignment cells).
Proof.
  intros Hc Hcells. unfold extractColumns. rewrite Hc.
  enough (G : forall columns alignments,
             forEach
               (fun '(columns, alignments) column =>
                  if isElementNode column
                     && existsb (streq (tagName column)) [lit "th"; lit "td"]
                     && isConverterNode (Some column)
                  then Ok (columns ++ [_replacement column],
                           alignments ++ [getCellAlignment column])
                  else if isTextNode column
                  then Err (lit "Cannot handle "
                            ++ (if isElementNode column then tagName column else lit "false")
                            ++ lit " in table row")
                  else Ok (columns, alignments))
               cells (columns, alignments)
             = Ok (columns ++ map _replacement cells,
                   alignments ++ map getCellAlignment cells))
    by exact (G [] []).
  clear Hc. induction Hcells as [|cell cells (He & Htag & Hconv) _ IH]; intros columns alignments.
  - cbn. now rewrite !app_nil_r.
  - cbn [forEach map]. rewrite He, Hconv.
    assert (Hex : existsb (streq (tagName cell)) [lit "th"; lit "td"] = true).
    { apply existsb_exists. exists (tagName cell). split; [exact Htag|apply streq_refl]. }
    rewrite Hex. cbn [andb bind]. rewrite IH, <- !app_assoc. reflexivity.
Qed.

(** The alignment loop over one row goes through when the row agrees with
    what is known already. *)
Lemma mergeAlignments_succeeds (rowAlignments : list (option Alignment)) :
  forall (i : nat) (alignments : list (option Alignment)),
    (i <= length alignments)%nat ->
    (forall j a b, nth_error rowAlignments j = Some a ->
                   nth_error alignments (i + j) = Some b -> a = b) ->
    exists merged, mergeAlignments i rowAlignments alignments = Ok merged.
Proof.
  induction rowAlignments as [|alignment rest IH]; intros i alignments Hi Hagree.
  - now exists alignments.
  - cbn [mergeAlignments].
    destruct (Nat.ltb_spec (length alignments) (i + 1)) as [Hnew|Hold].
    + assert (Hlen : length alignments = i) by lia.
      rewrite nth_error_app2 by lia. rewrite Hlen, Nat.sub_diag. cbn [nth_error].
      assert (Hsame : alignment_eq alignment alignment = true) by now apply alignment_eq_eq.
      rewrite Hsame. apply IH.
      * rewrite length_app. cbn. lia.
      * intros j a b _ Hb.
        assert (Hnone : nth_error (alignments ++ [alignment]) (S i + j) = None)
          by (apply nth_error_None; rewrite length_app; cbn; lia).
        congruence.
    + destruct (nth_error alignments i) as [known|] eqn:Ek;
        [|apply nth_error_None in Ek; lia].
      assert (Hsame : alignment_eq alignment known = true).
      { apply alignment_eq_eq. apply (Hagree O alignment known); [reflexivity|].
        now rewrite Nat.add_0_r. }
      rewrite Hsame. apply IH; [lia|].
      intros j a b Ha Hb. apply (Hagree (S j) a b); [exact Ha|].
      now rewrite Nat.add_succ_r.
Qed.

(** Rows that can be read and that agree with each other, and with the
    alignments known so far, are all taken in. *)
Lemma forEach_addRow_succeeds (rows : list Node) :
  forall st : TableState,
    (forall row, In row rows -> rowAlignments row <> None) ->
    (forall row alignments j a b,
        In row rows -> rowAlignments row = Some alignments ->
        nth_error alignments j = Some a -> nth_error (fst st) j = Some b -> a = b) ->
    (forall row1 row2 aligns1 aligns2 j a b,
        In row1 rows -> In row2 rows ->
        rowAlignments row1 = Some aligns1 -> rowAlignments row2 = Some aligns2 ->
        nth_error aligns1 j = Some a -> nth_error aligns2 j = Some b -> a = b) ->
    exists st', forEach addRow rows st = Ok st'.
Proof.
  induction rows as [|row rows IH]; intros st Hread Hknown Hpair; [now exists st|].
  cbn [forEach]. unfold addRow at 1.
  assert (Hrow : exists columns alignments,
             extractColumns row = Ok (columns, alignments)
             /\ rowAlignments row = Some alignments).
  { specialize (Hread row (or_introl eq_refl)). unfold rowAlignments in *.
    destruct (extractColumns row) as [[columns alignments]|m]; [|now elim Hread].
    now exists columns, alignments. }
  destruct Hrow as (columns & alignments & Ecols & Hra). rewrite Ecols. cbn [bind fst snd].
  destruct (mergeAlignments_succeeds alignments O (fst st) (Nat.le_0_l _)) as [merged Em].
  { intros j a b Ha Hb. exact (Hknown row alignments j a b (or_introl eq_refl) Hra Ha Hb). }
  rewrite Em. cbn [bind].
  destruct (mergeAlignments_ok _ _ _ _ (Nat.le_0_l _) Em) as ([new Hnew] & _ & Horigin).
  apply IH.
  - intros r Hin. apply Hread. now right.
  - intros r als j a b Hin Hr Ha Hb. cbn [fst] in Hb.
    destruct (nth_error (fst st) j) as [b'|] eqn:Eb.
    + assert (b' = b).
      { rewrite Hnew in Hb. rewrite (nth_error_app_Some _ _ _ _ Eb) in Hb. congruence. }
      subst b'. exact (Hknown r als j a b (or_intror Hin) Hr Ha Eb).
    + destruct (Horigin j b Hb Eb) as [_ Hfrom]. rewrite Nat.sub_0_r in Hfrom.
      exact (Hpair r row als alignments j a b (or_intror Hin) (or_introl eq_refl)
               Hr Hra Ha Hfrom).
  - intros r1 r2 als1 als2 j a b H1 H2. apply Hpair; now right.
Qed.

Lemma forEach_addRow_count (rows : list Node) :
  forall (st st' : TableState),
    forEach addRow rows st = Ok st' ->
    length (snd st') = (length (snd st) + length rows)%nat.
Proof.
  induction rows as [|row rows IH]; intros st st' H.
  - cbn in H. injection H as <-. cbn. lia.
  - cbn [forEach] in H. unfold addRow at 1 in H.
    destruct (extractColumns row) as [[columns alignments]|m];
      cbn [bind fst snd] in H; [|discriminate].
    destruct (mergeAlignments 0 alignments (fst st)) as [merged|m];
      cbn [bind] in H; [|discriminate].
    rewrite (IH _ _ H). cbn [snd length]. rewrite length_app. cbn. lia.
Qed.

Lemma popNulls_dropped (n : nat) (reversed : list (option Alignment)) :
  exists dropped,
    reversed = dropped ++ popNulls n reversed
    /\ Forall (fun a => a = None) dropped
    /\ (length dropped <= n)%nat.
Proof.
  revert reversed. induction n as [|n IH]; intros reversed.
  - exists []. repeat split; [constructor|cbn; lia].
  - destruct reversed as [|[a|] rest]; cbn [popNulls];
      try (exists []; repeat split; [constructor|cbn; lia]).
    destruct (IH rest) as (dropped & Hd & Hnone & Hlen).
    exists (None :: dropped). split; [cbn; now rewrite <- Hd|].
    split; [now constructor|cbn; lia].
Qed.

(** The final loop of [extractRows] only takes away alignments that are
    [null] and lie beyond the header row. *)
Lemma dropTrailingNulls_keeps (alignments : list (option Alignment)) (header : nat)
    (i : nat) (a : option Alignment) :
  nth_error alignments i = Some a ->
  nth_error (dropTrailingNulls alignments header) i = Some a
  \/ (a = None /\ (header <= i)%nat
      /\ nth_error (dropTrailingNulls alignments header) i = None).
Proof.
  unfold dropTrailingNulls. intros Hi.
  destruct (popNulls_dropped (length alignments - header) (rev alignments))
    as (dropped & Hd & Hnone & Hlen).
  set (kept := rev (popNulls (length alignments - header) (rev alignments))).
  assert (Hsplit : alignments = kept ++ rev dropped).
  { unfold kept. rewrite <- (rev_involutive alignments) at 1.
    rewrite Hd at 1. now rewrite rev_app_distr. }
  assert (Hlength : length alignments = (length kept + length dropped)%nat)
    by (rewrite Hsplit at 1; now rewrite length_app, length_rev).
  destruct (Nat.lt_ge_cases i (length kept)) as [Hin|Hout].
  - left. rewrite Hsplit, nth_error_app1 in Hi by exact Hin. exact Hi.
  - right. rewrite Hsplit, nth_error_app2 in Hi by exact Hout.
    apply nth_error_In in Hi. apply in_rev in Hi.
    rewrite Forall_forall in Hnone. split; [exact (Hnone a Hi)|].
    split; [|now apply nth_error_None].
    destruct dropped as [|d dropped]; [destruct Hi|]. cbn [length] in *. lia.
Qed.

(** A cell without a style attribute has no alignment. *)
Lemma getCellAlignment_unstyled (node : Node) :
  getAttribute node (lit "style") = None -> getCellAlignment node = None.
Proof. intros H. unfold getCellAlignment. now rewrite H. Qed.

(** C8. [extractRows] reads each column's alignment from the [text-align]
    declaration of the style attribute of its cells: a table whose rows can
    be read and agree column by column is accepted, and every alignment a
    cell declares stands at its column index in the result (an absent
    alignment beyond the header row may be trimmed instead); each alignment
    of the result is that of the first row, in reading order, that holds a
    cell at that column index; and whenever two rows carry different
    alignment values at the same column index [extractRows] fails with an
    error, returning nothing.  Its queue loop always comes to an end. *)
Theorem extractRows_alignments (table : Node) :
  (tableRows table <> [] ->
   (forall row, In row (tableRows table) -> rowAlignments row <> None) ->
   (forall row1 row2 aligns1 aligns2 i a1 a2,
       In row1 (tableRows table) -> In row2 (tableRows table) ->
       rowAlignments row1 = Some aligns1 -> rowAlignments row2 = Some aligns2 ->
       nth_error aligns1 i = Some a1 -> nth_error aligns2 i = Some a2 ->
       a1 = a2) ->
   exists alignments header rest,
     extractRows table = Ok (alignments, header :: rest)
     /\ length (header :: rest) = length (tableRows table)
     /\ forall row rowAligns i a,
         In row (tableRows table) -> rowAlignments row = Some rowAligns ->
         nth_error rowAligns i = Some a ->
         nth_error alignments i = Some a
         \/ (a = None /\ (length header <= i)%nat /\ nth_error alignments i = None))
  /\ (forall alignments rows i a,
      extractRows table = Ok (alignments, rows) ->
      nth_error alignments i = Some a ->
      exists k row rowAligns,
        nth_error (tableRows table) k = Some row
        /\ rowAlignments row = Some rowAligns
        /\ nth_error rowAligns i = Some a
        /\ forall k' row', (k' < k)%nat -> nth_error (tableRows table) k' = Some row' ->
             exists earlier,
               rowAlignments row' = Some earlier /\ (length earlier <= i)%nat)
  /\ (forall row1 row2 aligns1 aligns2 i a1 a2,
         In row1 (tableRows table) -> In row2 (tableRows table) ->
         rowAlignments row1 = Some aligns1 -> rowAlignments row2 = Some aligns2 ->
         nth_error aligns1 i = Some a1 -> nth_error aligns2 i = Some a2 ->
         a1 <> a2 ->
         exists message, extractRows table = Err message)
  /\ (forall row cells,
         childNodes row = Some cells ->
         Forall (fun cell => isElementNode cell = true
                             /\ In (tagName cell) [lit "th"; lit "td"]
                             /\ isConverterNode (Some cell) = true) cells ->
         rowAlignments row = Some (map getCellAlignment cells))
  /\ (forall cell spaces rest keyword alignment,
         In (keyword, alignment)
            [(lit "right", AlignRight); (lit "left", AlignLeft);
             (lit "center", AlignCenter)] ->
         Forall (fun c => isWhiteSpace c = true) spaces ->
         getAttribute cell (lit "style")
         = Some (lit "text-align:" ++ spaces ++ keyword ++ rest) ->
         getCellAlignment cell = Some alignment)
  /\ (forall cell,
         getAttribute cell (lit "style") = None -> getCellAlignment cell = None)
  /\ extractRows_loop (size table) [table] ([], []) <> None.
Proof.
  split; [|split; [|split; [|split; [|split; [|split]]]]].
  - intros Hrows Hread Hpair.
    destruct (forEach_addRow_succeeds (tableRows table) ([], []) Hread) as [[recorded rs] E].
    { intros row als j a b _ _ _ Hb. now destruct j. }
    { exact Hpair. }
    pose proof (forEach_addRow_count _ _ _ E) as Hcount. cbn [snd length Nat.add] in Hcount.
    destruct rs as [|header rs].
    { destruct (tableRows table); [now elim Hrows|discriminate]. }
    exists (dropTrailingNulls recorded (length header)), header, rs.
    split; [|split].
    + unfold extractRows. rewrite extractRows_loop_table, E. reflexivity.
    + exact Hcount.
    + intros row rowAligns i a Hin Hra Hi.
      destruct (forEach_addRow_agree _ _ _ E) as (_ & Hagree).
      destruct (Hagree row Hin) as (als & Hals & Hrec). cbn [fst] in Hrec.
      rewrite Hra in Hals. injection Hals as <-.
      apply dropTrailingNulls_keeps. exact (Hrec i a Hi).
  - intros alignments rows i a Hok Hi. unfold extractRows in Hok.
    rewrite extractRows_loop_table in Hok.
    destruct (forEach addRow (tableRows table) ([], [])) as [[recorded rs]|m] eqn:E;
      [|discriminate].
    destruct rs as [|header rs]; [discriminate|]. injection Hok as <- <-.
    apply dropTrailingNulls_prefix in Hi.
    apply (forEach_addRow_first _ _ _ i a E Hi). now destruct i.
  - intros row1 row2 aligns1 aligns2 i a1 a2 Hin1 Hin2 Hr1 Hr2 H1 H2 Hne.
    unfold extractRows. rewrite extractRows_loop_table.
    destruct (forEach addRow (tableRows table) ([], [])) as [[recorded rs]|m] eqn:E;
      [|now exists m].
    exfalso. destruct (forEach_addRow_agree _ _ _ E) as (_ & Hagree).
    destruct (Hagree row1 Hin1) as (als1 & Ha1 & Hrec1).
    destruct (Hagree row2 Hin2) as (als2 & Ha2 & Hrec2).
    rewrite Hr1 in Ha1. rewrite Hr2 in Ha2. injection Ha1 as <-. injection Ha2 as <-.
    specialize (Hrec1 i a1 H1). specialize (Hrec2 i a2 H2). congruence.
  - intros row cells Hc Hcells. unfold rowAlignments.
    now rewrite (extractColumns_cells row cells Hc Hcells).
  - intros cell spaces rest keyword alignment.
    apply getCellAlignment_declared.
  - apply getCellAlignment_unstyled.
  - rewrite extractRows_loop_table. discriminate.
Qed.

End TableRows.

Lemma extractRows_alignments_witness :
  let row1 := element (lit "tr") []
                [tableCell (lit "text-align:right") (lit "a"); tableCell [] (lit "b")] in
  let row2 := element (lit "tr") []
                [tableCell (lit "text-align: right") (lit "c"); tableCell [] (lit "d")] in
  let row3 := element (lit "tr") [] [tableCell (lit "text-align:left") (lit "e")] in
  (exists alignments header rest,
      extractRows (element (lit "table") [] [element (lit "tbody") [] [row1; row2]])
      = Ok (alignments, header :: rest)
      /\ length (header :: rest)
         = length (tableRows (element (lit "table") [] [element (lit "tbody") [] [row1; row2]]))
      /\ forall row rowAligns i a,
          In row (tableRows (element (lit "table") [] [element (lit "tbody") [] [row1; row2]])) ->
          rowAlignments row = Some rowAligns ->
          nth_error rowAligns i = Some a ->
          nth_error alignments i = Some a
          \/ (a = None /\ (length header <= i)%nat /\ nth_error alignments i = None))
  /\ (exists k row rowAligns,
      nth_error (tableRows (element (lit "table") [] [element (lit "tbody") [] [row1; row2]])) k
      = Some row
      /\ rowAlignments row = Some rowAligns
      /\ nth_error rowAligns 0 = Some (Some AlignRight)
      /\ forall k' row', (k' < k)%nat ->
           nth_error (tableRows (element (lit "table") [] [element (lit "tbody") [] [row1; row2]])) k'
           = Some row' ->
           exists earlier,
             rowAlignments row' = Some earlier /\ (length earlier <= 0)%nat)
  /\ (exists message,
      extractRows (element (lit "table") [] [element (lit "tbody") [] [row1; row3]])
      = Err message)
  /\ getCellAlignment (tableCell (lit "text-align: right") (lit "c")) = Some AlignRight.
Proof.
  cbv zeta. split; [|split; [|split]].
  - apply (proj1 (extractRows_alignments _)).
    + discriminate.
    + intros row [<-|[<-|[]]]; discriminate.
    + intros r1 r2 als1 als2 i a1 a2 [<-|[<-|[]]] [<-|[<-|[]]] H1 H2;
        vm_compute in H1, H2; injection H1 as <-; injection H2 as <-;
        destruct i as [|[|i]]; cbn; congruence.
  - apply (proj1 (proj2 (extractRows_alignments _)) [Some AlignRight; None]
             [[lit "a"; lit "b"]; [lit "c"; lit "d"]] O (Some AlignRight));
      reflexivity.
  - apply (proj1 (proj2 (proj2 (extractRows_alignments _)))
             (element (lit "tr") []
                [tableCell (lit "text-align:right") (lit "a"); tableCell [] (lit "b")])
             (element (lit "tr") [] [tableCell (lit "text-align:left") (lit "e")])
             [Some AlignRight; None] [Some AlignLeft] O (Some AlignRight) (Some AlignLeft)).
    + left. reflexivity.
    + right. left. reflexivity.
    + reflexivity.
    + reflexivity.
    + reflexivity.
    + reflexivity.
    + discriminate.
  - apply (proj1 (proj2 (proj2 (proj2 (proj2 (extractRows_alignments
             (element (lit "table") [] []))))))
             (tableCell (lit "text-align: right") (lit "c")) (lit " ") [] (lit "right")
             AlignRight).
    + left. reflexivity.
    + repeat constructor.
    + reflexivity.
Defined.

(** ** Tables: column widths and padding ([getColumnWidths], [formatRow]) *)

Section TableLayout.

Variable wcwidth : jsstring -> Z.

Lemma widen_nth (columnWidths : list Z) :
  forall (row : list jsstring) (i : nat),
    nth_error (widen wcwidth columnWidths row) i
    = match nth_error columnWidths i with
      | Some w => Some (match nth_error row i with
                        | Some column => Z.max (wcwidth column) w
                        | None => w
                        end)
      | None => None
      end.
Proof.
  induction columnWidths as [|w ws IH]; intros row i.
  - cbn. now destruct i.
  - destruct row as [|column row]; cbn [widen].
    + destruct (nth_error (w :: ws) i); [now destruct i|reflexivity].
    + destruct i as [|i]; [reflexivity|]. cbn [nth_error]. apply IH.
Qed.

Lemma widen_length (columnWidths : list Z) (row : list jsstring) :
  length (widen wcwidth columnWidths row) = length columnWidths.
Proof.
  revert row. induction columnWidths as [|w ws IH]; intros [|column row];
    cbn [widen length]; try reflexivity. now rewrite IH.
Qed.

(** Folding the rows in leaves, in every column, the maximum of the initial
    width and of the display widths of the cells of that column. *)
Lemma fold_widen (rows : list (list jsstring)) :
  forall (columnWidths : list Z) (i : nat) (w : Z),
    nth_error columnWidths i = Some w ->
    exists w',
      nth_error (fold_left (widen wcwidth) rows columnWidths) i = Some w'
      /\ (w <= w')%Z
      /\ (forall row column, In row rows -> nth_error row i = Some column ->
                             (wcwidth column <= w')%Z)
      /\ (w' = w
          \/ exists row column,
              In row rows /\ nth_error row i = Some column /\ w' = wcwidth column).
Proof.
  induction rows as [|row rows IH]; intros columnWidths i w Hw.
  - exists w. cbn. repeat split; trivial; [lia|intros ? ? []|now left].
  - cbn [fold_left].
    pose proof (widen_nth columnWidths row i) as Hstep. rewrite Hw in Hstep.
    destruct (IH _ _ _ Hstep) as (w' & Hnth & Hle & Hmax & Hwit).
    exists w'. split; [exact Hnth|]. destruct (nth_error row i) as [column|] eqn:Ecol.
    + split; [lia|]. split.
      * intros r c [<-|Hin] Hc; [|exact (Hmax r c Hin Hc)].
        rewrite Ecol in Hc. injection Hc as <-. lia.
      * destruct Hwit as [->|(r & c & Hin & Hc & ->)].
        -- destruct (Z.max_spec (wcwidth column) w) as [[_ ->]|[_ ->]]; [now left|].
           right. exists row, column. repeat split; trivial. now left.
        -- right. exists r, c. repeat split; trivial. now right.
    + split; [lia|]. split.
      * intros r c [<-|Hin] Hc; [congruence|exact (Hmax r c Hin Hc)].
      * destruct Hwit as [->|(r & c & Hin & Hc & ->)]; [now left|].
        right. exists r, c. repeat split; trivial. now right.
Qed.

Lemma fold_widen_length (rows : list (list jsstring)) (columnWidths : list Z) :
  length (fold_left (widen wcwidth) rows columnWidths) = length columnWidths.
Proof.
  revert columnWidths. induction rows as [|row rows IH]; intros ws; [reflexivity|].
  cbn [fold_left]. now rewrite IH, widen_length.
Qed.

(** [getColumnWidths]: one width per header cell, the largest display width
    found in that column, and at least the header cell's length. *)
Lemma getColumnWidths_max (header : list jsstring) (rest : list (list jsstring)) :
  exists widths,
    getColumnWidths wcwidth (header :: rest) = Ok widths
    /\ length widths = length header
    /\ forall i cell,
        nth_error header i = Some cell ->
        exists w,
          nth_error widths i = Some w
          /\ (Z.of_nat (length cell) <= w)%Z
          /\ (forall row column, In row (header :: rest) ->
                                 nth_error row i = Some column ->
                                 (wcwidth column <= w)%Z)
          /\ (w = Z.of_nat (length cell)
              \/ exists row column,
                  In row (header :: rest) /\ nth_error row i = Some column
                  /\ w = wcwidth column).
Proof.
  eexists. split; [reflexivity|]. split.
  - now rewrite fold_widen_length, length_map.
  - intros i cell Hcell.
    apply (fold_widen (header :: rest)
             (map (fun c => Z.of_nat (length c)) header) i (Z.of_nat (length cell))).
    unfold jsstring in *. rewrite nth_error_map, Hcell. reflexivity.
Qed.

Lemma pad_text_first (text : jsstring) (w : Z) (c : char) :
  (wcwidth text <= w)%Z ->
  pad wcwidth (VString text) (VNumber (Some w)) c
  = Ok (text ++ repeatChar c (Z.to_nat (w - wcwidth text))).
Proof.
  intros H. unfold pad. cbn [toNumber sub repeatString].
  destruct (Z.ltb_spec (w - wcwidth text) 0); [lia|reflexivity].
Qed.

Lemma pad_length_first (text : jsstring) (w : Z) (c : char) :
  (wcwidth text <= w)%Z ->
  pad wcwidth (VNumber (Some w)) (VString text) c
  = Ok (repeatChar c (Z.to_nat (w - wcwidth text)) ++ text).
Proof.
  intros H. unfold pad. cbn [toNumber sub repeatString].
  destruct (Z.ltb_spec (w - wcwidth text) 0); [lia|reflexivity].
Qed.

(** Left and default alignment: the cell is padded on the right up to the
    column width. *)
Lemma formatCell_left (alignments : list (option Alignment)) (columnWidths : list Z)
    (column : jsstring) (i : nat) (w : Z) :
  alignmentAt alignments i = None \/ alignmentAt alignments i = Some AlignLeft ->
  nth_error columnWidths i = Some w -> (wcwidth column <= w)%Z ->
  formatCell wcwidth alignments columnWidths column i
  = Ok (column ++ repeatChar 32%N (Z.to_nat (w - wcwidth column))).
Proof.
  intros Ha Hw Hle. unfold formatCell, widthAt. rewrite Hw.
  destruct Ha as [-> | ->]; now apply pad_text_first.
Qed.

(** Right alignment: the cell is padded on the left. *)
Lemma formatCell_right (alignments : list (option Alignment)) (columnWidths : list Z)
    (column : jsstring) (i : nat) (w : Z) :
  alignmentAt alignments i = Some AlignRight ->
  nth_error columnWidths i = Some w -> (wcwidth column <= w)%Z ->
  formatCell wcwidth alignments columnWidths column i
  = Ok (repeatChar 32%N (Z.to_nat (w - wcwidth column)) ++ column).
Proof.
  intros Ha Hw Hle. unfold formatCell, widthAt. rewrite Hw, Ha.
  now apply pad_length_first.
Qed.

(** Center alignment, for a cell whose display width is its length: the
    padding is split, the rounded-down half going to the left. *)
Lemma formatCell_center_narrow (alignments : list (option Alignment))
    (columnWidths : list Z) (column : jsstring) (i : nat) (w : Z) :
  alignmentAt alignments i = Some AlignCenter ->
  nth_error columnWidths i = Some w ->
  wcwidth column = Z.of_nat (length column) ->
  (forall n, wcwidth (repeatChar 32%N n ++ column) = (Z.of_nat n + wcwidth column)%Z) ->
  (wcwidth column <= w)%Z ->
  formatCell wcwidth alignments columnWidths column i
  = Ok (repeatChar 32%N (Z.to_nat ((w - wcwidth column) / 2)) ++ column
          ++ repeatChar 32%N (Z.to_nat (w - wcwidth column - (w - wcwidth column) / 2))).
Proof.
  intros Ha Hw Hnarrow Hspaces Hle. unfold formatCell, widthAt. rewrite Hw, Ha.
  cbn [toNumber sub floorHalf ceilHalf add]. rewrite <- Hnarrow.
  set (gap := (w - wcwidth column)%Z).
  assert (Hgap : (0 <= gap)%Z) by (unfold gap; lia).
  clearbody gap.
  assert (Hhalf : (0 <= gap / 2 <= gap)%Z)
    by (split; [apply Z.div_pos; lia|apply Z.div_le_upper_bound; lia]).
  assert (Hside : (wcwidth column <= gap / 2 + wcwidth column)%Z) by lia.
  rewrite (pad_length_first column _ 32%N Hside). cbn [bind].
  replace (gap / 2 + wcwidth column - wcwidth column)%Z with (gap / 2)%Z by lia.
  assert (Hceil : (- (- gap / 2) = gap - gap / 2)%Z).
  { pose proof (Z.div_mod gap 2 ltac:(lia)). pose proof (Z.mod_pos_bound gap 2 ltac:(lia)).
    pose proof (Z.div_mod (- gap) 2 ltac:(lia)).
    pose proof (Z.mod_pos_bound (- gap) 2 ltac:(lia)). lia. }
  assert (Hleft : wcwidth (repeatChar 32%N (Z.to_nat (gap / 2)) ++ column)
                  = (gap / 2 + wcwidth column)%Z)
    by (rewrite Hspaces; lia).
  assert (Hlen : Z.of_nat (length (repeatChar 32%N (Z.to_nat (gap / 2)) ++ column))
                 = (gap / 2 + wcwidth column)%Z).
  { rewrite length_app. unfold repeatChar. rewrite repeat_length, Nat2Z.inj_add. lia. }
  rewrite Hlen, Hceil, pad_text_first by (rewrite Hleft; lia).
  rewrite Hleft, <- app_assoc.
  replace (gap - gap / 2 + (gap / 2 + wcwidth column) - (gap / 2 + wcwidth column))%Z
    with (gap - gap / 2)%Z by lia.
  reflexivity.
Qed.

(** [formatRow] joins the padded cells: with [ | ] between them, or [| ]
    before a single one, and trims the end of the line. *)
Lemma formatRow_join (row : list jsstring) (alignments : list (option Alignment))
    (columnWidths : list Z) (cells : list jsstring) :
  mapIndexed (formatCell wcwidth alignments columnWidths) 0 row = Ok cells ->
  formatRow wcwidth row alignments columnWidths
  = Ok (trimRight (match cells with
                   | [] => lit "| undefined"
                   | [cell] => lit "| " ++ cell
                   | _ => join (lit " | ") cells
                   end)).
Proof.
  intros H. unfold formatRow. rewrite H. cbn [bind]. unfold joinColumns.
  destruct cells as [|c1 [|c2 cells]]; reflexivity.
Qed.

(** C7, where the code departs from it.  A centred cell is padded from its
    length in code units while [pad] measures display width: a centred cell
    of wide characters is padded short of its column width, and when it is
    the widest cell of its column the padding count is negative and
    [formatRow] throws. *)
Theorem formatRow_center_wide (zhong wen : char) :
  wcwidth [zhong; wen] = 4%Z -> wcwidth (lit "b") = 1%Z ->
  wcwidth [zhong] = 2%Z -> wcwidth [32%N; zhong] = 3%Z ->
  getColumnWidths wcwidth [[[zhong; wen]; lit "b"]] = Ok [4%Z; 1%Z]
  /\ formatRow wcwidth [[zhong; wen]; lit "b"] [Some AlignCenter; None] [4%Z; 1%Z]
     = Err (lit "RangeError: Invalid count value")
  /\ formatCell wcwidth [Some AlignCenter] [6%Z] [zhong] 0
     = Ok [32%N; zhong; 32%N; 32%N].
Proof.
  intros H2 Hb H1 Hs. unfold jsstring, char in *. cbv in Hb. repeat split.
  - cbv. rewrite H2. cbv. rewrite Hb. reflexivity.
  - cbv. rewrite H2. reflexivity.
  - cbv. rewrite H1. cbv. rewrite Hs. reflexivity.
Qed.

End TableLayout.

Lemma formatRow_center_wide_witness :
  getColumnWidths displayWidth [[[20013%N; 25991%N]; lit "b"]] = Ok [4%Z; 1%Z]
  /\ formatRow displayWidth [[20013%N; 25991%N]; lit "b"] [Some AlignCenter; None]
       [4%Z; 1%Z]
     = Err (lit "RangeError: Invalid count value")
  /\ formatCell displayWidth [Some AlignCenter] [6%Z] [20013%N] 0
     = Ok [32%N; 20013%N; 32%N; 32%N].
Proof.
  apply (formatRow_center_wide displayWidth 20013%N 25991%N); reflexivity.
Defined.

(* ================================================================== *)
(** * Part III: further properties of the code                         *)
(* ================================================================== *)

(** ** Heading repair, continued *)

Section HeadingRepairMore.

Lemma shiftRun_length (h g : number) (headers : list jsstring) :
  length (shiftRun h g headers) = length headers.
Proof.
  induction headers as [|tag rest IH]; [reflexivity|].
  cbn [shiftRun]. destruct (ge (headerDepthOf tag) h); cbn [length]; congruence.
Qed.

Lemma fixHeaders_loop_length (fuel : nat) :
  forall (r : number) (i : nat) (l : number) (headers fixed : list jsstring),
    fixHeaders_loop fuel r i l headers = Some fixed ->
    length fixed = length headers.
Proof.
  induction fuel as [|fuel IH]; intros r i l headers fixed; cbn [fixHeaders_loop];
    destruct (nth_error headers i) as [tag|]; try discriminate;
    try (intros H; injection H as <-; reflexivity).
  destruct (le r (headerDepthOf tag) && le (headerDepthOf tag) (add l (Some 1%Z))).
  - apply IH.
  - intros H. apply IH in H. rewrite H, length_app, shiftRun_length, <- length_app.
    now rewrite firstn_skipn.
Qed.

Lemma fixHeaders_loop_more_fuel (fuel : nat) :
  forall (extra : nat) (r : number) (i : nat) (l : number)
         (headers fixed : list jsstring),
    fixHeaders_loop fuel r i l headers = Some fixed ->
    fixHeaders_loop (fuel + extra) r i l headers = Some fixed.
Proof.
  induction fuel as [|fuel IH]; intros extra r i l headers fixed.
  - cbn [fixHeaders_loop]. destruct (nth_error headers i) as [tag|] eqn:E;
      [discriminate|]. intros H. injection H as <-.
    destruct (0 + extra)%nat; cbn [fixHeaders_loop]; now rewrite E.
  - cbn [Nat.add fixHeaders_loop]. destruct (nth_error headers i) as [tag|]; [|trivial].
    destruct (le r (headerDepthOf tag) && le (headerDepthOf tag) (add l (Some 1%Z)));
      apply IH.
Qed.

(** The loop leaves a sequence that satisfies the constraint as it is. *)
Lemma fixHeaders_loop_accepts (r : Z) (rest : list jsstring) :
  forall (pre : list jsstring) (l : Z) (depths : list Z) (extra : nat),
    map headerDepthOf rest = map Some depths ->
    wellNested r l depths ->
    fixHeaders_loop (length rest + extra) (Some r) (length pre) (Some l) (pre ++ rest)
    = Some (pre ++ rest).
Proof.
  induction rest as [|tag rest IH]; intros pre l depths extra Hmap Hwn.
  - rewrite app_nil_r. apply loop_exit.
  - destruct depths as [|d depths]; [discriminate|]. cbn [map] in Hmap.
    injection Hmap as Hd Hmap. destruct Hwn as [Hrange Hwn].
    cbn [length Nat.add]. rewrite (step_accept _ r l d) by trivial.
    rewrite (IH _ d depths extra Hmap Hwn), <- app_assoc. reflexivity.
Qed.

Lemma renameHeaders_nil (children : list Node) : renameHeaders children [] = children.
Proof.
  induction children as [|c children IH]; [reflexivity|].
  cbn [renameHeaders]. destruct (isTopLevelHeader c); [reflexivity|]. now rewrite IH.
Qed.

(** X1. A fragment without top-level headers is returned as it is, without
    a single iteration of the loop. *)
Theorem fixHeaders_no_headers (fuel : nat) (dom : Node) (ensureFirstHeaderIsH1 : bool) :
  topLevelHeaders dom = [] ->
  fixHeaders fuel dom ensureFirstHeaderIsH1 = Some dom.
Proof.
  intros Hnone. unfold fixHeaders. rewrite Hnone. cbn [map fixHeaderTags].
  destruct dom as [? ? ? children ? ? ? ? ? ? ?]. cbn [childNodes].
  destruct children as [children|]; [|reflexivity].
  rewrite renameHeaders_nil. reflexivity.
Qed.

Lemma fixHeaders_no_headers_witness :
  fixHeaders 0 (element (lit "root") []
                  [element (lit "p") [] [element (lit "h3") [] []]; textNode (lit "x")])
             true
  = Some (element (lit "root") []
            [element (lit "p") [] [element (lit "h3") [] []]; textNode (lit "x")]).
Proof.
  apply fixHeaders_no_headers. reflexivity.
Defined.

Lemma fixHeaderTags_accepts (headers : list jsstring) (depths : list Z)
    (ensureFirstHeaderIsH1 : bool) (extra : nat) :
  map headerDepthOf headers = map Some depths ->
  wellNested (if ensureFirstHeaderIsH1 then 1 else hd 1 depths)%Z
             ((if ensureFirstHeaderIsH1 then 1 else hd 1 depths) - 1)%Z depths ->
  fixHeaderTags (length headers + extra) headers ensureFirstHeaderIsH1 = Some headers.
Proof.
  intros Hmap Hwn. destruct headers as [|first rest]; [reflexivity|].
  destruct depths as [|d depths]; [discriminate|].
  unfold fixHeaderTags.
  assert (Hinit : initialDepth ensureFirstHeaderIsH1 (first :: rest)
                  = Some ((if ensureFirstHeaderIsH1 then 1 else d) - 1)%Z).
  { unfold initialDepth. destruct ensureFirstHeaderIsH1; [reflexivity|].
    cbn [map] in Hmap. injection Hmap as Hd _. rewrite Hd. cbn [sub orZero].
    destruct (d - 1)%Z; reflexivity. }
  rewrite Hinit. cbn [add hd] in *.
  replace ((if ensureFirstHeaderIsH1 then 1 else d) - 1 + 1)%Z
    with (if ensureFirstHeaderIsH1 then 1 else d)%Z by lia.
  exact (fixHeaders_loop_accepts _ (first :: rest) [] _ (d :: depths) extra Hmap Hwn).
Qed.

(** X2. A header sequence that already satisfies the constraint is left
    untouched: the loop accepts each header in one iteration. *)
Theorem fixHeaders_keeps_well_nested (headers : list jsstring) (depths : list Z)
    (ensureFirstHeaderIsH1 : bool) (extra : nat) :
  map headerDepthOf headers = map Some depths ->
  wellNested (if ensureFirstHeaderIsH1 then 1 else hd 1 depths)%Z
             ((if ensureFirstHeaderIsH1 then 1 else hd 1 depths) - 1)%Z depths ->
  fixHeaderTags (length headers + extra) headers ensureFirstHeaderIsH1 = Some headers.
Proof. apply fixHeaderTags_accepts. Qed.

Lemma fixHeaders_keeps_well_nested_witness :
  fixHeaderTags (4 + 0) [lit "h2"; lit "h3"; lit "h3"; lit "h2"] false
  = Some [lit "h2"; lit "h3"; lit "h3"; lit "h2"].
Proof.
  apply (fixHeaders_keeps_well_nested [lit "h2"; lit "h3"; lit "h3"; lit "h2"]
           [2; 3; 3; 2]%Z false 0).
  - reflexivity.
  - cbn. lia.
Defined.

(** X3. Repairing twice changes nothing more: the result of the repair is
    kept as it is by a second repair with the same setting. *)
Theorem fixHeaders_idempotent (fuel extra : nat) (headers fixed : list jsstring)
    (ensureFirstHeaderIsH1 : bool) :
  fixHeaderTags fuel headers ensureFirstHeaderIsH1 = Some fixed ->
  fixHeaderTags (length fixed + extra) fixed ensureFirstHeaderIsH1 = Some fixed.
Proof.
  intros Hrun.
  destruct headers as [|first rest].
  { cbn in Hrun. injection Hrun as <-. reflexivity. }
  (* a header that reads as NaN would have kept the loop from ending *)
  assert (Hnum : Forall numericTag (first :: rest)).
  { apply Forall_forall. intros tag Hin. apply numericTag_intro. intros Hnan.
    apply In_nth_error in Hin as [j Hj]. unfold fixHeaderTags in Hrun.
    rewrite (fixHeaders_loop_never_ends tag Hnan _ _ _ O _ _ (Nat.le_0_l _) Hj) in Hrun.
    discriminate. }
  pose proof Hnum as Hfirst. apply Forall_cons_iff in Hfirst as [[d [Hd Hdr]] _].
  set (r := if ensureFirstHeaderIsH1 then 1%Z else d).
  assert (Hinit : initialDepth ensureFirstHeaderIsH1 (first :: rest) = Some (r - 1)%Z).
  { unfold initialDepth, r. destruct ensureFirstHeaderIsH1; [reflexivity|].
    rewrite Hd. cbn [sub orZero]. destruct (d - 1)%Z; reflexivity. }
  assert (Hr : (0 <= r <= 9)%Z) by (unfold r; destruct ensureFirstHeaderIsH1; lia).
  destruct (loop_settles r Hr (length (first :: rest)) [] (first :: rest) (r - 1)%Z
              eq_refl Hnum)
    as (settled & depths & Hsettle & Hmap & Hlen & Hwn); [lia|].
  assert (Hsame : settled = fixed).
  { unfold fixHeaderTags in Hrun. rewrite Hinit in Hrun. cbn [add] in Hrun.
    replace (r - 1 + 1)%Z with r in Hrun by lia.
    apply (fixHeaders_loop_more_fuel _ (2 * length (first :: rest))) in Hrun.
    specialize (Hsettle fuel). cbn [length app] in Hsettle, Hrun.
    rewrite Nat.add_comm in Hrun. cbn [length] in Hrun. congruence. }
  subst settled.
  apply (fixHeaderTags_accepts fixed depths ensureFirstHeaderIsH1 extra Hmap).
  destruct depths as [|d0 depths]; [exact I|].
  unfold r in Hwn. destruct ensureFirstHeaderIsH1; [exact Hwn|].
  cbn [hd]. destruct Hwn as [Hrange Hwn]. assert (d0 = d) by lia. subst d0.
  split; [lia|exact Hwn].
Qed.

Lemma fixHeaders_idempotent_witness :
  fixHeaderTags (3 + 0) [lit "h1"; lit "h2"; lit "h2"] true
  = Some [lit "h1"; lit "h2"; lit "h2"].
Proof.
  apply (fixHeaders_idempotent 4 0 [lit "h1"; lit "h3"; lit "h3"]
           [lit "h1"; lit "h2"; lit "h2"] true).
  reflexivity.
Defined.

(** X4. When one of the collected headers has a tag name whose second
    character is not a decimal digit, the correction loop never ends,
    whatever the number of iterations allowed.  The pattern that collects
    the headers accepts such names. *)
Theorem fixHeaders_never_ends_on_non_numeric (fuel : nat) (headers : list jsstring)
    (tag : jsstring) (ensureFirstHeaderIsH1 : bool) :
  In tag headers -> headerDepthOf tag = NaN ->
  fixHeaderTags fuel headers ensureFirstHeaderIsH1 = None.
Proof.
  intros Hin Hnan. apply In_nth_error in Hin as [j Hj].
  destruct headers as [|first rest]; [now destruct j|].
  unfold fixHeaderTags.
  exact (fixHeaders_loop_never_ends tag Hnan _ _ _ O _ _ (Nat.le_0_l _) Hj).
Qed.

Lemma fixHeaders_never_ends_on_non_numeric_witness :
  isTopLevelHeader (element (lit "oh3") [] []) = true
  /\ fixHeaderTags 1000 [lit "h1"; lit "h2"; lit "oh3"; lit "h2"] true = None.
Proof.
  split; [reflexivity|].
  apply (fixHeaders_never_ends_on_non_numeric 1000 _ (lit "oh3") true).
  - right. right. left. reflexivity.
  - reflexivity.
Defined.

Lemma renameHeaders_shape (children : list Node) :
  forall tags,
    length tags = length (List.filter isTopLevelHeader children) ->
    Forall2 (fun child renamed =>
               if isTopLevelHeader child
               then exists tag, renamed = withTagName child tag
               else renamed = child)
            children (renameHeaders children tags).
Proof.
  induction children as [|c children IH]; intros tags Hlen; [constructor|].
  cbn [renameHeaders List.filter] in *. destruct (isTopLevelHeader c) eqn:E.
  - destruct tags as [|tag tags]; [discriminate|]. injection Hlen as Hlen.
    constructor; [rewrite E; now exists tag|now apply IH].
  - constructor; [now rewrite E|now apply IH].
Qed.

(** X5. On a fragment the repair renames top-level headers and nothing
    else: the children keep their number and order, every child that is
    not a top-level header stays as it is, and a header changes at most its
    tag name. *)
Theorem fixHeaders_renames_only_headers (fuel : nat) (dom fixed : Node)
    (children : list Node) (ensureFirstHeaderIsH1 : bool) :
  childNodes dom = Some children ->
  fixHeaders fuel dom ensureFirstHeaderIsH1 = Some fixed ->
  exists renamed,
    fixed = withChildNodes dom renamed
    /\ Forall2 (fun child new =>
                  if isTopLevelHeader child
                  then exists tag, new = withTagName child tag
                  else new = child)
               children renamed.
Proof.
  intros Hc Hfix. unfold fixHeaders in Hfix.
  destruct (fixHeaderTags fuel (map tagName (topLevelHeaders dom)) ensureFirstHeaderIsH1)
    as [tags|] eqn:Etags; [|discriminate].
  rewrite Hc in Hfix. injection Hfix as <-.
  exists (renameHeaders children tags). split; [reflexivity|].
  apply renameHeaders_shape.
  assert (Hlen : length tags = length (map tagName (topLevelHeaders dom))).
  { unfold fixHeaderTags in Etags.
    destruct (map tagName (topLevelHeaders dom)) as [|first rest] eqn:Eh.
    - now injection Etags as <-.
    - now apply fixHeaders_loop_length in Etags. }
  rewrite Hlen, length_map. unfold topLevelHeaders. now rewrite Hc.
Qed.

Lemma fixHeaders_renames_only_headers_witness :
  exists renamed,
    element (lit "root") []
      [element (lit "h1") [] []; textNode (lit "x"); element (lit "h1") [] []]
    = withChildNodes
        (element (lit "root") []
           [element (lit "h3") [] []; textNode (lit "x"); element (lit "h3") [] []])
        renamed
    /\ Forall2 (fun child new =>
                  if isTopLevelHeader child
                  then exists tag, new = withTagName child tag
                  else new = child)
               [element (lit "h3") [] []; textNode (lit "x"); element (lit "h3") [] []]
               renamed.
Proof.
  apply (fixHeaders_renames_only_headers 4 _ _ _ true); reflexivity.
Defined.

End HeadingRepairMore.

(** ** Content assembly and rule resolution, continued *)

Section ResolutionMore.

Variable decodeHtmlEntities : jsstring -> jsstring.
Variable toLowerCase : jsstring -> jsstring.
Variable wcwidth : jsstring -> Z.
Variable indent : jsstring -> jsstring -> jsstring.
Variables producer_pre producer_code producer_li : jsstring -> Node -> Result jsstring.
Variable producer_fallback : Node -> Result jsstring.

Lemma forEach_fails {A S : Type} (f : S -> A -> Result S) (x : A) (xs : list A) :
  In x xs -> (forall s, exists message, f s x = Err message) ->
  forall s, exists message, forEach f xs s = Err message.
Proof.
  intros Hin Hx. induction xs as [|y xs IH]; [destruct Hin|]. intros s.
  cbn [forEach]. destruct Hin as [->|Hin].
  - destruct (Hx s) as [m ->]. now exists m.
  - destruct (f s y) as [s'|m]; cbn [bind]; [now apply IH|now exists m].
Qed.

(** X6. Content assembly is all or nothing: a child that is neither a
    converted node nor a text node makes [getContent] of its parent fail,
    wherever the child stands among its siblings. *)
Theorem getContent_unsupported_child (node child : Node) (children : list Node) :
  isTextNode node = false ->
  childNodes node = Some children ->
  In child children ->
  isConverterNode (Some child) = false ->
  isTextNode child = false ->
  exists message, getContent decodeHtmlEntities node = Err message.
Proof.
  intros Hnode Hc Hin Hconv Htext. unfold getContent. rewrite Hnode, Hc.
  destruct (forEach_fails (appendChild decodeHtmlEntities) child children Hin)
    with (s := (@nil char, @None Node)) as [m Hm].
  - intros [content previous]. unfold appendChild, getChildText.
    rewrite Hconv, Htext. cbn [bind]. eauto.
  - rewrite Hm. cbn [bind]. now exists m.
Qed.

(** X7. Inside markup that fell to the catch-all rule nothing is converted:
    every child of a node that resolved to the catch-all rule resolves to the
    first entry of the table, whatever its tag, and that entry produces the
    empty string. *)
Theorem inside_unrecognized_markup (node parent : Node) (converter : Converter)
    (content : jsstring) (links : list Link) :
  parentNode node = Some parent ->
  _converter parent = Some converter ->
  filter converter = FilterFunction fallback ->
  exists first,
    findConverter node = Ok (Some first)
    /\ hd_error Converters = Some first
    /\ produce toLowerCase wcwidth indent producer_pre producer_code producer_li
         producer_fallback (replacement first) content node links
       = Ok [].
Proof.
  intros Hp Hc Hf. eexists. split; [|split; [reflexivity|reflexivity]].
  unfold findConverter, Converters. cbn [findIn rule filter canConvert applyFilterFn].
  unfold isConverterNode. rewrite Hp, Hc, Hf. reflexivity.
Qed.

(** X8. An image that carries any attribute besides alt, src and title is
    not rendered as a Markdown image: placed outside unrecognized markup, it
    resolves to the catch-all rule. *)
Theorem styled_image_falls_back (node : Node) :
  isElementNode node = true ->
  tagName node = lit "img" ->
  noExtraAttributes node [lit "alt"; lit "src"; lit "title"] = false ->
  applyFilterFn parentUsesFallback node = false ->
  streq (type node) (lit "checkbox") = false ->
  findConverter node = Ok (Some (rule (FilterFunction fallback) true None P_fallback)).
Proof.
  intros He Htag Hextra Hp Htype.
  unfold findConverter, Converters. cbn [findIn rule filter canConvert bind].
  rewrite Hp. unfold applyFilterFn. cbn [isElement].
  rewrite He, Htag, Hextra, Htype. reflexivity.
Qed.

(** X9. The heading rule writes as many [#] as the digit of the tag name
    says, a space and the content; on a node that is not an element it
    throws. *)
Theorem heading_hashes (content : jsstring) (node : Node) (level : Z) :
  (0 <= level <= 9)%Z ->
  tagName node = lit "h" ++ toString (Some level) ->
  (isElementNode node = true ->
   replacement_heading content node
   = Ok (repeatChar 35%N (Z.to_nat level) ++ lit " " ++ content))
  /\ (isElementNode node = false ->
      replacement_heading content node = Err (lit "Expected Element")).
Proof.
  intros Hl Htag. unfold replacement_heading. cbn [isElement]. split; intros ->.
  - fold (headerDepthOf (tagName node)). rewrite Htag, headerDepthOf_written by lia.
    destruct (level <=? 9)%Z eqn:E; [|apply Z.leb_gt in E; lia].
    unfold repeatString. destruct (Z.ltb_spec level 0); [lia|reflexivity].
  - reflexivity.
Qed.

End ResolutionMore.

Lemma getContent_unsupported_child_witness :
  exists message,
    getContent (fun text => text)
      (element (lit "p") []
         [textUnder (element (lit "p") [] []) (lit "a");
          mkNode (lit "directive") (lit "!doctype") None None [] false None None None [] None])
    = Err message.
Proof.
  apply (getContent_unsupported_child (fun text => text) _
           (mkNode (lit "directive") (lit "!doctype") None None [] false None None None
                   [] None)
           [textUnder (element (lit "p") [] []) (lit "a");
            mkNode (lit "directive") (lit "!doctype") None None [] false None None None
                   [] None]).
  - reflexivity.
  - reflexivity.
  - right. left. reflexivity.
  - reflexivity.
  - reflexivity.
Defined.

Lemma inside_unrecognized_markup_witness :
  exists first,
    findConverter
      (withParentNode (element (lit "em") [] [])
         (converted (lit "center") (rule (FilterFunction fallback) true None P_fallback)
                    [] [] []))
    = Ok (Some first)
    /\ hd_error Converters = Some first
    /\ sampleProduce (replacement first) (lit "text")
         (withParentNode (element (lit "em") [] [])
            (converted (lit "center") (rule (FilterFunction fallback) true None P_fallback)
                       [] [] []))
         []
       = Ok [].
Proof.
  apply (inside_unrecognized_markup asciiLowerCase displayWidth (fun text _ => text)
           notModelled notModelled notModelled (notModelled [])
           _ (converted (lit "center") (rule (FilterFunction fallback) true None P_fallback)
                        [] [] [])
           (rule (FilterFunction fallback) true None P_fallback));
    reflexivity.
Defined.

Lemma styled_image_falls_back_witness :
  findConverter (element (lit "img") [(lit "src", lit "a.png"); (lit "width", lit "10")] [])
  = Ok (Some (rule (FilterFunction fallback) true None P_fallback)).
Proof.
  apply styled_image_falls_back; reflexivity.
Defined.

Lemma heading_hashes_witness :
  replacement_heading (lit "Title") (element (lit "h3") [] [])
  = Ok (lit "### Title").
Proof.
  apply (proj1 (heading_hashes (lit "Title") (element (lit "h3") [] []) 3
                  ltac:(lia) eq_refl)).
  reflexivity.
Defined.

(** ** Attributes and text cleaning ([utils.ts]) *)

Section TextCleaning.

Variable decodeHtmlEntities : jsstring -> jsstring.

(** X10. [getAttribute] answers with the value of the first attribute of
    that name, and only when that value is not empty: a missing attribute
    and an empty one both read as [null]. *)
Theorem getAttribute_first (node : Node) (attribute value : jsstring) :
  getAttribute node attribute = Some value
  <-> value <> []
      /\ exists before after,
          getAttrList node = before ++ (attribute, value) :: after
          /\ Forall (fun attr => fst attr <> attribute) before.
Proof.
  unfold getAttribute. generalize (getAttrList node) as attrs.
  induction attrs as [|[n v] attrs IH]; cbn [find fst].
  - split; [discriminate|]. intros (_ & before & after & H & _).
    now destruct before.
  - destruct (streq n attribute) eqn:E.
    + apply streq_eq in E. subst n. split.
      * intros H. destruct v as [|c v]; [discriminate|]. injection H as <-.
        split; [discriminate|]. exists [], attrs. split; [reflexivity|constructor].
      * intros (Hne & before & after & H & Hb).
        destruct before as [|b before].
        -- cbn in H. injection H as ->. destruct value; [now elim Hne|reflexivity].
        -- cbn in H. injection H as <- _. apply Forall_cons_iff in Hb as [Hb _].
           now elim Hb.
    + apply streq_neq in E. rewrite IH. split.
      * intros (Hne & before & after & -> & Hb). split; [exact Hne|].
        exists ((n, v) :: before), after. split; [reflexivity|]. now constructor.
      * intros (Hne & before & after & H & Hb). split; [exact Hne|].
        destruct before as [|b before].
        -- cbn in H. injection H as -> _. now elim E.
        -- cbn in H. injection H as <- ->. apply Forall_cons_iff in Hb as [_ Hb].
           now exists before, after.
Qed.

Lemma getAttribute_first_witness :
  getAttribute
    (element (lit "a") [(lit "title", []); (lit "href", lit "x"); (lit "href", lit "y")] [])
    (lit "href")
  = Some (lit "x").
Proof.
  apply getAttribute_first. split; [discriminate|].
  exists [(lit "title", [])], [(lit "href", lit "y")]. split; [reflexivity|].
  repeat constructor. discriminate.
Defined.

(** X11. Inside code the text is left alone: for a text node whose parent
    is a [pre], or a [code] directly inside a [pre], [cleanText] returns the
    decoded text with its white space and punctuation untouched. *)
Theorem cleanText_verbatim_in_pre (node parent : Node) :
  parentNode node = Some parent ->
  isElementNode parent = true ->
  tagName parent = lit "pre"
  \/ (tagName parent = lit "code" /\ isElementNamed (parentNode parent) (lit "pre") = true) ->
  cleanText decodeHtmlEntities node = Ok (decodeHtmlEntities (getTextNodeContent node)).
Proof.
  intros Hp He Hpre. unfold cleanText. rewrite Hp. unfold isElementNamed at 1.
  rewrite He. destruct Hpre as [Htag|[Htag Hgrand]]; rewrite Htag.
  - reflexivity.
  - rewrite Hgrand. reflexivity.
Qed.

Lemma collapseWhiteSpace_singleSpaced (text : jsstring) :
  forall inRun, singleSpaced inRun (collapseWhiteSpace inRun text).
Proof.
  induction text as [|c text IH]; intros inRun; [exact I|].
  cbn [collapseWhiteSpace]. destruct (isWhiteSpace c) eqn:E.
  - destruct inRun; [apply IH|]. cbn [singleSpaced].
    change (isWhiteSpace 32%N) with true. cbn iota. repeat split. apply IH.
  - cbn [singleSpaced]. rewrite E. apply IH.
Qed.

Lemma singleSpaced_prepend (word : jsstring) :
  word <> [] -> Forall (fun c => isWhiteSpace c = false) word ->
  forall afterSpace text,
    singleSpaced false text -> singleSpaced afterSpace (word ++ text).
Proof.
  intros Hne Hword. induction Hword as [|c word Hc Hw IH]; [now elim Hne|].
  intros afterSpace text Ht. cbn [app singleSpaced]. rewrite Hc.
  destruct word as [|d word]; [exact Ht|]. apply IH; [discriminate|exact Ht].
Qed.

Lemma replaceAllChar_singleSpaced (c : char) (word : jsstring) :
  isWhiteSpace c = false -> word <> [] ->
  Forall (fun x => isWhiteSpace x = false) word ->
  forall text afterSpace,
    singleSpaced afterSpace text -> singleSpaced afterSpace (replaceAllChar c word text).
Proof.
  intros Hc Hne Hword. unfold replaceAllChar.
  induction text as [|x text IH]; intros afterSpace Ht; [exact I|].
  cbn [flat_map]. destruct (N.eqb_spec x c) as [->|Hx].
  - cbn [singleSpaced] in Ht. rewrite Hc in Ht.
    apply singleSpaced_prepend; trivial. now apply IH.
  - cbn [app singleSpaced] in *. destruct (isWhiteSpace x).
    + destruct Ht as (H1 & H2 & H3). repeat split; trivial. now apply IH.
    + now apply IH.
Qed.

Lemma replaceAllChar_removes (c : char) (word text : jsstring) :
  ~ In c word -> ~ In c (replaceAllChar c word text).
Proof.
  intros Hw. unfold replaceAllChar. induction text as [|x text IH]; [intros []|].
  cbn [flat_map]. intros Hin. apply in_app_or in Hin as [Hin|Hin]; [|now apply IH].
  destruct (N.eqb_spec x c) as [->|Hx]; [now apply Hw|].
  destruct Hin as [->|[]]. now elim Hx.
Qed.

Lemma replaceAllChar_keeps_out (c d : char) (word text : jsstring) :
  ~ In d word -> ~ In d text -> ~ In d (replaceAllChar c word text).
Proof.
  intros Hw. unfold replaceAllChar. induction text as [|x text IH]; intros Ht; [intros []|].
  cbn [flat_map]. intros Hin. apply in_app_or in Hin as [Hin|Hin].
  - destruct (N.eqb x c); [now apply Hw|]. destruct Hin as [->|[]]. apply Ht. now left.
  - apply IH; [|exact Hin]. intros H. apply Ht. now right.
Qed.

(** X12. Outside [pre], [cleanText] leaves white space only in the form of
    single spaces; outside [code] as well, its result holds no em dash, no
    curly quote and no ellipsis character. *)
Theorem cleanText_normalizes (node parent : Node) :
  parentNode node = Some parent ->
  isElementNamed (Some parent) (lit "pre") = false ->
  isElementNamed (parentNode parent) (lit "pre") = false ->
  exists text,
    cleanText decodeHtmlEntities node = Ok text
    /\ singleSpaced false text
    /\ (isElementNamed (Some parent) (lit "code") = false ->
        forall c, In c smartPunctuation -> ~ In c text).
Proof.
  intros Hp Hpre Hgrand. unfold cleanText. rewrite Hp, Hpre, Hgrand. cbn [orb negb].
  set (text := collapseWhiteSpace false (decodeHtmlEntities (getTextNodeContent node))).
  assert (Hs : singleSpaced false text) by apply collapseWhiteSpace_singleSpaced.
  assert (Hcode : isElementNode parent
                  && existsb (streq (tagName parent)) [lit "code"; lit "pre"]
                  = isElementNamed (Some parent) (lit "code")).
  { unfold isElementNamed in *. destruct (isElementNode parent); [|reflexivity].
    cbn [andb existsb] in *. rewrite Hpre. now rewrite orb_false_r. }
  rewrite Hcode. destruct (isElementNamed (Some parent) (lit "code")).
  - exists text. repeat split; trivial. discriminate.
  - eexists. split; [reflexivity|]. split.
    + repeat apply replaceAllChar_singleSpaced; trivial;
        try discriminate; repeat constructor.
    + intros _ c Hc. unfold smartPunctuation in Hc.
      repeat (destruct Hc as [<-|Hc];
              [repeat (first [ apply replaceAllChar_removes; cbn; intuition discriminate
                             | apply replaceAllChar_keeps_out;
                               [cbn; intuition discriminate|] ])|]).
      destruct Hc.
Qed.

End TextCleaning.

Lemma cleanText_verbatim_in_pre_witness :
  cleanText (fun text => text)
    (textUnder (withParentNode (element (lit "code") [] []) (element (lit "pre") [] []))
               (lit "a  b"))
  = Ok (lit "a  b").
Proof.
  apply (cleanText_verbatim_in_pre (fun text => text)
           (textUnder (withParentNode (element (lit "code") [] [])
                                      (element (lit "pre") [] []))
                      (lit "a  b"))
           (withParentNode (element (lit "code") [] []) (element (lit "pre") [] []))).
  - reflexivity.
  - reflexivity.
  - right. split; reflexivity.
Defined.

Lemma cleanText_normalizes_witness :
  exists text,
    cleanText (fun text => text)
      (textUnder (element (lit "p") [] []) ([8220%N] ++ lit "a" ++ [9%N; 10%N] ++ lit "b"
                                            ++ [8221%N; 8230%N]))
    = Ok text
    /\ singleSpaced false text
    /\ (isElementNamed (Some (element (lit "p") [] [])) (lit "code") = false ->
        forall c, In c smartPunctuation -> ~ In c text).
Proof.
  apply (cleanText_normalizes (fun text => text)
           (textUnder (element (lit "p") [] [])
                      ([8220%N] ++ lit "a" ++ [9%N; 10%N] ++ lit "b" ++ [8221%N; 8230%N]))
           (element (lit "p") [] []));
    reflexivity.
Defined.

(** ** Code spans and fences ([delimitCode], the [code] and [pre] rules) *)

Section CodeDelimiters.

Lemma startsWith_length (prefix s : jsstring) :
  startsWith prefix s = true -> (length prefix <= length s)%nat.
Proof.
  revert s. induction prefix as [|p prefix IH]; intros s H; [cbn; lia|].
  destruct s as [|c s]; [discriminate|]. cbn [startsWith] in H.
  apply andb_true_iff in H as [_ H]. apply IH in H. cbn. lia.
Qed.

Lemma startsWith_app (prefix rest : jsstring) : startsWith prefix (prefix ++ rest) = true.
Proof.
  induction prefix as [|p prefix IH]; [reflexivity|].
  cbn [app startsWith]. now rewrite N.eqb_refl.
Qed.

Lemma delimiterOccurs_bound (ticks : nat) (code : jsstring) :
  delimiterOccurs ticks code = true -> (ticks <= length code)%nat.
Proof.
  assert (Hone : forall s, ticksThenOther ticks s = true -> (ticks <= length s)%nat).
  { intros s H. unfold ticksThenOther in H. apply andb_true_iff in H as [H _].
    apply startsWith_length in H. now rewrite repeat_length in H. }
  unfold delimiterOccurs. intros H. apply orb_true_iff in H as [H|H]; [now apply Hone|].
  induction code as [|c code IH]; [discriminate|]. cbn [delimiterAfterOther] in H.
  apply orb_true_iff in H as [H|H].
  - apply andb_true_iff in H as [_ H]. apply Hone in H. cbn. lia.
  - apply IH in H. cbn. lia.
Qed.

(** The test of the loop finds every run of exactly [ticks] backticks. *)
Lemma delimiterOccurs_exact_run (ticks : nat) (before after : jsstring) :
  last before 0%N <> 96%N -> hd 0%N after <> 96%N ->
  delimiterOccurs ticks (before ++ repeat 96%N ticks ++ after) = true.
Proof.
  intros Hb Ha.
  assert (Hrun : ticksThenOther ticks (repeat 96%N ticks ++ after) = true).
  { unfold ticksThenOther. rewrite startsWith_app, skipn_repeat_app.
    destruct after as [|c after]; [reflexivity|]. cbn in Ha. cbn [andb].
    now destruct (N.eqb_spec c 96). }
  unfold delimiterOccurs. destruct before as [|b before]; [cbn [app]; now rewrite Hrun|].
  apply orb_true_iff. right. revert b Hb.
  induction before as [|b' before IH]; intros b Hb.
  - cbn [app delimiterAfterOther]. cbn in Hb. rewrite Hrun. now destruct (N.eqb_spec b 96).
  - change ((b :: b' :: before) ++ repeat 96%N ticks ++ after)
      with (b :: ((b' :: before) ++ repeat 96%N ticks ++ after)).
    cbn [delimiterAfterOther]. rewrite (IH b' Hb). apply orb_true_r.
Qed.

Lemma growDelimiter_stops (fuel : nat) (code : jsstring) :
  forall ticks,
    (length code < ticks + fuel)%nat ->
    exists n,
      growDelimiter fuel ticks code = Some n
      /\ (ticks <= n)%nat
      /\ delimiterOccurs n code = false
      /\ forall j, (ticks <= j < n)%nat -> delimiterOccurs j code = true.
Proof.
  induction fuel as [|fuel IH]; intros ticks Hfuel; cbn [growDelimiter];
    destruct (delimiterOccurs ticks code) eqn:E.
  - apply delimiterOccurs_bound in E. lia.
  - exists ticks. repeat split; trivial. intros j Hj. lia.
  - destruct (IH (S ticks)) as (n & Hn & Hle & Hstop & Hmin); [lia|].
    exists n. repeat split; trivial; [lia|]. intros j Hj.
    destruct (Nat.eq_dec j ticks) as [->|]; [exact E|]. apply Hmin. lia.
  - exists ticks. repeat split; trivial. intros j Hj. lia.
Qed.

Lemma spaceOut_ends (code : jsstring) :
  hd 0%N (spaceOut code) <> 96%N /\ last (spaceOut code) 0%N <> 96%N.
Proof.
  unfold spaceOut.
  set (spaced := match code with
                 | c :: _ => if (c =? 96)%N then 32%N :: code else code
                 | [] => code
                 end).
  assert (Hhd : hd 0%N spaced <> 96%N).
  { unfold spaced. destruct code as [|c code]; [cbn; discriminate|].
    destruct (N.eqb_spec c 96); [cbn; discriminate|exact n]. }
  destruct (N.eqb_spec (last spaced 0%N) 96) as [E|E].
  - split.
    + destruct spaced; [cbn; discriminate|exact Hhd].
    + rewrite last_last. discriminate.
  - split; [exact Hhd|exact E].
Qed.

(** X13. [delimitCode] always comes to an end, within one iteration per
    character of the code, and its delimiter cannot be mistaken: the code
    holds no run of exactly that many backticks, no shorter delimiter from
    the requested length on has that property, and the code is kept from
    touching the delimiter with a backtick by a space. *)
Theorem delimitCode_delimiter_is_safe (fuel : nat) (code : jsstring) (ticks : nat) :
  (length code < ticks + fuel)%nat ->
  exists n,
    delimitCode fuel code ticks = Some (repeat 96%N n ++ spaceOut code ++ repeat 96%N n)
    /\ (ticks <= n)%nat
    /\ (forall before after,
           code = before ++ repeat 96%N n ++ after ->
           last before 0%N = 96%N \/ hd 0%N after = 96%N)
    /\ (forall j, (ticks <= j < n)%nat -> delimiterOccurs j code = true)
    /\ hd 0%N (spaceOut code) <> 96%N
    /\ last (spaceOut code) 0%N <> 96%N.
Proof.
  intros Hfuel.
  destruct (growDelimiter_stops fuel code ticks Hfuel) as (n & Hn & Hle & Hstop & Hmin).
  exists n. unfold delimitCode. rewrite Hn.
  split; [reflexivity|]. split; [exact Hle|]. split; [|split; [exact Hmin|apply spaceOut_ends]].
  intros before after Hcode.
  destruct (N.eq_dec (last before 0%N) 96) as [Hb|Hb]; [now left|].
  destruct (N.eq_dec (hd 0%N after) 96) as [Ha|Ha]; [now right|].
  subst code. pose proof (delimiterOccurs_exact_run n before after Hb Ha) as Hocc.
  assert (Habs : true = false) by (rewrite <- Hocc; exact Hstop). discriminate Habs.
Qed.

Lemma no_backtick_no_delimiter (ticks : nat) (code : jsstring) :
  ~ In 96%N code -> delimiterOccurs (S ticks) code = false.
Proof.
  intros Hno.
  assert (Hone : forall s, ~ In 96%N s -> ticksThenOther (S ticks) s = false).
  { intros [|c s] Hs; [reflexivity|]. unfold ticksThenOther. cbn [repeat startsWith].
    destruct (N.eqb_spec 96 c) as [<-|]; [elim Hs; now left|reflexivity]. }
  unfold delimiterOccurs. rewrite (Hone code Hno). cbn [orb].
  induction code as [|c code IH]; [reflexivity|]. cbn [delimiterAfterOther].
  rewrite Hone, IH; [now rewrite andb_false_r| |]; intros H; apply Hno; now right.
Qed.

(** X14. The [code] rule: inside a [pre] the content is passed through for
    the [pre] rule to fence; elsewhere content without a backtick becomes an
    inline span between single backticks, with no iteration of the loop. *)
Theorem inline_code_without_backticks (fuel : nat) (content : jsstring) (node : Node) :
  (isElementNamed (parentNode node) (lit "pre") = true ->
   replacement_code fuel content node = Some content)
  /\ (isElementNamed (parentNode node) (lit "pre") = false ->
      ~ In 96%N content ->
      replacement_code fuel content node = Some (lit "`" ++ content ++ lit "`")).
Proof.
  unfold replacement_code. split; intros ->; [reflexivity|]. intros Hno. cbn [negb].
  unfold delimitCode.
  assert (Hgrow : growDelimiter fuel 1 content = Some 1%nat).
  { destruct fuel; cbn [growDelimiter]; now rewrite (no_backtick_no_delimiter 0 content Hno). }
  rewrite Hgrow. do 2 f_equal. unfold spaceOut.
  assert (Hhd : match content with
                | c :: _ => if (c =? 96)%N then 32%N :: content else content
                | [] => content
                end = content).
  { destruct content as [|c content]; [reflexivity|].
    destruct (N.eqb_spec c 96) as [->|]; [elim Hno; now left|reflexivity]. }
  rewrite Hhd. destruct (N.eqb_spec (last content 0%N) 96) as [E|E]; [|reflexivity].
  destruct content as [|c content]; [discriminate|].
  elim Hno. rewrite <- E.
  destruct (@exists_last _ (c :: content) ltac:(discriminate)) as (l' & a & Hl).
  rewrite Hl, last_last. apply in_or_app. right. now left.
Qed.

Lemma nonSpaceRun_no_space (s : jsstring) :
  Forall (fun c => isWhiteSpace c = false) (nonSpaceRun s).
Proof.
  induction s as [|c s IH]; [constructor|]. cbn [nonSpaceRun].
  destruct (isWhiteSpace c) eqn:E; [constructor|now constructor].
Qed.

Lemma CODE_HIGHLIGHT_REGEX_match_token (s group : jsstring) :
  CODE_HIGHLIGHT_REGEX_match s = Some group ->
  group <> [] /\ Forall (fun c => isWhiteSpace c = false) group.
Proof.
  assert (Hcap : forall prefix t g, captureAfter prefix t = Some g ->
                   g <> [] /\ Forall (fun c => isWhiteSpace c = false) g).
  { intros prefix t g. unfold captureAfter. destruct (startsWith prefix t); [|discriminate].
    pose proof (nonSpaceRun_no_space (skipn (length prefix) t)) as Hrun.
    destruct (nonSpaceRun (skipn (length prefix) t)) as [|c r]; [discriminate|].
    intros H. injection H as <-. split; [discriminate|exact Hrun]. }
  induction s as [|c s IH]; cbn [CODE_HIGHLIGHT_REGEX_match];
    destruct (captureAfter (lit "highlight highlight-") _) eqn:E1;
    try (intros H; injection H as <-; now apply Hcap in E1);
    destruct (captureAfter (lit "language-") _) eqn:E2;
    try (intros H; injection H as <-; now apply Hcap in E2);
    destruct (captureAfter (lit "lang-") _) eqn:E3;
    try (intros H; injection H as <-; now apply Hcap in E3);
    [discriminate|exact IH].
Qed.

(** X15. The language tag found for a [pre] is one word: it is never empty
    and holds no white space, so it can stand after the opening fence. *)
Theorem detectLanguage_is_a_token (node : Node) (language : jsstring) :
  detectLanguage node = Some language ->
  language <> [] /\ Forall (fun c => isWhiteSpace c = false) language.
Proof.
  assert (Hclass : forall n l, classLanguage n = Some l ->
                     l <> [] /\ Forall (fun c => isWhiteSpace c = false) l).
  { intros [n|] l; [|discriminate]. unfold classLanguage.
    destruct (getAttribute n (lit "class")); [apply CODE_HIGHLIGHT_REGEX_match_token|discriminate]. }
  unfold detectLanguage.
  destruct (match childNodes node with
            | Some (first :: _) =>
                if isElementNamed (Some first) (lit "code")
                then classLanguage (Some first) else None
            | _ => None
            end) as [l|] eqn:E.
  - intros H. injection H as <-.
    destruct (childNodes node) as [[|first rest]|]; try discriminate.
    destruct (isElementNamed (Some first) (lit "code")); [now apply Hclass in E|discriminate].
  - destruct (isElementNamed (parentNode node) (lit "div")); [apply Hclass|discriminate].
Qed.

End CodeDelimiters.

Lemma delimitCode_delimiter_is_safe_witness :
  exists n,
    delimitCode 10 (lit "a ` b `` c") 1
    = Some (repeat 96%N n ++ spaceOut (lit "a ` b `` c") ++ repeat 96%N n)
    /\ (1 <= n)%nat
    /\ (forall before after,
           lit "a ` b `` c" = before ++ repeat 96%N n ++ after ->
           last before 0%N = 96%N \/ hd 0%N after = 96%N)
    /\ (forall j, (1 <= j < n)%nat -> delimiterOccurs j (lit "a ` b `` c") = true)
    /\ hd 0%N (spaceOut (lit "a ` b `` c")) <> 96%N
    /\ last (spaceOut (lit "a ` b `` c")) 0%N <> 96%N.
Proof.
  apply (delimitCode_delimiter_is_safe 10 (lit "a ` b `` c") 1). cbn. lia.
Defined.

Lemma inline_code_without_backticks_witness :
  replacement_code 0 (lit "x = 1") (withParentNode (element (lit "code") [] [])
                                                   (element (lit "p") [] []))
  = Some (lit "`x = 1`").
Proof.
  apply (proj2 (inline_code_without_backticks 0 (lit "x = 1")
                  (withParentNode (element (lit "code") [] []) (element (lit "p") [] [])))).
  - reflexivity.
  - cbn. intuition discriminate.
Defined.

Lemma detectLanguage_is_a_token_witness :
  lit "c++" <> []
  /\ Forall (fun c => isWhiteSpace c = false) (lit "c++").
Proof.
  apply (detectLanguage_is_a_token
           (element (lit "pre") []
              [element (lit "code") [(lit "class", lit "hljs language-c++ wide")] []])
           (lit "c++")).
  reflexivity.
Defined.

(** ** Empty text nodes ([removeEmptyNodes]) and the reference block *)

Section Cleanup.

Variable blocks : list jsstring.
Variable toLowerCase : jsstring -> jsstring.

Lemma isEmptyNode_blank (previous : option Node) (child : Node) (next : option Node) :
  isEmptyNode blocks previous child next = true -> blankText child = true.
Proof.
  unfold isEmptyNode, blankText. intros H.
  apply andb_true_iff in H as [H _]. exact H.
Qed.

(** X16. [removeEmptyNodes] only ever detaches text nodes made of white
    space: the children that remain are the original ones in their order,
    and every element, and every text node with visible content, is among
    them. *)
Theorem removeEmptyNodes_keeps_content (node : Node) (children : list Node) :
  childNodes node = Some children ->
  exists remaining,
    removeEmptyNodes blocks node = withChildNodes node remaining
    /\ keptFrom remaining children
    /\ forall child, In child children -> blankText child = false -> In child remaining.
Proof.
  intros Hc. unfold removeEmptyNodes. rewrite Hc.
  exists (removeEmpty blocks None children). split; [reflexivity|].
  clear Hc. generalize (@None Node) as previous.
  induction children as [|c children IH]; intros previous.
  - split; [constructor|intros ? []].
  - cbn [removeEmpty]. destruct (IH (Some c)) as [Hkept Hin].
    destruct (isEmptyNode blocks previous c (hd_error children)) eqn:E.
    + split; [now constructor|]. intros child [<-|H] Hb; [|now apply Hin].
      apply isEmptyNode_blank in E. congruence.
    + split; [now constructor|]. intros child [<-|H] Hb; [now left|right; now apply Hin].
Qed.

Lemma in_concat_map {A : Type} (f : A -> jsstring) (x : A) (xs : list A) :
  In x xs -> exists before after, concat (map f xs) = before ++ f x ++ after.
Proof.
  induction xs as [|y xs IH]; [intros []|]. intros [->|Hin]; cbn [map concat].
  - now exists [], (concat (map f xs)).
  - destruct (IH Hin) as (before & after & ->).
    exists (f y ++ before), after. now rewrite <- app_assoc.
Qed.

Lemma getAttribute_not_empty (node : Node) (attribute : jsstring) :
  getAttribute node attribute <> Some [].
Proof.
  unfold getAttribute.
  destruct (find (fun attr => streq (fst attr) attribute) (getAttrList node))
    as [[n [|c v]]|]; discriminate.
Qed.

(** X17. No reference dangles: when the link rule renders an anchor through
    a reference, the block appended to the document holds the definition of
    that reference, with the anchor's URL and title. *)
Theorem reference_is_defined (content : jsstring) (node : Node) (links : list Link)
    (ref : Link) :
  findReference (match getAttribute node (lit "href") with Some u => u | None => [] end)
                (getAttribute node (lit "title")) links = Some ref ->
  (replacement_a toLowerCase content node links = lit "[" ++ content ++ lit "]"
   \/ replacement_a toLowerCase content node links
      = lit "[" ++ content ++ lit "][" ++ name ref ++ lit "]")
  /\ exists before after,
      referenceBlock links
      = before
          ++ (lit "[" ++ name ref ++ lit "]: "
                ++ match getAttribute node (lit "href") with Some u => u | None => [] end
                ++ match getAttribute node (lit "title") with
                   | Some t => lit " " ++ [34%N] ++ t ++ [34%N]
                   | None => []
                   end
                ++ [10%N])
          ++ after.
Proof.
  intros Href. split.
  - unfold replacement_a. rewrite Href.
    destruct (streq (toLowerCase content) (name ref)); [now left|now right].
  - destruct (findReference_first _ _ _ _ Href) as (Hu & Ht & pre & post & Hlinks & _).
    assert (Hin : In ref links) by (rewrite Hlinks; apply in_elt).
    destruct (in_concat_map linkDefinition ref links Hin) as (before & after & Hblock).
    unfold referenceBlock. rewrite Hblock.
    exists ((if (0 <? length links)%nat then [10%N] else []) ++ before), after.
    rewrite <- app_assoc. do 2 f_equal. unfold linkDefinition. rewrite Hu, Ht.
    destruct (getAttribute node (lit "title")) as [t|] eqn:Et; [|reflexivity].
    destruct t as [|c t]; [|reflexivity].
    now apply getAttribute_not_empty in Et.
Qed.

End Cleanup.

Lemma removeEmptyNodes_keeps_content_witness :
  exists remaining,
    removeEmptyNodes [lit "p"]
      (element (lit "root") []
         [textNode (lit " "); element (lit "em") [] []; textNode (lit " ");
          element (lit "b") [] []; textNode [10%N]; element (lit "p") [] []])
    = withChildNodes
        (element (lit "root") []
           [textNode (lit " "); element (lit "em") [] []; textNode (lit " ");
            element (lit "b") [] []; textNode [10%N]; element (lit "p") [] []])
        remaining
    /\ keptFrom remaining
         [textNode (lit " "); element (lit "em") [] []; textNode (lit " ");
          element (lit "b") [] []; textNode [10%N]; element (lit "p") [] []]
    /\ forall child,
        In child [textNode (lit " "); element (lit "em") [] []; textNode (lit " ");
                  element (lit "b") [] []; textNode [10%N]; element (lit "p") [] []] ->
        blankText child = false -> In child remaining.
Proof.
  apply (removeEmptyNodes_keeps_content [lit "p"]). reflexivity.
Defined.

Lemma reference_is_defined_witness :
  (replacement_a asciiLowerCase (lit "Home")
     (element (lit "a") [(lit "href", lit "http://x"); (lit "title", lit "T")] [])
     [ {| url := lit "http://a"; title := None; name := lit "a" |};
       {| url := lit "http://x"; title := Some (lit "T"); name := lit "site" |} ]
   = lit "[Home]"
   \/ replacement_a asciiLowerCase (lit "Home")
        (element (lit "a") [(lit "href", lit "http://x"); (lit "title", lit "T")] [])
        [ {| url := lit "http://a"; title := None; name := lit "a" |};
          {| url := lit "http://x"; title := Some (lit "T"); name := lit "site" |} ]
      = lit "[Home][site]")
  /\ exists before after,
      referenceBlock
        [ {| url := lit "http://a"; title := None; name := lit "a" |};
          {| url := lit "http://x"; title := Some (lit "T"); name := lit "site" |} ]
      = before ++ (lit "[site]: http://x " ++ [34%N] ++ lit "T" ++ [34%N; 10%N]) ++ after.
Proof.
  apply (reference_is_defined asciiLowerCase (lit "Home")
           (element (lit "a") [(lit "href", lit "http://x"); (lit "title", lit "T")] [])
           [ {| url := lit "http://a"; title := None; name := lit "a" |};
             {| url := lit "http://x"; title := Some (lit "T"); name := lit "site" |} ]
           {| url := lit "http://x"; title := Some (lit "T"); name := lit "site" |}).
  reflexivity.
Defined.

(** ** Tables, continued *)

Section TablesMore.

Variable wcwidth : jsstring -> Z.

Lemma skipn_cons_nth {A : Type} (start : nat) :
  forall (l : list A) (x : A) (rest : list A),
    skipn start l = x :: rest ->
    nth_error l start = Some x /\ skipn (S start) l = rest.
Proof.
  induction start as [|start IH]; intros l x rest H.
  - destruct l; [discriminate|]. cbn in H. injection H as -> ->. now split.
  - destruct l as [|y l]; [discriminate|]. cbn [skipn nth_error] in *. now apply IH.
Qed.

Lemma separator_cells (f : option Alignment -> nat -> Result jsstring)
    (allWidths : list Z) :
  wcwidth [] = 0%Z ->
  (forall alignment i,
     f alignment i
     = let w := toNumber (widthAt allWidths i) in
       match alignment with
       | Some AlignCenter =>
           dashes <- pad wcwidth (VString []) (VNumber (sub w (Some 2%Z))) 45%N ;;
           Ok (lit ":" ++ dashes ++ lit ":")
       | Some AlignLeft =>
           dashes <- pad wcwidth (VString []) (VNumber (sub w (Some 1%Z))) 45%N ;;
           Ok (lit ":" ++ dashes)
       | Some AlignRight =>
           dashes <- pad wcwidth (VString []) (VNumber (sub w (Some 1%Z))) 45%N ;;
           Ok (dashes ++ lit ":")
       | None => pad wcwidth (VString []) (VNumber w) 45%N
       end) ->
  forall (alignments : list (option Alignment)) (widths : list Z) (start : nat),
    skipn start allWidths = widths ->
    Forall2 (fun alignment w =>
               (match alignment with
                | Some AlignCenter => 2
                | Some AlignLeft | Some AlignRight => 1
                | None => 0
                end <= w)%Z)
            alignments (firstn (length alignments) widths) ->
    (length alignments <= length widths)%nat ->
    exists cells,
      mapIndexed f start alignments = Ok cells
      /\ Forall2 (fun w cell => Z.of_nat (length cell) = w)
                 (firstn (length alignments) widths) cells.
Proof.
  intros Hempty Hf. induction alignments as [|a alignments IH];
    intros widths start Hskip Hmin Hlen.
  - exists []. split; [reflexivity|constructor].
  - destruct widths as [|w widths]; [cbn in Hlen; lia|].
    cbn [length firstn] in Hmin. apply Forall2_cons_iff in Hmin as [Hw Hmin].
    destruct (skipn_cons_nth _ _ _ _ Hskip) as [Hnth Hskip'].
    destruct (IH widths (S start) Hskip' Hmin) as (cells & Hcells & Hlens);
      [cbn in Hlen; lia|].
    cbn [mapIndexed]. rewrite Hf, Hcells. cbn zeta. unfold widthAt. rewrite Hnth.
    cbn [toNumber sub].
    assert (Hpad : forall n, (0 <= n)%Z ->
              pad wcwidth (VString []) (VNumber (Some n)) 45%N
              = Ok (repeatChar 45%N (Z.to_nat n))).
    { intros n Hn. rewrite pad_text_first by (rewrite Hempty; exact Hn).
      rewrite Hempty, Z.sub_0_r. reflexivity. }
    destruct a as [[| |]|];
      rewrite Hpad by lia; cbn [bind];
      eexists; (split; [reflexivity|]); cbn [length firstn];
      (constructor; [|exact Hlens]);
      rewrite ?length_app; unfold repeatChar; rewrite repeat_length; cbn [length lit]; cbn; lia.
Qed.

(** X18. When every column is wide enough for its marker (two for a centred
    column, one for a left or right one), the separator row has one cell per
    alignment and each cell is exactly as long as its column is wide. *)
Theorem formatHeaderSeparator_fits (alignments : list (option Alignment))
    (columnWidths : list Z) :
  wcwidth [] = 0%Z ->
  (length alignments <= length columnWidths)%nat ->
  Forall2 (fun alignment w =>
             (match alignment with
              | Some AlignCenter => 2
              | Some AlignLeft | Some AlignRight => 1
              | None => 0
              end <= w)%Z)
          alignments (firstn (length alignments) columnWidths) ->
  exists cells,
    formatHeaderSeparator wcwidth alignments columnWidths = Ok (joinColumns cells)
    /\ Forall2 (fun w cell => Z.of_nat (length cell) = w)
               (firstn (length alignments) columnWidths) cells.
Proof.
  intros Hempty Hlen Hmin.
  unfold formatHeaderSeparator.
  match goal with
  | |- context [mapIndexed ?f O alignments] =>
      set (columns := mapIndexed f O alignments);
      assert (H : exists cells,
                 columns = Ok cells
                 /\ Forall2 (fun w cell => Z.of_nat (length cell) = w)
                            (firstn (length alignments) columnWidths) cells)
        by exact (separator_cells f columnWidths Hempty (fun _ _ => eq_refl)
                    alignments columnWidths O eq_refl Hmin Hlen)
  end.
  destruct H as (cells & -> & Hlens). exists cells. now split.
Qed.

Lemma mapIndexed_fails {A B : Type} (f : A -> nat -> Result B) (message : jsstring) :
  (forall x i m, f x i = Err m -> m = message) ->
  forall (l : list A) (start k : nat) (x : A),
    nth_error l k = Some x -> f x (start + k)%nat = Err message ->
    mapIndexed f start l = Err message.
Proof.
  intros Hsame. induction l as [|y l IH]; intros start k x Hk Hx; [now destruct k|].
  cbn [mapIndexed]. destruct k as [|k].
  - cbn in Hk. injection Hk as ->. rewrite Nat.add_0_r in Hx. now rewrite Hx.
  - destruct (f y start) as [b|m] eqn:E; cbn [bind].
    + rewrite (IH (S start) k x Hk); [reflexivity|]. now rewrite Nat.add_succ_comm.
    + now rewrite (Hsame _ _ _ E).
Qed.

(** X19. A column narrower than its marker breaks the table: a centred
    column of width below two, or a left or right aligned column of width
    below one, makes [formatHeaderSeparator] throw a RangeError. *)
Theorem formatHeaderSeparator_too_narrow (alignments : list (option Alignment))
    (columnWidths : list Z) (i : nat) (alignment : Alignment) (w : Z) :
  wcwidth [] = 0%Z ->
  nth_error alignments i = Some (Some alignment) ->
  nth_error columnWidths i = Some w ->
  (w < match alignment with AlignCenter => 2 | _ => 1 end)%Z ->
  formatHeaderSeparator wcwidth alignments columnWidths
  = Err (lit "RangeError: Invalid count value").
Proof.
  intros Hempty Ha Hw Hnarrow. unfold formatHeaderSeparator.
  assert (Hpad : forall n m, pad wcwidth (VString []) (VNumber n) 45%N = Err m ->
                             m = lit "RangeError: Invalid count value").
  { intros n m. unfold pad, repeatString. cbn [toNumber].
    destruct (sub n (Some (wcwidth []))) as [z|]; [|discriminate].
    destruct (z <? 0)%Z; [|discriminate]. cbn [bind]. congruence. }
  assert (Hthrow : forall n, (n < 0)%Z ->
                     pad wcwidth (VString []) (VNumber (Some n)) 45%N
                     = Err (lit "RangeError: Invalid count value")).
  { intros n Hn. unfold pad, repeatString. cbn [toNumber sub]. rewrite Hempty.
    destruct (Z.ltb_spec (n - 0) 0); [reflexivity|lia]. }
  erewrite (mapIndexed_fails _ (lit "RangeError: Invalid count value"));
    [reflexivity| |exact Ha|].
  - intros a k m. destruct a as [[| |]|]; cbn zeta;
      try (intros H; exact (Hpad _ _ H));
      destruct (pad wcwidth (VString []) _ 45%N) eqn:E; cbn [bind]; try discriminate;
      intros H; injection H as <-; exact (Hpad _ _ E).
  - cbn [Nat.add]. unfold widthAt. rewrite Hw. cbn [toNumber sub].
    destruct alignment; rewrite Hthrow by lia; reflexivity.
Qed.

(** The rows are read one by one: the state gains the cells of each row. *)
Lemma forEach_addRow_rows (rows : list Node) :
  forall (st st' : TableState),
    forEach addRow rows st = Ok st' ->
    exists new,
      snd st' = snd st ++ new
      /\ Forall2 (fun row columns =>
                    exists alignments, extractColumns row = Ok (columns, alignments))
                 rows new.
Proof.
  induction rows as [|row rows IH]; intros st st' H.
  - cbn in H. injection H as <-. exists []. split; [now rewrite app_nil_r|constructor].
  - cbn [forEach] in H. unfold addRow at 1 in H.
    destruct (extractColumns row) as [[columns alignments]|m] eqn:Erow;
      cbn [bind fst snd] in H; [|discriminate].
    destruct (mergeAlignments 0 alignments (fst st)) as [merged|m];
      cbn [bind] in H; [|discriminate].
    destruct (IH _ _ H) as (new & Hnew & Hall). cbn [snd] in Hnew.
    exists (columns :: new). split; [now rewrite Hnew, <- app_assoc|].
    constructor; [now exists alignments|exact Hall].
Qed.

(** X20. [extractRows] returns one row of cells per [tr] below the table, in
    reading order, each holding the replacement texts of the cells of that
    [tr]. *)
Theorem extractRows_rows_in_order (table : Node) (alignments : list (option Alignment))
    (rows : list (list jsstring)) :
  extractRows table = Ok (alignments, rows) ->
  Forall2 (fun row columns =>
             exists rowAligns, extractColumns row = Ok (columns, rowAligns))
          (tableRows table) rows.
Proof.
  unfold extractRows. rewrite extractRows_loop_table.
  destruct (forEach addRow (tableRows table) ([], [])) as [[recorded rs]|m] eqn:E;
    [|discriminate].
  destruct rs as [|header rs]; [discriminate|]. intros H. injection H as _ <-.
  destruct (forEach_addRow_rows _ _ _ E) as (new & Hnew & Hall). cbn in Hnew.
  now subst new.
Qed.

(** X21. A table without any [tr] cannot be converted: [extractRows] throws
    when it looks for the header row. *)
Theorem extractRows_without_rows (table : Node) :
  tableRows table = [] ->
  extractRows table = Err (lit "TypeError: Cannot read property 'length' of undefined").
Proof.
  intros Hnone. unfold extractRows. rewrite extractRows_loop_table, Hnone. reflexivity.
Qed.

(** X22. A text node directly inside a [tr] is fatal: whatever the other
    rows and cells, [extractRows] fails. *)
Theorem extractRows_text_in_row (table row text : Node) (children : list Node) :
  In row (tableRows table) ->
  childNodes row = Some children ->
  In text children ->
  isTextNode text = true ->
  isElementNode text = false ->
  exists message, extractRows table = Err message.
Proof.
  intros Hrow Hc Hin Htext Hne.
  assert (Hcols : exists message, extractColumns row = Err message).
  { unfold extractColumns. rewrite Hc.
    apply (forEach_fails _ text children Hin).
    intros [columns alignments]. rewrite Hne, Htext. cbn [andb]. eauto. }
  destruct Hcols as [m Hm].
  destruct (forEach_fails addRow row (tableRows table) Hrow) with (s := (@nil (option Alignment), @nil (list jsstring)))
    as [m' Hm'].
  - intros st. unfold addRow. rewrite Hm. cbn [bind]. eauto.
  - unfold extractRows. rewrite extractRows_loop_table, Hm'. now exists m'.
Qed.

Lemma popNulls_stops (n : nat) :
  forall reversed,
    (length (popNulls n reversed) + n = length reversed)%nat
    \/ hd (Some AlignLeft) (popNulls n reversed) <> None.
Proof.
  induction n as [|n IH]; intros reversed; [left; cbn; lia|].
  destruct reversed as [|[a|] rest]; cbn [popNulls].
  - right. discriminate.
  - right. discriminate.
  - destruct (IH rest) as [H|H]; [left; cbn [length]; lia|now right].
Qed.

(** X23. Alignments that do nothing are dropped: beyond the width of the
    header row the alignment list that [extractRows] returns does not end in
    a column without alignment. *)
Theorem extractRows_trailing_alignments (table : Node)
    (alignments : list (option Alignment)) (rows : list (list jsstring)) :
  extractRows table = Ok (alignments, rows) ->
  exists header rest,
    rows = header :: rest
    /\ ((length alignments <= length header)%nat
        \/ last alignments (Some AlignLeft) <> None).
Proof.
  unfold extractRows. rewrite extractRows_loop_table.
  destruct (forEach addRow (tableRows table) ([], [])) as [[recorded rs]|m];
    [|discriminate].
  destruct rs as [|header rs]; [discriminate|]. intros H. injection H as <- <-.
  exists header, rs. split; [reflexivity|]. unfold dropTrailingNulls.
  destruct (popNulls_stops (length recorded - length header) (rev recorded)) as [H|H].
  - left. rewrite length_rev in *. lia.
  - right. destruct (popNulls (length recorded - length header) (rev recorded))
      as [|a kept]; [discriminate|].
    cbn [rev]. rewrite last_last. exact H.
Qed.

Lemma mapIndexed_succeeds {A B : Type} (f : A -> nat -> Result B) :
  forall (l : list A) (start : nat),
    (forall k x, nth_error l k = Some x -> exists y, f x (start + k)%nat = Ok y) ->
    exists ys, mapIndexed f start l = Ok ys.
Proof.
  induction l as [|x l IH]; intros start H; [now exists []|].
  cbn [mapIndexed]. destruct (H O x eq_refl) as [y Hy]. rewrite Nat.add_0_r in Hy.
  rewrite Hy. cbn [bind]. destruct (IH (S start)) as [ys Hys].
  - intros k x' Hk. destruct (H (S k) x' Hk) as [y' Hy'].
    exists y'. now rewrite Nat.add_succ_comm.
  - rewrite Hys. now eexists.
Qed.

(** X24. Measuring and padding agree whenever no column is centred: with the
    widths [getColumnWidths] computes for a table, [formatRow] renders every
    row of that table, provided a right-aligned column lies within the header
    row. *)
Theorem formatRow_renders (header : list jsstring) (rest : list (list jsstring))
    (row : list jsstring) (alignments : list (option Alignment)) :
  In row (header :: rest) ->
  (forall i, alignmentAt alignments i <> Some AlignCenter) ->
  (forall i, alignmentAt alignments i = Some AlignRight -> (i < length header)%nat) ->
  exists columnWidths line,
    getColumnWidths wcwidth (header :: rest) = Ok columnWidths
    /\ formatRow wcwidth row alignments columnWidths = Ok line.
Proof.
  intros Hrow Hcenter Hright.
  destruct (getColumnWidths_max wcwidth header rest) as (widths & Hwidths & Hlen & Hmax).
  exists widths. unfold formatRow.
  destruct (mapIndexed_succeeds (formatCell wcwidth alignments widths) row O)
    as [cells Hcells].
  - intros i column Hcolumn. cbn [Nat.add].
    destruct (nth_error widths i) as [w|] eqn:Ew.
    + assert (Hi : (i < length header)%nat)
        by (rewrite <- Hlen; apply nth_error_Some; congruence).
      destruct (nth_error header i) as [cell|] eqn:Ecell;
        [|apply nth_error_None in Ecell; lia].
      destruct (Hmax i cell Ecell) as (w' & Hw' & _ & Hle & _).
      assert (w' = w) by congruence. subst w'.
      specialize (Hle row column Hrow Hcolumn).
      destruct (alignmentAt alignments i) as [[| |]|] eqn:Ea.
      * eexists. apply (formatCell_left wcwidth alignments widths column i w); auto.
      * now elim (Hcenter i).
      * eexists. apply (formatCell_right wcwidth alignments widths column i w); auto.
      * eexists. apply (formatCell_left wcwidth alignments widths column i w); auto.
    + assert (Hi : (length header <= i)%nat)
        by (rewrite <- Hlen; now apply nth_error_None).
      unfold formatCell, widthAt. rewrite Ew.
      destruct (alignmentAt alignments i) as [[| |]|] eqn:Ea.
      * now eexists.
      * now elim (Hcenter i).
      * specialize (Hright i Ea). lia.
      * now eexists.
  - exists (trimRight (joinColumns cells)). split; [exact Hwidths|].
    now rewrite Hcells.
Qed.

(** X25. [getColumnWidths] gives one width per header cell: the largest
    display width found in that column over all rows, and never less than
    the length of the header cell; the width is the header cell's length or
    the display width of a cell of the column. *)
Theorem getColumnWidths_widest (header : list jsstring) (rest : list (list jsstring)) :
  exists widths,
    getColumnWidths wcwidth (header :: rest) = Ok widths
    /\ length widths = length header
    /\ forall i cell,
        nth_error header i = Some cell ->
        exists w,
          nth_error widths i = Some w
          /\ (Z.of_nat (length cell) <= w)%Z
          /\ (forall row column, In row (header :: rest) ->
                                 nth_error row i = Some column ->
                                 (wcwidth column <= w)%Z)
          /\ (w = Z.of_nat (length cell)
              \/ exists row column,
                  In row (header :: rest) /\ nth_error row i = Some column
                  /\ w = wcwidth column).
Proof. apply getColumnWidths_max. Qed.

(** X26. A centred cell whose display width is its length fills its column:
    the spaces that are missing are split between both sides, the half that
    is rounded down going to the left. *)
Theorem formatCell_centres (alignments : list (option Alignment))
    (columnWidths : list Z) (column : jsstring) (i : nat) (w : Z) :
  alignmentAt alignments i = Some AlignCenter ->
  nth_error columnWidths i = Some w ->
  wcwidth column = Z.of_nat (length column) ->
  (forall n, wcwidth (repeatChar 32%N n ++ column) = (Z.of_nat n + wcwidth column)%Z) ->
  (wcwidth column <= w)%Z ->
  formatCell wcwidth alignments columnWidths column i
  = Ok (repeatChar 32%N (Z.to_nat ((w - wcwidth column) / 2)) ++ column
          ++ repeatChar 32%N (Z.to_nat (w - wcwidth column - (w - wcwidth column) / 2))).
Proof. apply formatCell_center_narrow. Qed.

End TablesMore.

Lemma formatHeaderSeparator_fits_witness :
  exists cells,
    formatHeaderSeparator displayWidth [Some AlignCenter; None; Some AlignRight]
                          [5%Z; 3%Z; 4%Z]
    = Ok (joinColumns cells)
    /\ Forall2 (fun w cell => Z.of_nat (length cell) = w) [5%Z; 3%Z; 4%Z] cells.
Proof.
  apply (formatHeaderSeparator_fits displayWidth
           [Some AlignCenter; None; Some AlignRight] [5%Z; 3%Z; 4%Z]).
  - reflexivity.
  - cbn. lia.
  - cbn. repeat constructor; lia.
Defined.

Lemma formatHeaderSeparator_too_narrow_witness :
  formatHeaderSeparator displayWidth [None; Some AlignCenter] [1%Z; 1%Z]
  = Err (lit "RangeError: Invalid count value").
Proof.
  apply (formatHeaderSeparator_too_narrow displayWidth
           [None; Some AlignCenter] [1%Z; 1%Z] 1 AlignCenter 1%Z).
  - reflexivity.
  - reflexivity.
  - reflexivity.
  - lia.
Defined.

Lemma extractRows_rows_in_order_witness :
  Forall2 (fun row columns =>
             exists rowAligns, extractColumns row = Ok (columns, rowAligns))
          (tableRows
             (element (lit "table") []
                [element (lit "thead") []
                   [element (lit "tr") []
                      [tableCell (lit "text-align:right") (lit "a"); tableCell [] (lit "b")]];
                 element (lit "tbody") []
                   [element (lit "tr") []
                      [tableCell (lit "text-align:right") (lit "c"); tableCell [] (lit "d")]]]))
          [[lit "a"; lit "b"]; [lit "c"; lit "d"]].
Proof.
  apply (extractRows_rows_in_order _ [Some AlignRight; None]).
  reflexivity.
Defined.

Lemma extractRows_without_rows_witness :
  extractRows (element (lit "table") [] [element (lit "tbody") [] []])
  = Err (lit "TypeError: Cannot read property 'length' of undefined").
Proof.
  apply (extractRows_without_rows (element (lit "table") [] [element (lit "tbody") [] []])).
  reflexivity.
Defined.

Lemma extractRows_text_in_row_witness :
  exists message,
    extractRows
      (element (lit "table") []
         [element (lit "tr") [] [tableCell [] (lit "a"); textNode (lit " ")]])
    = Err message.
Proof.
  apply (extractRows_text_in_row _
           (element (lit "tr") [] [tableCell [] (lit "a"); textNode (lit " ")])
           (textNode (lit " "))
           [tableCell [] (lit "a"); textNode (lit " ")]).
  - left. reflexivity.
  - reflexivity.
  - right. left. reflexivity.
  - reflexivity.
  - reflexivity.
Defined.

Lemma extractRows_trailing_alignments_witness :
  exists header rest,
    [[lit "a"]; [lit "b"; lit "c"; lit "d"]] = header :: rest
    /\ ((length [@None Alignment; Some AlignRight] <= length header)%nat
        \/ last [None; Some AlignRight] (Some AlignLeft) <> None).
Proof.
  apply (extractRows_trailing_alignments
           (element (lit "table") []
              [element (lit "tr") [] [tableCell [] (lit "a")];
               element (lit "tr") []
                 [tableCell [] (lit "b"); tableCell (lit "text-align:right") (lit "c");
                  tableCell [] (lit "d")]])).
  reflexivity.
Defined.

Lemma formatRow_renders_witness :
  exists columnWidths line,
    getColumnWidths displayWidth [[lit "name"; lit "n"]; [lit "ab"; lit "12345"]]
    = Ok columnWidths
    /\ formatRow displayWidth [lit "ab"; lit "12345"] [None; Some AlignRight] columnWidths
       = Ok line.
Proof.
  apply (formatRow_renders displayWidth [lit "name"; lit "n"] [[lit "ab"; lit "12345"]]).
  - right. left. reflexivity.
  - intros [|[|[|i]]]; discriminate.
  - intros [|[|[|i]]] H; try discriminate H; cbn; lia.
Defined.

Lemma formatCell_centres_witness :
  formatCell (fun s => Z.of_nat (length s)) [Some AlignCenter] [7%Z] (lit "ab") 0
  = Ok (lit "  ab   ").
Proof.
  apply (formatCell_centres (fun s => Z.of_nat (length s))
           [Some AlignCenter] [7%Z] (lit "ab") 0 7%Z).
  - reflexivity.
  - reflexivity.
  - reflexivity.
  - intros n. unfold repeatChar. rewrite length_app, repeat_length, Nat2Z.inj_add.
    reflexivity.
  - cbn. lia.
Defined.
